(** * Benchmark orchestration and metrics extraction: a shallow embedding

    The Python scripts [scripts/run_all.py], [run_p1_only.py],
    [scripts/parse_cachegrind.py] and [scripts/create_memory_cache_graphs.py]
    are embedded as Rocq functions, and with them the graph writer and the
    random generators of [generate_dataset.py], the helpers of
    [graph_utils.py], the reader of [scripts/visualize_graph.py] and the
    dense-only parser of [scripts/create_performance_graphs.py].

    A [string] stands for the Python [str] with the same characters, a
    character being its code point; the code points are those below 256,
    ASCII and the Latin-1 supplement, and a character past ASCII is written
    by its code, as in [String "178" s] for a superscript two.  On these
    the classes of [str.split], [str.strip], [str.isdigit] and [int], and
    of [\d] and [\w] in [re], are those of Python 3.  An [int] is a [Z];
    [int] and [str] are taken without the limit on the number of digits
    that [sys.set_int_max_str_digits] can put on them.  A float is known by
    the text that [str] gives for it, or by its exact value.

    Dictionaries with a fixed set of keys are records, the output directory
    is a finite map from paths to file contents, an exception that leaves a
    function is a result of its own, and whatever the operating system
    decides (directory listing order, the outcome of a child process,
    whether a compiler run succeeds, the numbers of the random generator,
    the depth of recursion the interpreter allows) is an explicit
    argument. *)

From Stdlib Require Import ZArith Ascii String List Lia.
From stdpp Require Import base list strings gmap sorting pretty relations.

Local Open Scope Z_scope.

(** ** Python string primitives *)

Module Py.

(** the code point of a character *)
Definition code (c : ascii) : nat := nat_of_ascii c.

Definition between (lo hi : nat) (c : ascii) : bool :=
  (lo <=? code c)%nat && (code c <=? hi)%nat.

(** [str.isspace] on one character, which is also the white space of
    [str.split] and [str.strip]: TAB..CR, FS..US, the blank, NEL (U+0085)
    and the no-break space (U+00A0). *)
Definition isspace_char (c : ascii) : bool :=
  between 9 13 c || between 28 32 c || (code c =? 133)%nat
  || (code c =? 160)%nat.

(** The white space that [int] passes over at both ends of its argument:
    that of C for the ASCII characters (FS..US are not), that of
    [str.isspace] for the others. *)
Definition isspace_int (c : ascii) : bool :=
  between 9 13 c || (code c =? 32)%nat || (code c =? 133)%nat
  || (code c =? 160)%nat.

(** [str.isdecimal] on one character, which is also the class [\d] of
    [re] and the digits that [int] reads: [0] to [9]. *)
Definition isdecimal_char (c : ascii) : bool := between 48 57 c.

(** [str.isdigit] on one character: the decimal digits and the superscripts
    two, three (U+00B2, U+00B3) and one (U+00B9). *)
Definition isdigit_char (c : ascii) : bool :=
  isdecimal_char c || between 178 179 c || (code c =? 185)%nat.

(** [str.isalpha] on one character: the letters of ASCII, the ordinal
    indicators (U+00AA, U+00BA), the micro sign (U+00B5) and the letters
    U+00C0..U+00FF, which leaves out the signs U+00D7 and U+00F7. *)
Definition isalpha_char (c : ascii) : bool :=
  between 65 90 c || between 97 122 c
  || (code c =? 170)%nat || (code c =? 181)%nat || (code c =? 186)%nat
  || between 192 214 c || between 216 246 c || between 248 255 c.

(** [str.isalnum] on one character: letters, digits and the fractions
    U+00BC..U+00BE. *)
Definition isalnum_char (c : ascii) : bool :=
  isalpha_char c || isdigit_char c || between 188 190 c.

(** the class [\w] of [re] on a [str] pattern *)
Definition isword_char (c : ascii) : bool :=
  isalnum_char c || (code c =? 95)%nat.

Definition digit_value (c : ascii) : Z := Z.of_nat (code c) - 48.

Fixpoint take_while (p : ascii -> bool) (s : string) : string :=
  match s with
  | EmptyString => EmptyString
  | String c s' => if p c then String c (take_while p s') else EmptyString
  end.

Fixpoint drop_while (p : ascii -> bool) (s : string) : string :=
  match s with
  | EmptyString => EmptyString
  | String c s' => if p c then drop_while p s' else s
  end.

Fixpoint drop (n : nat) (s : string) : string :=
  match n, s with
  | O, _ => s
  | S _, EmptyString => EmptyString
  | S n', String _ s' => drop n' s'
  end.

Fixpoint all_chars (p : ascii -> bool) (s : string) : bool :=
  match s with
  | EmptyString => true
  | String c s' => p c && all_chars p s'
  end.

Definition is_empty (s : string) : bool :=
  match s with EmptyString => true | _ => false end.

(** [s.startswith(pre)] *)
Fixpoint startswith (s pre : string) {struct pre} : bool :=
  match pre with
  | EmptyString => true
  | String a pre' =>
      match s with
      | EmptyString => false
      | String b s' => Ascii.eqb b a && startswith s' pre'
      end
  end.

(** [s.endswith(suf)] *)
Definition endswith (s suf : string) : bool :=
  startswith (String.rev s) (String.rev suf).

(** [needle in hay] *)
Fixpoint contains (needle hay : string) : bool :=
  startswith hay needle
  || match hay with
     | EmptyString => false
     | String _ hay' => contains needle hay'
     end.

Definition lstrip (s : string) : string := drop_while isspace_char s.
Definition rstrip (s : string) : string := String.rev (lstrip (String.rev s)).
Definition strip (s : string) : string := rstrip (lstrip s).

Definition cons_token (t : string) (ts : list string) : list string :=
  if is_empty t then ts else t :: ts.

(** [split_aux s] is the token that starts at the head of [s] (empty when
    [s] starts with white space) and the tokens after it. *)
Fixpoint split_aux (s : string) : string * list string :=
  match s with
  | EmptyString => (EmptyString, [])
  | String c s' =>
      let '(t, ts) := split_aux s' in
      if isspace_char c then (EmptyString, cons_token t ts)
      else (String c t, ts)
  end.

(** [s.split()]: the maximal runs of characters that are not white space *)
Definition split (s : string) : list string :=
  let '(t, ts) := split_aux s in cons_token t ts.

(** [s.split(sep)] for a one-character separator: never empty, the pieces
    may be. *)
Fixpoint split_on (sep : ascii) (s : string) : list string :=
  match s with
  | EmptyString => [EmptyString]
  | String c s' =>
      if Ascii.eqb c sep then EmptyString :: split_on sep s'
      else match split_on sep s' with
           | [] => [String c EmptyString]
           | l :: ls => String c l :: ls
           end
  end.

(** [s.replace(a, '')] *)
Fixpoint remove_char (a : ascii) (s : string) : string :=
  match s with
  | EmptyString => EmptyString
  | String c s' =>
      if Ascii.eqb c a then remove_char a s' else String c (remove_char a s')
  end.

(** [s.replace(a, b)] for one-character [a] and [b] *)
Fixpoint replace_char (a b : ascii) (s : string) : string :=
  match s with
  | EmptyString => EmptyString
  | String c s' =>
      String (if Ascii.eqb c a then b else c) (replace_char a b s')
  end.

(** [s.isdecimal()], and a full match of [\d+] *)
Definition isdecimal (s : string) : bool :=
  negb (is_empty s) && all_chars isdecimal_char s.

(** [s.isdigit()] *)
Definition isdigit (s : string) : bool :=
  negb (is_empty s) && all_chars isdigit_char s.

(** The digits of an [int] literal: decimal digits, a single underscore
    allowed between two of them.  [prev] tells whether the previous
    character was a digit. *)
Fixpoint int_digits (acc : Z) (prev : bool) (s : string) : option Z :=
  match s with
  | EmptyString => if prev then Some acc else None
  | String c s' =>
      if isdecimal_char c then int_digits (acc * 10 + digit_value c) true s'
      else if (code c =? 95)%nat
           then if prev then int_digits acc false s' else None
           else None
  end.

(** what [int] makes of its argument before it reads the sign *)
Definition strip_int (s : string) : string :=
  String.rev (drop_while isspace_int (String.rev (drop_while isspace_int s))).

(** [int(s)]; [None] stands for [ValueError].  The limit that the
    interpreter can put on the number of digits
    ([sys.set_int_max_str_digits]) is taken to be off. *)
Definition int (s : string) : option Z :=
  match strip_int s with
  | String c r =>
      if (code c =? 45)%nat then Z.opp <$> int_digits 0 false r
      else if (code c =? 43)%nat then int_digits 0 false r
      else int_digits 0 false (String c r)
  | EmptyString => None
  end.

(** [str(z)] for an [int] *)
Definition str (z : Z) : string := pretty z.

(** the line end of text files *)
Definition nl : string := String "010" EmptyString.

(** A Python float whose value is [num / 2 ^ shift]. *)
Record dyadic := { num : Z; shift : nat }.

Global Instance dyadic_eq_dec : EqDecision dyadic.
Proof. solve_decision. Defined.

(** The double nearest to the integer [a >= 0], a tie going to the even
    mantissa, as the integer it equals: the 53 leading bits of [a],
    rounded by the [k] bits below them. *)
Definition round_53 (a : Z) : Z :=
  let k := Z.max 0 (Z.log2 a - 52) in
  let q := Z.shiftr a k in
  let r := a - Z.shiftl q k in
  let up := (2 ^ k <? 2 * r) || ((2 * r =? 2 ^ k) && Z.odd q) in
  Z.shiftl (if up then q + 1 else q) k.

(** The least integer that is too large for a float: halfway from the
    largest double, [2^1024 - 2^971], to [2^1024]. *)
Definition float_overflow : Z := 2 ^ 1024 - 2 ^ 970.

(** [float(z)] for an [int], as the integer it equals; [None] stands for
    [OverflowError]. *)
Definition float_of_int (z : Z) : option Z :=
  if float_overflow <=? Z.abs z then None
  else Some (Z.sgn z * round_53 (Z.abs z)).

(** [z / 1024.0] for an [int] [z]: [z] is made a float, and the division by
    a power of two is exact. *)
Definition div_1024 (z : Z) : option dyadic :=
  v ← float_of_int z; Some {| num := v; shift := 10 |}.

(** [''.join(ls)] *)
Fixpoint flatten (ls : list string) : string :=
  match ls with
  | [] => EmptyString
  | l :: ls' => l +:+ flatten ls'
  end.

End Py.

(** ** The resource-usage parser of [scripts/create_memory_cache_graphs.py] *)

Module Memory.

(** one element of [data] *)
Record MemoryRecord := {
  algorithm : string;
  test : string;
  category : string;
  memory_kb : Z;
  memory_mb : Py.dyadic
}.

Global Instance MemoryRecord_eq_dec : EqDecision MemoryRecord.
Proof. solve_decision. Defined.

(** the exceptions of the loop body: [int] raises the first, the division
    by [1024.0] the second *)
Inductive exception := ValueError | OverflowError.

(** What a call gives: the value it returns, or the exception that leaves
    it; the parsers have no handler. *)
Inductive outcome (A : Type) :=
| Returns (a : A)
| Raises (e : exception).
Arguments Returns {A} a.
Arguments Raises {A} e.

(** a [for] loop over [l] whose body may raise *)
Fixpoint for_each {A B : Type} (body : B -> A -> outcome B) (acc : B)
    (l : list A) : outcome B :=
  match l with
  | [] => Returns acc
  | x :: l' =>
      match body acc x with
      | Returns acc' => for_each body acc' l'
      | Raises e => Raises e
      end
  end.

(** A printed line: its text, or, for the line that starts with a check
    mark (U+2713, which a [string] cannot hold), the two numbers in it. *)
Inductive printed :=
| Line (text : string)
| Parsed (entries algorithms : nat).

(** A match of [Algorithm: (p\d)] at the head of [s]: the captured group. *)
Definition algo_here (s : string) : option string :=
  if Py.startswith s "Algorithm: p" then
    match Py.drop 12 s with
    | String d _ =>
        if Py.isdecimal_char d then Some (String "p" (String d EmptyString))
        else None
    | EmptyString => None
    end
  else None.

(** A match of [Test: (\w+)] at the head of [s]: the captured group, the
    longest run of word characters. *)
Definition test_here (s : string) : option string :=
  if Py.startswith s "Test: " then
    let w := Py.take_while Py.isword_char (Py.drop 6 s) in
    if Py.is_empty w then None else Some w
  else None.

(** [re.split] with one capturing group.  [here] recognises a match at the
    head of the text and gives its length and group.  The scan goes from
    left to right; [skip] counts the characters of the current match still
    to be passed, [cur] is the text since the last match, reversed.  The
    result alternates text and group, as Python's does. *)
Fixpoint re_split_go (here : string -> option (nat * string))
    (skip : nat) (cur : string) (s : string) : list string :=
  match s with
  | EmptyString => [String.rev cur]
  | String c s' =>
      match skip with
      | S k => re_split_go here k cur s'
      | O =>
          match here s with
          | Some (len, g) =>
              String.rev cur :: g :: re_split_go here (Nat.pred len) EmptyString s'
          | None => re_split_go here O (String c cur) s'
          end
      end
  end.

Definition re_split (here : string -> option (nat * string)) (s : string)
  : list string :=
  re_split_go here O EmptyString s.

Definition algo_match (s : string) : option (nat * string) :=
  (fun g => (13%nat, g)) <$> algo_here s.

Definition test_match (s : string) : option (nat * string) :=
  (fun g => ((6 + String.length g)%nat, g)) <$> test_here s.

(** A match of [Maximum resident set size \(kbytes\): (\d+)] at the head
    of [s]: the captured group, the longest run of digits. *)
Definition mem_here (s : string) : option string :=
  if Py.startswith s "Maximum resident set size (kbytes): " then
    let d := Py.take_while Py.isdecimal_char (Py.drop 36 s) in
    if Py.is_empty d then None else Some d
  else None.

(** [re.search] of that pattern: the group of the leftmost match. *)
Fixpoint mem_search (s : string) : option string :=
  match mem_here s with
  | Some d => Some d
  | None =>
      match s with
      | EmptyString => None
      | String _ s' => mem_search s'
      end
  end.

(** The [if]/[elif] chain that determines the category of a test name. *)
Definition category_of (test_name : string) : option string :=
  if Py.startswith test_name "dense" then Some "dense"
  else if Py.startswith test_name "sparse" then Some "sparse"
  else if Py.startswith test_name "small" then Some "small"
  else if Py.startswith test_name "large" then Some "large"
  else if Py.startswith test_name "tree" then Some "tree_like"
  else if Py.startswith test_name "highly" then Some "highly_connected"
  else if Py.contains "road" test_name || Py.contains "com" test_name
          || Py.contains "wiki" test_name || Py.contains "soc" test_name
          || Py.contains "web" test_name
       then Some "real_world"
  else None.

(** [for i in range(1, len(l), 2)]: the elements [(l[i], l[i+1])]. *)
Fixpoint pairs (l : list string) : list (string * string) :=
  match l with
  | g :: t :: l' => (g, t) :: pairs l'
  | _ => []
  end.

Definition odd_pairs (l : list string) : list (string * string) :=
  pairs (tail l).

(** The body of the inner loop: what one test block appends to [data].
    The division comes before the category is looked at. *)
Definition test_step (algo : string) (data : list MemoryRecord)
    (blk : string * string) : outcome (list MemoryRecord) :=
  let '(test_name, test_data) := blk in
  match mem_search test_data with
  | Some d =>
      match Py.int d with
      | Some memory_kb =>
          match Py.div_1024 memory_kb with
          | Some memory_mb =>
              match category_of test_name with
              | Some cat =>
                  Returns (data ++ [ {| algorithm := algo; test := test_name;
                                        category := cat;
                                        memory_kb := memory_kb;
                                        memory_mb := memory_mb |} ])
              | None => Returns data
              end
          | None => Raises OverflowError
          end
      | None => Raises ValueError
      end
  | None => Returns data
  end.

(** [re.split(r'Algorithm: (p\d)', content)] read two by two from index 1:
    the algorithm identifiers with their sections *)
Definition algo_sections (content : string) : list (string * string) :=
  odd_pairs (re_split algo_match content).

(** [re.split(r'Test: (\w+)', section)] read the same way: the test names
    with their blocks *)
Definition test_blocks (section : string) : list (string * string) :=
  odd_pairs (re_split test_match section).

(** The body of the outer loop. *)
Definition algo_step (data : list MemoryRecord) (sec : string * string)
  : outcome (list MemoryRecord) :=
  let '(algo, section) := sec in
  for_each (test_step algo) data (test_blocks section).

(** The list [data] when both loops are done. *)
Definition collect (content : string) : outcome (list MemoryRecord) :=
  for_each algo_step [] (algo_sections content).

(** [parse_performance_metrics()].  [metrics_file] is the path of
    [performance_metrics.txt] as [str] gives it and [content] the text of
    the file, [None] when it does not exist.  The result is what is printed
    and what is returned: [None] for Python's [None], [Some data] for the
    data frame built from [data]. *)
Definition parse_performance_metrics (metrics_file : string)
    (content : option string)
  : outcome (list printed * option (list MemoryRecord)) :=
  match content with
  | None => Returns ([Line ("Error: " +:+ metrics_file +:+ " not found!")], None)
  | Some content =>
      match collect content with
      | Raises e => Raises e
      | Returns [] => Returns ([Line "No memory data found!"], None)
      | Returns data =>
          Returns ([Parsed (length data)
                      (length (remove_dups (algorithm <$> data)))],
                   Some data)
      end
  end.

End Memory.

(** ** The profiler report parser of [scripts/parse_cachegrind.py] *)

Module Cachegrind.

(** the dictionary returned by [parse_cachegrind_output] *)
Record Metrics := {
  Ir : Z; I1mr : Z; ILmr : Z;
  Dr : Z; D1mr : Z; DLmr : Z;
  Dw : Z; D1mw : Z; DLmw : Z;
  Bc : Z; Bcm : Z
}.

Global Instance Metrics_eq_dec : EqDecision Metrics.
Proof. solve_decision. Defined.

(** [tokens[i + 1].startswith('(') and tokens[i + 1].endswith('%)')] *)
Definition is_percentage (t : string) : bool :=
  Py.startswith t "(" && Py.endswith t "%)".

(** One turn of [for i, token in enumerate(tokens)].  [None] is an
    exception raised by [int]. *)
Definition token_step (tokens : list string) (acc : option (list Z))
    (it : nat * string) : option (list Z) :=
  numbers ← acc;
  let '(i, token) := it in
  let token := Py.remove_char "," token in
  if Py.isdigit token then
    match tokens !! (i + 1)%nat with
    | Some next =>
        if is_percentage next
        then z ← Py.int token; Some (numbers ++ [z])
        else Some numbers
    | None => Some numbers
    end
  else Some numbers.

(** the list [numbers] built from one line *)
Definition numbers_of (line : string) : option (list Z) :=
  let tokens := Py.split line in
  foldl (token_step tokens) (Some []) (imap pair tokens).

Definition metrics_of (numbers : list Z) : Metrics :=
  {| Ir := numbers !!! 0%nat; I1mr := numbers !!! 1%nat;
     ILmr := numbers !!! 2%nat; Dr := numbers !!! 3%nat;
     D1mr := numbers !!! 4%nat; DLmr := numbers !!! 5%nat;
     Dw := numbers !!! 6%nat; D1mw := numbers !!! 7%nat;
     DLmw := numbers !!! 8%nat; Bc := numbers !!! 9%nat;
     Bcm := numbers !!! 10%nat |}.

(** The loop over [output.split('\n')]: it returns at the first marker
    line with eleven numbers and goes on to the next line otherwise; an
    exception ends it with [None]. *)
Fixpoint scan_lines (lines : list string) : option Metrics :=
  match lines with
  | [] => None
  | line :: rest =>
      if Py.contains "PROGRAM TOTALS" line then
        match numbers_of line with
        | Some numbers =>
            if (11 <=? length numbers)%nat then Some (metrics_of numbers)
            else scan_lines rest
        | None => None
        end
      else scan_lines rest
  end.

(** [parse_cachegrind_output(filename)].  The argument is what
    [cg_annotate] wrote on its standard output and error, [None] when
    running it raised. *)
Definition parse_cachegrind_output (annotated : option string)
  : option Metrics :=
  match annotated with
  | Some output => scan_lines (Py.split_on "010" output)
  | None => None
  end.

(** the dictionary appended to [cache_data] by [parse_cachegrind_for_test] *)
Record CacheRow := {
  cr_algorithm : string;
  instructions : Z;
  l1_i_misses : Z;
  l1_d_misses : Z;
  l1_total_misses : Z;
  branches : Z;
  branch_mispredicts : Z
}.

(** The loop of [parse_cachegrind_for_test], which stops at the first
    marker line.  The outer [option] is the exception, the inner one
    whether a row is appended. *)
Fixpoint scan_lines_for_test (algo : string) (lines : list string)
  : option (option CacheRow) :=
  match lines with
  | [] => Some None
  | line :: rest =>
      if Py.contains "PROGRAM TOTALS" line then
        numbers ← numbers_of line;
        Some (if (11 <=? length numbers)%nat then
                Some {| cr_algorithm := algo;
                        instructions := numbers !!! 0%nat;
                        l1_i_misses := numbers !!! 1%nat;
                        l1_d_misses := numbers !!! 4%nat;
                        l1_total_misses := numbers !!! 1%nat + numbers !!! 4%nat;
                        branches := numbers !!! 9%nat;
                        branch_mispredicts := numbers !!! 10%nat |}
              else None)
      else scan_lines_for_test algo rest
  end.

End Cachegrind.

(** ** Corpus discovery and graph headers of [scripts/run_all.py] *)

Module Corpus.

(** One entry of [DATASET_DIR] as the operating system lists it: its name,
    whether it is a directory, and the names of the entries inside it. *)
Record dirent := {
  d_name : string;
  d_is_dir : bool;
  d_children : list string
}.

(** the path [DATASET_DIR / parent / name] *)
Record Path := { parent : string; name : string }.

Global Instance Path_eq_dec : EqDecision Path.
Proof. solve_decision. Defined.

(** Paths below one directory compare by their last component. *)
Definition by_name : relation dirent :=
  fun a b => String.le (d_name a) (d_name b).

Global Instance by_name_dec : RelDecision by_name.
Proof. intros a b. unfold by_name. apply _. Defined.

(** [category.glob('*.txt')] *)
Definition glob_txt (children : list string) : list string :=
  filter (fun f => Py.endswith f ".txt" = true) children.

(** the inner loop of [discover_dataset_files] *)
Definition add_files (category : string) (files : list (string * Path))
    (sorted_names : list string) : list (string * Path) :=
  foldl (fun files f => files ++ [(category, {| parent := category; name := f |})])
        files sorted_names.

(** [discover_dataset_files()]; the argument is [DATASET_DIR.iterdir()]. *)
Definition discover_dataset_files (listing : list dirent)
  : list (string * Path) :=
  foldl (fun files category =>
           if d_is_dir category
           then add_files (d_name category) files
                  (merge_sort String.le (glob_txt (d_children category)))
           else files)
        [] (merge_sort by_name listing).

(** the lines a text file yields, each with its line end *)
Fixpoint readlines (s : string) : list string :=
  match s with
  | EmptyString => []
  | String c s' =>
      if Ascii.eqb c "010" then String c EmptyString :: readlines s'
      else match readlines s' with
           | [] => [String c EmptyString]
           | l :: ls => String c l :: ls
           end
  end.

(** one line of [gen_from_file]: the edge it yields, if any *)
Definition edge_of_line (line : string) : option (Z * Z) :=
  let line := Py.strip line in
  if Py.is_empty line then None
  else if Py.startswith (Py.lstrip line) "#" then None
  else
    match Py.split (Py.replace_char "," " " line) with
    | a0 :: a1 :: _ =>
        match Py.int a0, Py.int a1 with
        | Some u, Some v => Some (u, v)
        | _, _ => None
        end
    | _ => None
    end.

(** [gen_from_file] run to its end on the lines still to be read *)
Definition gen_from_file (lines : list string) : list (Z * Z) :=
  omap edge_of_line lines.

(** [max(max(u, v) for u, v in edges)] for a list with head [e] *)
Definition max_endpoint (e : Z * Z) (edges : list (Z * Z)) : Z :=
  foldl (fun acc uv => Z.max acc (Z.max uv.1 uv.2)) (Z.max e.1 e.2) edges.

(** [read_header_and_edges(path)] on the text of the file *)
Definition read_header_and_edges (content : string) : Z * Z * list (Z * Z) :=
  let lines := readlines content in
  let first := Py.strip (hd EmptyString lines) in
  let parts := Py.split first in
  let no_header :=
    let edges := gen_from_file lines in
    match edges with
    | e :: edges' => (max_endpoint e edges' + 1, Z.of_nat (length edges), edges)
    | [] => (0, 0, edges)
    end in
  match parts with
  | p0 :: p1 :: _ =>
      match Py.int p0, Py.int p1 with
      | Some n, Some m => (n, m, gen_from_file (tail lines))
      | _, _ => no_header
      end
  | _ => no_header
  end.

(** The counts [run] keeps of [build_graph_from_file(fpath)]; both are
    [None] when the call raises, which here is when the file cannot be
    read ([content = None]). *)
Definition graph_counts (content : option string) : option Z * option Z :=
  match content with
  | Some text =>
      let '(n, m, _) := read_header_and_edges text in (Some n, Some m)
  | None => (None, None)
  end.

End Corpus.

(** ** The batch driver of [scripts/run_all.py] *)

Module Driver.
Import Corpus.

Definition nl : string := Py.nl.
Definition crlf : string := String "013" (String "010" EmptyString).
Definition dquote : ascii := "034"%char.

(** A Python float, known by the text that [str] gives for it; the driver
    only stores and prints the elapsed time. *)
Record pyfloat := PyFloat { float_str : string }.

(** What [subprocess.run(..., timeout=600)] and the [open] of its input do:
    the child exits, the 600 seconds pass first, or another exception is
    raised.  [partial] is what the child had written when it was killed. *)
Inductive proc_result :=
| Exited (stdout : string) (returncode : Z) (runtime : pyfloat)
| TimeoutExpired (partial : string)
| Raised (msg : string).

(** the value under ['exitcode']: the return code, or one of the strings
    ['timeout'] and ['error'] *)
Inductive exit_code :=
| Code (rc : Z)
| Word (s : string).

Record ExecutionRecord := {
  algorithm : string;
  category : string;
  file : string;
  n : option Z;
  m : option Z;
  time : option pyfloat;
  exitcode : exit_code;
  output : string
}.

(** a value of one key of a dumped record *)
Inductive json_value :=
| JNull
| JInt (z : Z)
| JFloat (x : pyfloat)
| JString (s : string).

(** a dumped record: its keys and values, in order *)
Definition json_object : Type := list (string * json_value).

(** A file of the output directory: text, or the list of objects that
    [json.dump] serialises. *)
Inductive file_data :=
| Text (s : string)
| JsonDump (objects : list json_object).

(** Everything the driver finds around it: the output directory, whether
    an executable is there and can be run, whether its source is, the
    return code of the compiler, the listing of the data set directory, the
    text of a graph file ([None] when it cannot be read), the outcome of a
    child process, and the files already in the output directory.  Creating
    directories and writing files below the output directory is taken to
    succeed. *)
Record world := {
  OUTPUT_DIR : string;
  exe_ready : string -> bool;
  src_exists : string -> bool;
  gxx : string -> Z;
  listing : list dirent;
  read : Path -> option string;
  spawn : string -> Path -> proc_result;
  disk : gmap string file_data
}.

(** the state of [run]: the list [results] and the files written *)
Record state := {
  results : list ExecutionRecord;
  fs : gmap string file_data
}.

Definition EXEC_NAMES : list string := ["p1"; "p2"; "p4"; "p5"]%string.

Definition compile_if_needed (w : world) (name : string) : bool :=
  if exe_ready w name then true
  else if negb (src_exists w name) then false
  else if negb (gxx w name =? 0) then false
  else true.

Definition join (dir name : string) : string := dir +:+ "/" +:+ name.

(** [str(fpath.relative_to(DATASET_DIR))] *)
Definition rel_of (fpath : Path) : string := join (parent fpath) (name fpath).

(** [str(OUTPUT_DIR / exe / category / fpath.name)] *)
Definition outfile_of (w : world) (exe category : string) (fpath : Path) : string :=
  join (join (join (OUTPUT_DIR w) exe) category) (name fpath).

Definition csv_path (w : world) : string := join (OUTPUT_DIR w) "results.csv".
Definition json_path (w : world) : string := join (OUTPUT_DIR w) "results.json".

(** *** The [csv] module, default dialect *)

Definition fieldnames : list string :=
  ["algorithm"; "category"; "file"; "n"; "m"; "time"; "exitcode"; "output"]%string.

Definition csv_special (c : ascii) : bool :=
  Ascii.eqb c "," || Ascii.eqb c dquote || Ascii.eqb c "013" || Ascii.eqb c "010".

Fixpoint has_special (s : string) : bool :=
  match s with
  | EmptyString => false
  | String c s' => csv_special c || has_special s'
  end.

Fixpoint double_quotes (s : string) : string :=
  match s with
  | EmptyString => EmptyString
  | String c s' =>
      if Ascii.eqb c dquote then String c (String c (double_quotes s'))
      else String c (double_quotes s')
  end.

Definition csv_field (s : string) : string :=
  if has_special s
  then String dquote (double_quotes s +:+ String dquote EmptyString)
  else s.

Fixpoint csv_join (fields : list string) : string :=
  match fields with
  | [] => EmptyString
  | [f] => f
  | f :: fs => f +:+ "," +:+ csv_join fs
  end.

(** [writer.writerow] on the cells of one row *)
Definition csv_line (cells : list string) : string :=
  csv_join (csv_field <$> cells) +:+ crlf.

Definition cell_int (o : option Z) : string :=
  match o with Some z => Py.str z | None => EmptyString end.

Definition cell_float (o : option pyfloat) : string :=
  match o with Some x => float_str x | None => EmptyString end.

Definition cell_exit (e : exit_code) : string :=
  match e with Code rc => Py.str rc | Word s => s end.

(** the cells of a record in the order of [fieldnames] *)
Definition row_cells (r : ExecutionRecord) : list string :=
  [algorithm r; category r; file r; cell_int (n r); cell_int (m r);
   cell_float (time r); cell_exit (exitcode r); output r].

(** [writer.writeheader()] and then [writer.writerow(r)] for every [r] *)
Definition csv_text (rs : list ExecutionRecord) : string :=
  foldl (fun text r => text +:+ csv_line (row_cells r)) (csv_line fieldnames) rs.

(** *** [json.dump(results)] *)

Definition json_opt_int (o : option Z) : json_value :=
  match o with Some z => JInt z | None => JNull end.

Definition json_of_record (r : ExecutionRecord) : json_object :=
  [("algorithm"%string, JString (algorithm r));
   ("category"%string, JString (category r));
   ("file"%string, JString (file r));
   ("n"%string, json_opt_int (n r));
   ("m"%string, json_opt_int (m r));
   ("time"%string, match time r with Some x => JFloat x | None => JNull end);
   ("exitcode"%string,
     match exitcode r with Code rc => JInt rc | Word s => JString s end);
   ("output"%string, JString (output r))].

Definition json_of_results (rs : list ExecutionRecord) : list json_object :=
  json_of_record <$> rs.

(** *** The loop of [run] *)

Definition write_file (path : string) (d : file_data) (st : state) : state :=
  {| results := results st; fs := <[path := d]> (fs st) |}.

Definition append (r : ExecutionRecord) (st : state) : state :=
  {| results := results st ++ [r]; fs := fs st |}.

(** The [try] statement around [subprocess.run]: the output artifact and
    the record of one algorithm on one file. *)
Definition execute (w : world) (exe : string) (cf : string * Path)
    (st : state) : state :=
  let '(category, fpath) := cf in
  let rel := rel_of fpath in
  let '(n, m) := graph_counts (read w fpath) in
  let outfile := outfile_of w exe category fpath in
  let record t code :=
    {| algorithm := exe; category := category; file := rel;
       n := n; m := m; time := t; exitcode := code; output := outfile |} in
  match spawn w exe fpath with
  | Exited out rc runtime =>
      append (record (Some runtime) (Code rc))
        (write_file outfile (Text out) st)
  | TimeoutExpired _ =>
      append (record None (Word "timeout"))
        (write_file outfile (Text ("TIMEOUT" +:+ nl)) st)
  | Raised msg =>
      append (record None (Word "error"))
        (write_file outfile (Text ("ERROR: " +:+ msg +:+ nl)) st)
  end.

(** [# Save intermediate results after each test] *)
Definition save_csv (w : world) (st : state) : state :=
  write_file (csv_path w) (Text (csv_text (results st))) st.

(** the body of the inner [for] loop *)
Definition run_body (w : world) (exe : string) (st : state)
    (cf : string * Path) : state :=
  save_csv w (execute w exe cf st).

Definition compiled_exes (w : world) : list string :=
  filter (fun name => compile_if_needed w name = true) EXEC_NAMES.

(** the two nested loops, from a given state *)
Definition run_loops (w : world) (exes : list string)
    (files : list (string * Path)) (st : state) : state :=
  foldl (fun st exe => foldl (run_body w exe) st files) st exes.

(** [run()].  The plots, written below another directory, are left out. *)
Definition run (w : world) : state :=
  let st0 := {| results := []; fs := disk w |} in
  match compiled_exes w with
  | [] => st0
  | exes =>
      let files := discover_dataset_files (listing w) in
      let st := run_loops w exes files st0 in
      let st := save_csv w st in
      write_file (json_path w) (JsonDump (json_of_results (results st))) st
  end.

(** *** The files as they are written, call by call

    [write_file] gives a file as it is when its [with] statement is left.
    What follows gives the states in between: [open(path, 'w')] leaves the
    file empty, and every call of [write] on the file object puts its
    argument at the end; [writeheader] and [writerow] make one such call
    each, with the whole row.  The buffers between the file object and the
    disk are not part of it. *)

(** [open(path, 'w')] *)
Definition open_w (path : string) (st : state) : state :=
  write_file path (Text EmptyString) st.

(** [f.write(s)] on the file opened at [path] *)
Definition write (path s : string) (st : state) : state :=
  write_file path
    (Text match fs st !! path with
          | Some (Text t) => t +:+ s
          | _ => s
          end) st.

(** the states after each of the calls [f.write(c)], for [c] in [chunks] *)
Fixpoint write_calls (path : string) (chunks : list string) (st : state)
  : list state :=
  match chunks with
  | [] => []
  | c :: chunks' => write path c st :: write_calls path chunks' (write path c st)
  end.

(** [with open(path, 'w') as f:] and the calls of [f.write] in its body:
    the state after [open] and after every call *)
Definition with_open_w (path : string) (chunks : list string) (st : state)
  : list state :=
  open_w path st :: write_calls path chunks (open_w path st).

(** the text of the output artifact of a child process *)
Definition artifact_text (r : proc_result) : string :=
  match r with
  | Exited out _ _ => out
  | TimeoutExpired _ => "TIMEOUT" +:+ nl
  | Raised msg => "ERROR: " +:+ msg +:+ nl
  end.

(** the states that [execute] goes through: the artifact is opened and
    written, and then the record is appended *)
Definition execute_trace (w : world) (exe : string) (cf : string * Path)
    (st : state) : list state :=
  with_open_w (outfile_of w exe cf.1 cf.2) [artifact_text (spawn w exe cf.2)] st
  ++ [execute w exe cf st].

(** the states of one rewrite of the table *)
Definition save_csv_trace (w : world) (st : state) : list state :=
  with_open_w (csv_path w)
    (csv_line fieldnames :: ((fun r => csv_line (row_cells r)) <$> results st))
    st.

(** the states of one turn of the inner loop *)
Definition run_body_trace (w : world) (exe : string) (st : state)
    (cf : string * Path) : list state :=
  execute_trace w exe cf st ++ save_csv_trace w (execute w exe cf st).

Fixpoint inner_trace (w : world) (exe : string) (st : state)
    (files : list (string * Path)) : list state :=
  match files with
  | [] => []
  | cf :: files' =>
      run_body_trace w exe st cf
      ++ inner_trace w exe (run_body w exe st cf) files'
  end.

Fixpoint loops_trace (w : world) (exes : list string)
    (files : list (string * Path)) (st : state) : list state :=
  match exes with
  | [] => []
  | exe :: exes' =>
      inner_trace w exe st files
      ++ loops_trace w exes' files (foldl (run_body w exe) st files)
  end.

(** The states that [run()] goes through, from the first on.  The dump of
    [json.dump] is taken as one call. *)
Definition run_trace (w : world) : list state :=
  let st0 := {| results := []; fs := disk w |} in
  st0 ::
  match compiled_exes w with
  | [] => []
  | exes =>
      let files := discover_dataset_files (listing w) in
      let st := run_loops w exes files st0 in
      loops_trace w exes files st0
      ++ save_csv_trace w st
      ++ [open_w (json_path w) (save_csv w st); run w]
  end.

End Driver.

(** ** The single-algorithm driver [run_p1_only.py] *)

Module P1Only.
Import Corpus Driver.

(** a local variable of [run] *)
Inductive local (A : Type) :=
| Unbound
| Bound (a : A).
Arguments Unbound {A}.
Arguments Bound {A} a.

(** The header loop: the first line that is neither blank nor a comment
    and has two tokens decides. *)
Inductive header :=
| Found (n m : Z)
| BadInt
| Missing.

Fixpoint scan_header (lines : list string) : header :=
  match lines with
  | [] => Missing
  | line :: rest =>
      let line := Py.strip line in
      if negb (Py.is_empty line) && negb (Py.startswith line "#") then
        match Py.split line with
        | p0 :: p1 :: _ =>
            match Py.int p0, Py.int p1 with
            | Some n, Some m => Found n m
            | _, _ => BadInt
            end
        | _ => scan_header rest
        end
      else scan_header rest
  end.

(** the state of [run]: the list [results], the files written, and the
    local variables [n] and [m], which are assigned together *)
Record state := {
  results : list ExecutionRecord;
  fs : gmap string file_data;
  nm : local (option Z * option Z)
}.

(** the [try] that reads the counts: a failing [open] or [int] ends in the
    bare [except], no header line leaves [n] and [m] as they were *)
Definition read_counts (content : option string)
    (nm : local (option Z * option Z)) : local (option Z * option Z) :=
  match content with
  | None => Bound (None, None)
  | Some text =>
      match scan_header (readlines text) with
      | Found n m => Bound (Some n, Some m)
      | BadInt => Bound (None, None)
      | Missing => nm
      end
  end.

Inductive outcome :=
| Next (st : state)
| Uncaught (exc : string) (st : state).

(** the text of the [UnboundLocalError] for [n], in the words of
    CPython 3.11 *)
Definition unbound_msg : string :=
  "cannot access local variable 'n' where it is not associated with a value".

Definition write_file (path : string) (d : file_data) (st : state) : state :=
  {| results := results st; fs := <[path := d]> (fs st); nm := nm st |}.

(** [results.append({...})]: the dictionary display reads [n] and [m] *)
Definition append (exe category rel : string) (t : option pyfloat)
    (code : exit_code) (outfile : string) (st : state) : outcome :=
  match nm st with
  | Bound (n, m) =>
      Next {| results := results st ++
                [ {| algorithm := exe; category := category; file := rel;
                     n := n; m := m; time := t; exitcode := code;
                     output := outfile |} ];
              fs := fs st; nm := nm st |}
  | Unbound => Uncaught unbound_msg st
  end.

(** the body of the [for] loop *)
Definition run_body (w : world) (st : state) (cf : string * Path) : outcome :=
  let '(category, fpath) := cf in
  let rel := rel_of fpath in
  let st := {| results := results st; fs := fs st;
               nm := read_counts (read w fpath) (nm st) |} in
  let outfile := outfile_of w "p1" category fpath in
  let on_error msg st :=
    append "p1" category rel None (Word "error") outfile
      (write_file outfile (Text ("ERROR: " +:+ msg +:+ nl)) st) in
  match spawn w "p1" fpath with
  | Exited out rc runtime =>
      match append "p1" category rel (Some runtime) (Code rc) outfile
              (write_file outfile (Text out) st) with
      | Next st' => Next st'
      | Uncaught exc st' => on_error exc st'
      end
  | TimeoutExpired _ =>
      append "p1" category rel None (Word "timeout") outfile
        (write_file outfile (Text ("TIMEOUT" +:+ nl)) st)
  | Raised msg => on_error msg st
  end.

(** the [for] loop: an exception that nothing catches ends it *)
Fixpoint run_loop (w : world) (st : state) (files : list (string * Path))
  : outcome :=
  match files with
  | [] => Next st
  | cf :: rest =>
      match run_body w st cf with
      | Next st' => run_loop w st' rest
      | Uncaught exc st' => Uncaught exc st'
      end
  end.

Definition csv_path (w : world) : string := join (OUTPUT_DIR w) "p1_results.csv".

(** [compile_p1()], which is [compile_if_needed('p1')] of [run_all.py] *)
Definition compile_p1 (w : world) : bool := compile_if_needed w "p1".

(** [run()]; [discover_dataset_files] is the same function in both scripts *)
Definition run (w : world) : outcome :=
  let st0 := {| results := []; fs := disk w; nm := Unbound |} in
  if negb (compile_p1 w) then Next st0
  else
    match run_loop w st0 (discover_dataset_files (listing w)) with
    | Next st =>
        Next (write_file (csv_path w) (Text (csv_text (results st))) st)
    | Uncaught exc st => Uncaught exc st
    end.

End P1Only.

(** ** Text files and the graph writer of [generate_dataset.py] *)

Module Dataset.

(** What reading a file in text mode makes of its characters: a CR LF pair
    and a lone CR become LF (the default [newline=None] of [open]). *)
Fixpoint universal_newlines (s : string) : string :=
  match s with
  | EmptyString => EmptyString
  | String c s' =>
      if Ascii.eqb c "013" then
        String "010"
          match s' with
          | String d s'' =>
              if Ascii.eqb d "010" then universal_newlines s''
              else universal_newlines s'
          | EmptyString => EmptyString
          end
      else String c (universal_newlines s')
  end.

(** [f.write(f"{u} {v}\n")] *)
Definition edge_line (e : Z * Z) : string :=
  Py.str e.1 +:+ " " +:+ Py.str e.2 +:+ Py.nl.

(** [write_graph(filename, vertices, edges, description)]: the text the
    file holds afterwards, the line end of the platform being LF *)
Definition write_graph (vertices : Z) (edges : list (Z * Z))
    (description : string) : string :=
  (if Py.is_empty description then EmptyString
   else "# " +:+ description +:+ Py.nl)
  +:+ (Py.str vertices +:+ " " +:+ Py.str (Z.of_nat (length edges)) +:+ Py.nl)
  +:+ Py.flatten (edge_line <$> edges).

(** the text a reader gets from the file that [write_graph] wrote *)
Definition written (vertices : Z) (edges : list (Z * Z))
    (description : string) : string :=
  universal_newlines (write_graph vertices edges description).

End Dataset.

(** ** The helpers of [graph_utils.py] *)

Module GraphUtils.
Import Corpus.

Inductive error := IndexError | ValueError | RecursionError.

Inductive result (A : Type) :=
| Ok (a : A)
| Raise (e : error).
Arguments Ok {A} a.
Arguments Raise {A} e.

Global Instance result_ret : MRet result := fun A a => Ok a.
Global Instance result_bind : MBind result := fun A B f r =>
  match r with Ok a => f a | Raise e => Raise e end.

(** The while loop of [read_graph]: the description gathered from the
    leading comment lines, and the lines from [lines[idx]] on. *)
Fixpoint skip_comments (description : string) (lines : list string)
  : string * list string :=
  match lines with
  | [] => (description, [])
  | line :: rest =>
      if Py.startswith (Py.strip line) "#"
      then skip_comments (description +:+ Py.strip (Py.drop 1 line) +:+ " ") rest
      else (description, lines)
  end.

(** The for loop of [read_graph] over the edge lines. *)
Fixpoint read_edges (edges : list (Z * Z)) (lines : list string)
  : result (list (Z * Z)) :=
  match lines with
  | [] => Ok edges
  | line :: rest =>
      match Py.split (Py.strip line) with
      | p0 :: p1 :: _ =>
          match Py.int p0, Py.int p1 with
          | Some u, Some v => read_edges (edges ++ [(u, v)]) rest
          | _, _ => Raise ValueError
          end
      | _ => read_edges edges rest
      end
  end.

(** [read_graph(filename)] on the text of the file *)
Definition read_graph (content : string)
  : result (Z * list (Z * Z) * string) :=
  let lines := readlines content in
  let '(description, rest) := skip_comments EmptyString lines in
  match rest with
  | [] => Raise IndexError
  | header :: body =>
      match Py.split header with
      | [p0; p1] =>
          match Py.int p0, Py.int p1 with
          | Some n, Some m =>
              edges ← read_edges [] (take (Z.to_nat m) body);
              Ok (n, edges, Py.strip description)
          | _, _ => Raise ValueError
          end
      | _ => Raise ValueError
      end
  end.

(** The position that [l[i]] reads in a list of length [len]: a negative
    index counts from the end, [None] is [IndexError]. *)
Definition position (len : nat) (i : Z) : option nat :=
  if (0 <=? i) && (i <? Z.of_nat len) then Some (Z.to_nat i)
  else if (- Z.of_nat len <=? i) && (i <? 0) then Some (Z.to_nat (Z.of_nat len + i))
  else None.

(** [adj[i].append(x)] *)
Definition append_at (adj : list (list Z)) (i x : Z) : result (list (list Z)) :=
  match position (length adj) i with
  | Some k => Ok (alter (fun l => l ++ [x]) k adj)
  | None => Raise IndexError
  end.

(** the body of the loop of [build_adjacency_list] *)
Definition add_edge (adj : result (list (list Z))) (e : Z * Z)
  : result (list (list Z)) :=
  adj ← adj; adj ← append_at adj e.1 e.2; append_at adj e.2 e.1.

(** [build_adjacency_list(n, edges)] *)
Definition build_adjacency_list (n : Z) (edges : list (Z * Z))
  : result (list (list Z)) :=
  foldl add_edge (Ok (replicate (Z.to_nat n) [])) edges.

(** [build_edge_list(n, edges)] *)
Definition build_edge_list (n : Z) (edges : list (Z * Z)) : gset (Z * Z) :=
  foldl (fun edge_set e => edge_set ∪ {[ (Z.min e.1 e.2, Z.max e.1 e.2) ]})
        ∅ edges.

(** One turn of the loop [for u in adj[v]] of the nested function [dfs]:
    [call] is [dfs] itself. *)
Definition visit (call : Z -> list bool -> result (list bool))
    (acc : result (list bool)) (u : Z) : result (list bool) :=
  match acc with
  | Raise e => Raise e
  | Ok visited =>
      match position (length visited) u with
      | None => Raise IndexError
      | Some i =>
          if (visited !!! i : bool) then Ok visited else call u visited
      end
  end.

(** The nested function [dfs] of [get_graph_properties], which marks in
    [visited].  [limit] is the number of nested calls the interpreter
    still allows. *)
Fixpoint dfs (limit : nat) (adj : list (list Z)) (v : Z)
    (visited : list bool) : result (list bool) :=
  match limit with
  | O => Raise RecursionError
  | S limit' =>
      match position (length visited) v with
      | None => Raise IndexError
      | Some k =>
          let visited := <[k := true]> visited in
          match position (length adj) v with
          | None => Raise IndexError
          | Some j => foldl (visit (dfs limit' adj)) (Ok visited) (adj !!! j)
          end
      end
  end.

(** [max(l)] and [min(l)] of a list that is not empty *)
Definition list_max (l : list nat) : nat := foldr Nat.max O l.
Definition list_min (l : list nat) : nat :=
  match l with
  | [] => O
  | x :: l' => foldr Nat.min x l'
  end.

(** The dictionary of [get_graph_properties]; its two floats, [density]
    and [avg_degree], are left out. *)
Record Properties := {
  vertices : Z;
  edges : nat;
  max_degree : nat;
  min_degree : nat;
  is_connected : bool;
  num_components : Z
}.

(** [all(visited)] *)
Definition all (visited : list bool) : bool := forallb id visited.

(** [sum(1 for i in range(n) if not visited[i])] *)
Definition unvisited (visited : list bool) : nat :=
  length (filter (fun b => b = false) visited).

(** [get_graph_properties(n, edges)] *)
Definition get_graph_properties (limit : nat) (n : Z) (es : list (Z * Z))
  : result Properties :=
  adj ← build_adjacency_list n es;
  let degrees := length <$> adj in
  let max_degree := if 0 <? n then list_max degrees else O in
  let min_degree := if 0 <? n then list_min degrees else O in
  if 0 <? n then
    visited ← dfs limit adj 0 (replicate (Z.to_nat n) false);
    Ok {| vertices := n; edges := length es;
          max_degree := max_degree; min_degree := min_degree;
          is_connected := all visited;
          num_components :=
            if negb (all visited) then Z.of_nat (unvisited visited) + 1
            else 1 |}
  else
    Ok {| vertices := n; edges := length es;
          max_degree := max_degree; min_degree := min_degree;
          is_connected := true; num_components := 0 |}.

End GraphUtils.

(** ** The reader of [scripts/visualize_graph.py] *)

Module Visualize.
Import Corpus.

(** The while loop of [read_graph_from_file]: the lines after the first
    line that holds two integers, none when there is no such line. *)
Fixpoint skip_header (lines : list string) : list string :=
  match lines with
  | [] => []
  | line :: rest =>
      let line := Py.strip line in
      if negb (Py.is_empty line) && negb (Py.startswith line "#") then
        match Py.split line with
        | p0 :: p1 :: _ =>
            match Py.int p0, Py.int p1 with
            | Some _, Some _ => rest
            | _, _ => skip_header rest
            end
        | _ => skip_header rest
        end
      else skip_header rest
  end.

(** one turn of the for loop: the edge added to [G], if any *)
Definition edge_of_line (line : string) : option (Z * Z) :=
  let line := Py.strip line in
  if Py.is_empty line || Py.startswith line "#" then None
  else
    match Py.split line with
    | p0 :: p1 :: _ =>
        match Py.int p0, Py.int p1 with
        | Some u, Some v => Some (u, v)
        | _, _ => None
        end
    | _ => None
    end.

(** [read_graph_from_file(filepath)] on the text of the file: the calls
    [G.add_edge(u, v)] in the order they are made *)
Definition read_graph_from_file (content : string) : list (Z * Z) :=
  omap edge_of_line (skip_header (readlines content)).

End Visualize.

(** ** The dense-only parser of [scripts/create_performance_graphs.py] *)

Module PerfGraphs.
Import Memory.

(** one element of [data] *)
Record DenseRecord := {
  d_algorithm : string;
  d_test : string;
  d_memory_mb : Py.dyadic
}.

Global Instance DenseRecord_eq_dec : EqDecision DenseRecord.
Proof. solve_decision. Defined.

(** the body of the inner loop: the name is looked at first *)
Definition test_step (algo : string) (data : list DenseRecord)
    (blk : string * string) : outcome (list DenseRecord) :=
  let '(test_name, test_data) := blk in
  if negb (Py.startswith test_name "dense") then Returns data
  else
    match mem_search test_data with
    | Some d =>
        match Py.int d with
        | Some memory_kb =>
            match Py.div_1024 memory_kb with
            | Some memory_mb =>
                Returns (data ++ [ {| d_algorithm := algo; d_test := test_name;
                                      d_memory_mb := memory_mb |} ])
            | None => Raises OverflowError
            end
        | None => Raises ValueError
        end
    | None => Returns data
    end.

Definition algo_step (data : list DenseRecord) (sec : string * string)
  : outcome (list DenseRecord) :=
  let '(algo, section) := sec in
  for_each (test_step algo) data (test_blocks section).

Definition collect (content : string) : outcome (list DenseRecord) :=
  for_each algo_step [] (algo_sections content).

(** [parse_performance_metrics()]: what is printed and what is returned *)
Definition parse_performance_metrics (metrics_file : string)
    (content : option string)
  : outcome (list string * option (list DenseRecord)) :=
  match content with
  | None =>
      Returns
        (["Warning: " +:+ metrics_file +:+ " not found, skipping memory graphs"],
         None)
  | Some content =>
      match collect content with
      | Raises e => Raises e
      | Returns [] => Returns ([], None)
      | Returns data => Returns ([], Some data)
      end
  end.

End PerfGraphs.

(** ** The report helpers of [scripts/parse_cachegrind.py] *)

Module Report.

(** The digits of a number, last digit first, with a comma after every
    third; [k] is the number of digits since the last comma. *)
Fixpoint group_rev (k : nat) (s : string) : string :=
  match s with
  | EmptyString => EmptyString
  | String c s' =>
      match k with
      | 3%nat => String "," (String c (group_rev 1 s'))
      | _ => String c (group_rev (S k) s')
      end
  end.

(** [format_number(num)], which is [f"{num:,}"], for an [int] *)
Definition format_number (num : Z) : string :=
  (if num <? 0 then "-" else "")
  +:+ String.rev (group_rev 0 (String.rev (Py.str (Z.abs num)))).

End Report.

(** ** The summary of [run_p1_only.py] *)

Module P1Summary.
Import Driver.

Global Instance exit_code_eq_dec : EqDecision exit_code.
Proof. solve_decision. Defined.

(** the three counts of the summary line *)
Definition successful (results : list ExecutionRecord) : nat :=
  length (filter (fun r => exitcode r = Code 0) results).

Definition timeouts (results : list ExecutionRecord) : nat :=
  length (filter (fun r => exitcode r = Word "timeout") results).

Definition errors (results : list ExecutionRecord) : nat :=
  length (filter (fun r => exitcode r <> Code 0 /\ exitcode r <> Word "timeout")
                 results).

End P1Summary.

(** ** The random graphs of [generate_dataset.py] *)

Module Generator.

(** [edges.add((min(u, v), max(u, v)))] *)
Definition add_edge (edges : gset (Z * Z)) (u v : Z) : gset (Z * Z) :=
  edges ∪ {[ (Z.min u v, Z.max u v) ]}.

(** How far the loops of one test case have come when the random
    generator has given all the numbers it was asked for. *)
Inductive progress :=
| Done (edges : gset (Z * Z))
| Running (edges : gset (Z * Z)).

(** The loop [for v in range(1, n)] of [generate_sparse_graphs], which
    draws [u = random.randint(0, v - 1)].  [draws] holds the results of the
    calls of [random.randint], in the order of the calls.  The result is
    the set built and the draws left, or the set built so far when the
    draws run out. *)
Fixpoint spanning_tree (vs : list Z) (edges : gset (Z * Z)) (draws : list Z)
  : gset (Z * Z) * list Z + gset (Z * Z) :=
  match vs with
  | [] => inl (edges, draws)
  | v :: vs' =>
      match draws with
      | u :: draws' => spanning_tree vs' (add_edge edges u v) draws'
      | [] => inr edges
      end
  end.

(** The loop [while len(edges) < target_edges], which draws [u] and [v]. *)
Fixpoint more_edges (target_edges : Z) (edges : gset (Z * Z))
    (draws : list Z) {struct draws} : progress :=
  if Z.of_nat (size edges) <? target_edges then
    match draws with
    | u :: v :: draws' =>
        more_edges target_edges
          (if decide (u <> v) then add_edge edges u v else edges) draws'
    | _ => Running edges
    end
  else Done edges.

(** the body of the loop over the test cases of [generate_sparse_graphs],
    up to the call of [write_graph] *)
Definition sparse_edges (n target_edges : Z) (draws : list Z) : progress :=
  match spanning_tree (seqZ 1 (n - 1)) ∅ draws with
  | inl (edges, draws') => more_edges target_edges edges draws'
  | inr edges => Running edges
  end.

End Generator.

(** ** The dense generator of [generate_dataset.py] *)

Module DenseGenerator.
Import Generator.

(** The loop [while len(edges) < target_edges and attempts <
    target_edges * 10] of [generate_dense_graphs]; [target_edges] is the
    integer that [int(max_edges * density)] gave. *)
Fixpoint dense_loop (target_edges attempts : Z) (edges : gset (Z * Z))
    (draws : list Z) {struct draws} : progress :=
  if (Z.of_nat (size edges) <? target_edges)
     && (attempts <? target_edges * 10) then
    match draws with
    | u :: v :: draws' =>
        dense_loop target_edges (attempts + 1)
          (if decide (u <> v) then add_edge edges u v else edges) draws'
    | _ => Running edges
    end
  else Done edges.

(** the body of the loop over the test cases, up to [write_graph] *)
Definition dense_edges (target_edges : Z) (draws : list Z) : progress :=
  dense_loop target_edges 0 ∅ draws.

End DenseGenerator.

(** * Notions used to state the properties *)

Module PySpec.
Import Py.

(** the value of a run of decimal digits read after [acc] *)
Definition decimal (acc : Z) (s : string) : Z :=
  foldl (fun a c => a * 10 + digit_value c) acc (list_ascii_of_string s).

End PySpec.

Module MemorySpec.
Import Py PySpec Memory.

(** the record of a test block: the algorithm of its section, its name,
    its category, the value of the digits and that value in megabytes *)
Definition record_of (algo name d cat : string) : MemoryRecord :=
  {| algorithm := algo; test := name; category := cat;
     memory_kb := decimal 0 d;
     memory_mb := {| num := round_53 (decimal 0 d); shift := 10 |} |}.

(** what one test block contributes: one record when the memory pattern
    is found in it and its name has a category *)
Definition block_records (algo : string) (blk : string * string)
  : list MemoryRecord :=
  match mem_search blk.2, category_of blk.1 with
  | Some d, Some cat => [record_of algo blk.1 d cat]
  | _, _ => []
  end.

(** the memory figure found in a block is too large for a float *)
Definition overflows (text : string) : bool :=
  match mem_search text with
  | Some d => float_overflow <=? decimal 0 d
  | None => false
  end.




Definition mem_prefix : string := "Maximum resident set size (kbytes): ".

(** the text of a test block: the rest of the [Test:] line and the memory
    line, with the digits [d] *)
Definition block (d : string) : string := nl +:+ mem_prefix +:+ d +:+ nl.









(** the sample report with a peak memory of 310 digits *)
Definition huge : string := str (10 ^ 309).


(** a test name with a letter beyond ASCII, [dense_], U+00E9, [1] *)
Definition accented_name : string := "dense_" +:+ String "233" "1".


(** the rules of the claim *)
Definition known_prefixes : list string :=
  ["dense"; "sparse"; "small"; "large"; "tree"; "highly"]%string.

Definition real_world_keywords : list string :=
  ["road"; "com"; "wiki"; "soc"; "web"]%string.

Definition has_known_prefix (name : string) : bool :=
  existsb (startswith name) known_prefixes.

Definition has_keyword (name : string) : bool :=
  existsb (fun k => contains k name) real_world_keywords.

(** an ordered list of (predicate, category) rules, the first that holds
    decides *)
Definition rules : list ((string -> bool) * string) :=
  [((fun name => startswith name "dense"), "dense"%string);
   ((fun name => startswith name "sparse"), "sparse"%string);
   ((fun name => startswith name "small"), "small"%string);
   ((fun name => startswith name "large"), "large"%string);
   ((fun name => startswith name "tree"), "tree_like"%string);
   ((fun name => startswith name "highly"), "highly_connected"%string);
   (has_keyword, "real_world"%string)].

Fixpoint first_match (rs : list ((string -> bool) * string)) (name : string)
  : option string :=
  match rs with
  | [] => None
  | (p, c) :: rs' => if p name then Some c else first_match rs' name
  end.

End MemorySpec.

Module CachegrindSpec.
Import Py PySpec Cachegrind.

(** A token that the loop reads as a number: once its commas are removed
    it passes [str.isdigit], and the token after it starts with an opening
    parenthesis and ends with a percent sign and a closing parenthesis. *)
Definition counts (t : string) (rest : list string) : bool :=
  isdigit (remove_char "," t)
  && match rest with next :: _ => is_percentage next | [] => false end.

(** the numbers of a line, token by token *)
Fixpoint qualifying (tokens : list string) : list Z :=
  match tokens with
  | [] => []
  | t :: rest =>
      (if counts t rest then [decimal 0 (remove_char "," t)] else [])
      ++ qualifying rest
  end.

(** A token counts that [int] refuses: [str.isdigit] accepts the
    superscript digits, [int] reads decimal digits only. *)
Fixpoint refused (tokens : list string) : bool :=
  match tokens with
  | [] => false
  | t :: rest =>
      (counts t rest && negb (isdecimal (remove_char "," t)))
      || refused rest
  end.

Definition marker : string := "PROGRAM TOTALS".


(** a marker line on which [int] raises *)
Definition gives_up (line : string) : bool :=
  contains marker line && refused (split line).



(** the eleven fields in the order of the report *)
Definition fields (m : Metrics) : list Z :=
  [Ir m; I1mr m; ILmr m; Dr m; D1mr m; DLmr m; Dw m; D1mw m; DLmw m;
   Bc m; Bcm m].

(** the percentage token of the claim: an opening parenthesis, digits, a
    dot, digits, a percent sign and a closing parenthesis *)
Definition is_strict_percentage (t : string) : bool :=
  match t with
  | String c r =>
      Ascii.eqb c "("
      && negb (is_empty (take_while isdecimal_char r))
      && match drop_while isdecimal_char r with
         | String c' r2 =>
             Ascii.eqb c' "."
             && negb (is_empty (take_while isdecimal_char r2))
             && String.eqb (drop_while isdecimal_char r2) "%)"
         | EmptyString => false
         end
  | EmptyString => false
  end.


(** a marker line with eleven numbers, before the last of which stands a
    superscript two (U+00B2) that is followed by a percentage *)
Definition superscript_line : string :=
  "1 (0.0%) 2 (0.0%) 3 (0.0%) 4 (0.0%) 5 (0.0%) 6 (0.0%) 7 (0.0%) 8 (0.0%) 9 (0.0%) 10 (0.0%) "
  +:+ String "178" " (0.0%) 11 (0.0%) PROGRAM TOTALS".


End CachegrindSpec.

Module CorpusSpec.
Import Py PySpec Corpus.

(** the files one entry contributes, in order *)
Definition dir_files (d : dirent) : list (string * Path) :=
  if d_is_dir d
  then (fun f => (d_name d, {| parent := d_name d; name := f |}))
         <$> merge_sort String.le (glob_txt (d_children d))
  else [].

(** the strict order of names *)
Definition name_lt : relation string := strict String.le.

(** category first, file name second *)
Definition pair_lt (a b : string * Path) : Prop :=
  name_lt a.1 b.1 \/ (a.1 = b.1 /\ name_lt (name a.2) (name b.2)).

(** The names in a directory are distinct. *)
Definition well_formed (listing : list dirent) : Prop :=
  NoDup (d_name <$> listing)
  /\ Forall (fun d => NoDup (d_children d)) listing.

(** [f] is an entry of the directory [c] of the data set *)
Definition file_in (listing : list dirent) (c f : string) : Prop :=
  exists d, d ∈ listing /\ d_is_dir d = true /\ d_name d = c /\ f ∈ d_children d.

Definition sample_listing : list dirent :=
  [ {| d_name := "small"; d_is_dir := true;
       d_children := ["small_02.txt"; "notes.md"; "small_01.txt"]%string |};
    {| d_name := "README"; d_is_dir := false; d_children := [] |};
    {| d_name := "dense"; d_is_dir := true;
       d_children := ["dense_01.txt"]%string |} ].

End CorpusSpec.

Module DriverSpec.
Import Py PySpec Corpus CorpusSpec Driver.

(** the record that one algorithm on one file adds *)
Definition outcome_record (w : world) (exe : string) (cf : string * Path)
  : ExecutionRecord :=
  let '(n, m) := graph_counts (read w cf.2) in
  let outfile := outfile_of w exe cf.1 cf.2 in
  {| algorithm := exe; category := cf.1; file := rel_of cf.2; n := n; m := m;
     time := match spawn w exe cf.2 with
             | Exited _ _ runtime => Some runtime
             | _ => None
             end;
     exitcode := match spawn w exe cf.2 with
                 | Exited _ rc _ => Code rc
                 | TimeoutExpired _ => Word "timeout"
                 | Raised _ => Word "error"
                 end;
     output := outfile |}.

(** the text of the output artifact *)
Definition artifact (r : proc_result) : string :=
  match r with
  | Exited out _ _ => out
  | TimeoutExpired _ => "TIMEOUT" +:+ nl
  | Raised msg => "ERROR: " +:+ msg +:+ nl
  end.

Definition three_edges : string :=
  "3 2" +:+ nl +:+ "0 1" +:+ nl +:+ "1 2" +:+ nl.

(** a small world: every build succeeds, every graph file holds the same
    three lines, every child process has the outcome [r] *)
Definition sample_world (r : proc_result) : world :=
  {| OUTPUT_DIR := "/bench/outputs";
     exe_ready := fun _ => true;
     src_exists := fun _ => true;
     gxx := fun _ => 0;
     listing := sample_listing;
     read := fun _ => Some three_edges;
     spawn := fun _ _ => r;
     disk := ∅ |}.

Definition not_slash (c : ascii) : bool := negb (Ascii.eqb c "/").

(** No entry of the data set directory has a slash in its name. *)
Definition slash_free (listing : list dirent) : Prop :=
  Forall (fun d => all_chars not_slash (d_name d) = true) listing.

(** the key of a record *)
Definition key (r : ExecutionRecord) : string * string :=
  (algorithm r, file r).

(** the files written by the turns of the loops, the table apart *)
Definition writes (w : world) (exes : list string) (files : list (string * Path))
  : list (string * file_data) :=
  flat_map (fun exe =>
              (fun cf => (outfile_of w exe cf.1 cf.2,
                          Text (artifact (spawn w exe cf.2)))) <$> files)
           exes.

Definition put (m : gmap string file_data) (kv : string * file_data)
  : gmap string file_data :=
  <[kv.1 := kv.2]> m.

End DriverSpec.

Module LedgerSpec.
Import Py PySpec Corpus CorpusSpec Driver DriverSpec.

(** the header row of the table as the claim gives it *)
Definition header_row : string :=
  "algorithm,category,file,n,m,time,exitcode,output" +:+ crlf.

(** the eight cells of the row of a record, in the order of the header; a
    value that is [None] leaves its cell empty *)
Definition cells (r : ExecutionRecord) : list string :=
  [ algorithm r; category r; file r;
    match n r with Some z => str z | None => EmptyString end;
    match m r with Some z => str z | None => EmptyString end;
    match time r with Some x => float_str x | None => EmptyString end;
    match exitcode r with Code rc => str rc | Word s => s end;
    output r ].





Definition q : string := String dquote EmptyString.


End LedgerSpec.

Module P1OnlySpec.
Import Py PySpec Corpus CorpusSpec Driver DriverSpec P1Only.

(** a data set of one graph file, which is empty; the child exits at once *)
Definition headerless_world : world :=
  {| OUTPUT_DIR := "/bench/outputs";
     exe_ready := fun _ => true;
     src_exists := fun _ => true;
     gxx := fun _ => 0;
     listing := [ {| d_name := "small"; d_is_dir := true;
                     d_children := ["small_01.txt"]%string |} ];
     read := fun _ => Some EmptyString;
     spawn := fun _ _ => Exited "0 components" 0 (PyFloat "0.002");
     disk := ∅ |}.

End P1OnlySpec.

Module HeaderSpec.
Import Py PySpec Corpus CorpusSpec Driver DriverSpec P1Only.

(** the two integers at the head of the first line of a file, if any *)
Definition first_line_header (content : string) : option (Z * Z) :=
  match split (strip (hd EmptyString (readlines content))) with
  | p0 :: p1 :: _ =>
      match Py.int p0, Py.int p1 with
      | Some n, Some m => Some (n, m)
      | _, _ => None
      end
  | _ => None
  end.

(** a line the header loop of [run_p1_only.py] passes over: blank, a
    comment, or with fewer than two tokens *)
Definition skipped (line : string) : bool :=
  is_empty (strip line) || startswith (strip line) "#"
  || (length (split (strip line)) <? 2)%nat.

(** what that loop makes of a line it does not pass over *)
Definition header_of_line (line : string) : header :=
  match split (strip line) with
  | p0 :: p1 :: _ =>
      match Py.int p0, Py.int p1 with
      | Some n, Some m => Found n m
      | _, _ => BadInt
      end
  | _ => Missing
  end.

(** a comment line, as the readers tell it *)
Definition comment (line : string) : bool := startswith (strip line) "#".

(** a file as [write_graph] lays it out: a comment, the header, the edges *)
Definition commented_path : string := "# path" +:+ nl +:+ three_edges.

(** a file whose first line is no header *)
Definition malformed_header : string := "a b" +:+ nl +:+ "0 1" +:+ nl.

End HeaderSpec.

Module TextSpec.
Import Py.

(** the characters of a decimal numeral *)
Definition numeral_char (c : ascii) : bool :=
  isdecimal_char c || (code c =? 45)%nat.

Definition not_space (c : ascii) : bool := negb (isspace_char c).

(** a text without a line end *)
Definition no_nl (s : string) : bool :=
  all_chars (fun c => negb (Ascii.eqb c "010")) s.

End TextSpec.

Module DatasetSpec.
Import Py.

(** a text without line breaks: no LF and no CR *)
Definition single_line (s : string) : bool :=
  all_chars (fun c => negb (Ascii.eqb c "010") && negb (Ascii.eqb c "013")) s.

Definition no_cr (s : string) : bool :=
  all_chars (fun c => negb (Ascii.eqb c "013")) s.

Definition no_comma (s : string) : bool :=
  all_chars (fun c => negb (Ascii.eqb c ",")) s.

(** the line [x y] with its line end *)
Definition pair_line (x y : Z) : string :=
  str x +:+ " " +:+ str y +:+ nl.

(** the comment line of a description *)
Definition comment_line (description : string) : string :=
  "# " +:+ description +:+ nl.

End DatasetSpec.

Module GraphSpec.

(** both endpoints are vertices [0 .. n-1] *)
Definition in_range (n : Z) (e : Z * Z) : Prop :=
  (0 <= e.1 < n) /\ (0 <= e.2 < n).

(** both endpoints are indices that a list of length [n] accepts *)
Definition indexable (n : Z) (e : Z * Z) : Prop :=
  (- n <= e.1 < n) /\ (- n <= e.2 < n).

(** what the edge [e] appends to the adjacency list of [u] *)
Definition ends_at (u : Z) (e : Z * Z) : list Z :=
  (if decide (e.1 = u) then [e.2] else [])
  ++ (if decide (e.2 = u) then [e.1] else []).

(** the other ends of the edges at [u], in the order of the edge list *)
Definition neighbours (u : Z) (es : list (Z * Z)) : list Z :=
  flat_map (ends_at u) es.

Definition adjacent (es : list (Z * Z)) (u v : Z) : Prop :=
  (u, v) ∈ es \/ (v, u) ∈ es.

(** joined by a path *)
Definition reachable (es : list (Z * Z)) : relation Z := rtc (adjacent es).

End GraphSpec.

Module DfsSpec.

(** [b] is in the adjacency list of [a] *)
Definition step (adj : list (list Z)) (a b : nat) : Prop :=
  exists l, adj !! a = Some l /\ Z.of_nat b ∈ l.

(** every entry of the adjacency lists is a vertex *)
Definition adj_ok (adj : list (list Z)) : Prop :=
  forall k l u, adj !! k = Some l -> u ∈ l -> 0 <= u < Z.of_nat (length adj).

Definition le_bool (a b : bool) : Prop := a = true -> b = true.

(** what is marked stays marked *)
Definition mono : list bool -> list bool -> Prop := Forall2 le_bool.

(** all neighbours of [k] are marked *)
Definition closed_at (adj : list (list Z)) (vis : list bool) (k : nat) : Prop :=
  forall j, step adj k j -> vis !! j = Some true.

(** what a call [dfs(v)] that starts with the marks [vis] leaves *)
Definition post (adj : list (list Z)) (v : nat) (vis vis' : list bool) : Prop :=
  mono vis vis'
  /\ vis' !! v = Some true
  /\ (forall k, vis' !! k = Some true ->
        vis !! k = Some true \/ rtc (step adj) v k)
  /\ (forall k, vis' !! k = Some true -> vis !! k = Some false ->
        closed_at adj vis' k).

(** the positions of the unmarked vertices, from [off] on *)
Fixpoint falses (off : nat) (vis : list bool) : list nat :=
  match vis with
  | [] => []
  | b :: vis' => (if b then [] else [off]) ++ falses (S off) vis'
  end.

End DfsSpec.

Module GeneratorSpec.
Import Generator.

Definition edges_of (p : progress) : gset (Z * Z) :=
  match p with Done e => e | Running e => e end.

(** two vertices joined by an edge of the set *)
Definition joined (edges : gset (Z * Z)) (u v : Z) : Prop :=
  (u, v) ∈ edges \/ (v, u) ∈ edges.

Definition connected_from_0 (n : Z) (edges : gset (Z * Z)) : Prop :=
  forall v, 0 <= v < n -> rtc (joined edges) 0 v.

(** a simple graph on the vertices [0 .. n-1], each edge written with its
    smaller end first *)
Definition simple (n : Z) (edges : gset (Z * Z)) : Prop :=
  forall a b, (a, b) ∈ edges -> 0 <= a < b /\ b < n.

(** what [random.randint(0, v - 1)] may return in the turns of the first
    loop *)
Definition tree_draws_ok (n : Z) (draws : list Z) : Prop :=
  Forall2 (fun v u => 0 <= u <= v - 1) (seqZ 1 (n - 1)) draws.

(** what [random.randint(0, n - 1)] may return *)
Definition vertex_draws_ok (n : Z) (draws : list Z) : Prop :=
  Forall (fun u => 0 <= u <= n - 1) draws.

End GeneratorSpec.

Module PerfGraphsSpec.
Import Memory PerfGraphs.


Definition is_dense (r : MemoryRecord) : Prop := category r = "dense"%string.

Global Instance is_dense_dec r : Decision (is_dense r).
Proof. unfold is_dense. apply _. Defined.


End PerfGraphsSpec.

Module PathSpec.

(** the path [0 - 1 - ... - (n-1)] as the generators write it:
    [[(i, i+1) for i in range(n-1)]] *)
Definition path (n : Z) : list (Z * Z) :=
  (fun i => (i, i + 1)) <$> seqZ 0 (n - 1).

(** the marks when the vertices below [v] are visited *)
Definition visited_below (n v : nat) : list bool :=
  replicate v true ++ replicate (n - v) false.

End PathSpec.

Module ReadGraphSpec.

(** a line that [read_graph] takes for a comment *)
Definition comment (line : string) : Prop :=
  Py.startswith (Py.strip line) "#" = true.

End ReadGraphSpec.

(** * Properties *)

(** ** Strings *)

Module PyFacts.
Import Py PySpec.

Ltac bools :=
  repeat match goal with
  | H : _ && _ = true |- _ => apply andb_true_iff in H as [? ?]
  | H : _ || _ = false |- _ => apply orb_false_iff in H as [? ?]
  | H : (_ <=? _)%nat = true |- _ => apply Nat.leb_le in H
  | H : (_ <=? _)%nat = false |- _ => apply Nat.leb_gt in H
  | H : (_ =? _)%nat = true |- _ => apply Nat.eqb_eq in H
  | H : (_ =? _)%nat = false |- _ => apply Nat.eqb_neq in H
  end.

(** facts about the classes of characters, by their code points *)
Ltac classes :=
  unfold isspace_char, isspace_int, isdigit_char, isdecimal_char,
    isalnum_char, isword_char, isalpha_char, between in *;
  repeat first
    [ rewrite andb_true_iff in * | rewrite orb_true_iff in *
    | rewrite andb_false_iff in * | rewrite orb_false_iff in *
    | rewrite negb_true_iff in * | rewrite negb_false_iff in *
    | rewrite Nat.leb_le in * | rewrite Nat.leb_gt in *
    | rewrite Nat.eqb_eq in * | rewrite Nat.eqb_neq in * ];
  lia.

Lemma app_cons c (s t : string) : String c s +:+ t = String c (s +:+ t).
Proof. reflexivity. Qed.

Lemma app_nil_l (t : string) : "" +:+ t = t.
Proof. reflexivity. Qed.

Lemma append_nil_r (s : string) : s +:+ "" = s.
Proof. induction s as [|c s IH]; [done|]. by rewrite app_cons, IH. Qed.

Lemma append_assoc (s t u : string) : (s +:+ t) +:+ u = s +:+ (t +:+ u).
Proof. induction s as [|c s IH]; [done|]. by rewrite !app_cons, IH. Qed.

Lemma rev_app_spec (s t u : string) :
  String.rev_app (String.rev_app s t) u = String.rev_app t (s +:+ u).
Proof.
  revert t u. induction s as [|c s IH]; intros t u; simpl; [done|].
  by rewrite IH, app_cons.
Qed.

Lemma rev_involutive (s : string) : String.rev (String.rev s) = s.
Proof. unfold String.rev. rewrite rev_app_spec. simpl. apply append_nil_r. Qed.

Lemma all_chars_rev_app p (s t : string) :
  all_chars p (String.rev_app s t) = all_chars p s && all_chars p t.
Proof.
  revert t. induction s as [|c s IH]; intros t; simpl; [done|].
  rewrite IH. simpl. by destruct (p c), (all_chars p s).
Qed.

Lemma all_chars_rev p (s : string) : all_chars p (String.rev s) = all_chars p s.
Proof. unfold String.rev. rewrite all_chars_rev_app. simpl. apply andb_true_r. Qed.

Lemma drop_while_none p q (s : string) :
  (forall c, q c = true -> p c = false) ->
  all_chars q s = true -> drop_while p s = s.
Proof.
  intros Hpq. destruct s as [|c s]; simpl; [done|].
  intros [Hc _]%andb_true_iff. by rewrite (Hpq _ Hc).
Qed.

Lemma digit_not_space c : isdecimal_char c = true -> isspace_char c = false.
Proof. intros H. classes. Qed.

Lemma digit_not_space_int c :
  isdecimal_char c = true -> isspace_int c = false.
Proof. intros H. classes. Qed.

Lemma decimal_is_digit c : isdecimal_char c = true -> isdigit_char c = true.
Proof. intros H. classes. Qed.

Lemma strip_digits (s : string) :
  all_chars isdecimal_char s = true -> strip s = s.
Proof.
  intros H. unfold strip, rstrip, lstrip.
  rewrite (drop_while_none _ _ s digit_not_space H).
  rewrite (drop_while_none _ isdecimal_char _ digit_not_space).
  - apply rev_involutive.
  - by rewrite all_chars_rev.
Qed.

Lemma digit_value_range c : isdecimal_char c = true -> 0 <= digit_value c <= 9.
Proof. unfold digit_value. intros H. classes. Qed.

Lemma decimal_nonneg (s : string) acc :
  all_chars isdecimal_char s = true -> 0 <= acc -> 0 <= decimal acc s.
Proof.
  unfold decimal. revert acc. induction s as [|c s IH]; intros acc; simpl; [done|].
  intros [Hc Hs]%andb_true_iff Hacc. apply IH; [done|].
  pose proof (digit_value_range c Hc). lia.
Qed.

Lemma int_digits_all (s : string) acc prev :
  all_chars isdecimal_char s = true ->
  (s <> "" \/ prev = true) ->
  int_digits acc prev s = Some (decimal acc s).
Proof.
  revert acc prev. induction s as [|c s IH]; intros acc prev; simpl.
  - intros _ [?| ->]; done.
  - intros [Hc Hs]%andb_true_iff _. rewrite Hc. apply IH; auto.
Qed.

Lemma strip_int_digits (s : string) :
  all_chars isdecimal_char s = true -> strip_int s = s.
Proof.
  intros H. unfold strip_int.
  rewrite (drop_while_none _ _ s digit_not_space_int H).
  rewrite (drop_while_none _ isdecimal_char _ digit_not_space_int).
  - apply rev_involutive.
  - by rewrite all_chars_rev.
Qed.

Lemma int_of_digits (s : string) :
  isdecimal s = true -> int s = Some (decimal 0 s) /\ 0 <= decimal 0 s.
Proof.
  unfold isdecimal. intros [Hne Hall]%andb_true_iff. split.
  - unfold int. rewrite (strip_int_digits s Hall).
    destruct s as [|c r]; [done|].
    pose proof Hall as [Hc _]%andb_true_iff.
    assert ((code c =? 45)%nat = false /\ (code c =? 43)%nat = false) as [-> ->].
    { split; classes. }
    apply int_digits_all; auto.
  - by apply decimal_nonneg.
Qed.

Lemma rev_app_app (a b c : string) :
  String.rev_app (a +:+ b) c = String.rev_app b (String.rev_app a c).
Proof.
  revert c. induction a as [|x a IH]; intros c; [done|].
  rewrite app_cons. simpl. apply IH.
Qed.

Lemma rev_app_acc (s t : string) :
  String.rev_app s t = String.rev s +:+ t.
Proof.
  unfold String.rev. revert t. induction s as [|x s IH]; intros t; [done|].
  simpl. rewrite (IH (String x "")), IH, append_assoc. done.
Qed.

Lemma startswith_app (p x : string) : startswith (p +:+ x) p = true.
Proof.
  induction p as [|c p IH]; [done|].
  rewrite app_cons. simpl. by rewrite Ascii.eqb_refl.
Qed.


Lemma endswith_app (s suf : string) : endswith (s +:+ suf) suf = true.
Proof.
  unfold endswith. unfold String.rev at 1.
  rewrite rev_app_app, rev_app_acc. apply startswith_app.
Qed.

Lemma take_drop_while p (s : string) :
  take_while p s +:+ drop_while p s = s.
Proof.
  induction s as [|c s IH]; simpl; [done|].
  destruct (p c); [|done]. by rewrite app_cons, IH.
Qed.


Lemma all_chars_app p (u v : string) :
  all_chars p (u +:+ v) = all_chars p u && all_chars p v.
Proof.
  induction u as [|c u IH]; [done|]. rewrite app_cons. simpl.
  rewrite IH. by destruct (p c).
Qed.

Lemma all_chars_impl (p q : ascii -> bool) (u : string) :
  (forall c, p c = true -> q c = true) ->
  all_chars p u = true -> all_chars q u = true.
Proof.
  intros Hpq. induction u as [|c u IH]; [done|]. simpl.
  intros [Hc Hu]%andb_true_iff. by rewrite (Hpq c Hc), IH.
Qed.

Lemma isdecimal_isdigit (s : string) : isdecimal s = true -> isdigit s = true.
Proof.
  unfold isdecimal, isdigit. intros [-> H]%andb_true_iff.
  by rewrite (all_chars_impl _ _ s decimal_is_digit H).
Qed.

End PyFacts.

(** ** The resource-usage parser *)

Module MemoryFacts.
Import Py PySpec PyFacts Memory MemorySpec.

Lemma float_of_int_nonneg (z : Z) :
  0 <= z ->
  float_of_int z = if float_overflow <=? z then None else Some (round_53 z).
Proof.
  intros Hz. unfold float_of_int. rewrite Z.abs_eq by done.
  destruct (float_overflow <=? z); [done|]. f_equal.
  destruct z as [|p|p]; [done| |lia].
  change (Z.sgn (Z.pos p)) with 1. apply Z.mul_1_l.
Qed.

Lemma take_while_all p (s : string) : all_chars p (take_while p s) = true.
Proof.
  induction s as [|c s IH]; simpl; [done|].
  destruct (p c) eqn:E; simpl; [|done]. by rewrite E.
Qed.

(** The group of a match of the memory pattern is a run of digits. *)
Lemma mem_here_digits (text d : string) :
  mem_here text = Some d -> isdecimal d = true.
Proof.
  unfold mem_here. destruct (startswith text _); [|done].
  set (w := take_while _ _). destruct (is_empty w) eqn:E; [done|].
  intros [= <-]. unfold isdecimal. rewrite E. apply take_while_all.
Qed.

(** The group of a match of the memory pattern is a run of digits. *)
Lemma mem_search_digits (text d : string) :
  mem_search text = Some d -> isdecimal d = true.
Proof.
  induction text as [|c text IH]; simpl.
  - done.
  - destruct (mem_here (String c text)) eqn:E; [|exact IH].
    intros [= <-]. by apply mem_here_digits in E.
Qed.

(** the body of the inner loop: it raises when the figure of the block is
    too large, and appends the record of the block otherwise *)
Lemma test_step_spec algo data (blk : string * string) :
  test_step algo data blk
  = if overflows blk.2 then Raises OverflowError
    else Returns (data ++ block_records algo blk).
Proof.
  destruct blk as [name text]. unfold test_step, overflows, block_records.
  cbn [fst snd]. destruct (mem_search text) as [d|] eqn:Hm;
    [|by rewrite app_nil_r].
  destruct (int_of_digits d (mem_search_digits _ _ Hm)) as [-> Hpos].
  unfold div_1024. rewrite (float_of_int_nonneg _ Hpos).
  destruct (float_overflow <=? decimal 0 d); [done|].
  cbn [mbind option_bind].
  destruct (category_of name); [done|by rewrite app_nil_r].
Qed.





Lemma no_category_no_record algo data name text :
  category_of name = None ->
  test_step algo data (name, text)
  = if overflows text then Raises OverflowError else Returns data.
Proof.
  intros H. rewrite test_step_spec. unfold block_records. cbn [fst snd].
  rewrite H. destruct (mem_search text); by rewrite app_nil_r.
Qed.

(** *** [re.split] on a text made of known pieces *)










(** *** The three patterns on word characters and line ends *)




























(** the class [\w] holds the letters beyond ASCII: a test name with one is
    read whole *)
Example accented_test_name :
  test_blocks ("Test: " +:+ accented_name +:+ block "2048")
  = [(accented_name, block "2048")].
Proof. by vm_compute. Qed.

(** C9, as the code has it: without the report file the parser prints one
    line and returns [None]; it never returns an empty sequence. *)
Theorem missing_report_returns_none (metrics_file : string) :
  parse_performance_metrics metrics_file None =
    Returns ([Line ("Error: " +:+ metrics_file +:+ " not found!")], None)
  /\ forall content lines,
       parse_performance_metrics metrics_file content
       <> Returns (lines, Some []).
Proof.
  split; [done|]. intros [content|] lines; simpl; [|done].
  destruct (collect content) as [[|r data]|e]; done.
Qed.

(** C9 as stated fails: the result for a missing file is not an empty
    sequence of records. *)
Lemma missing_report_is_not_an_empty_sequence :
  ~ exists diagnostic,
      parse_performance_metrics "performance_metrics.txt" None =
        Returns (diagnostic, Some []).
Proof. intros [diagnostic H]. discriminate H. Qed.

Lemma keyword_chain (name : string) :
  contains "road" name || contains "com" name || contains "wiki" name
  || contains "soc" name || contains "web" name = has_keyword name.
Proof.
  unfold has_keyword. cbn -[contains].
  by destruct (contains "road" name), (contains "com" name),
    (contains "wiki" name), (contains "soc" name), (contains "web" name).
Qed.

(** C10: the category of a name is given by the first rule that holds, the
    six prefixes before the keywords; a name with a known prefix is never
    real_world, a name is real_world exactly when it has no known prefix
    and holds a keyword, and a name that no rule accepts adds no record:
    the loop body returns the list as it was, or raises when the figure of
    the block is too large for a float. *)
Theorem category_rules_in_priority_order (name : string) :
  category_of name = first_match rules name
  /\ (has_known_prefix name = true ->
      exists c, category_of name = Some c /\ c <> "real_world"%string)
  /\ (category_of name = Some "real_world"%string <->
      has_known_prefix name = false /\ has_keyword name = true)
  /\ (has_known_prefix name = false -> has_keyword name = false ->
      category_of name = None
      /\ forall algo data text,
           test_step algo data (name, text)
           = if overflows text then Raises OverflowError else Returns data).
Proof.
  assert (category_of name = first_match rules name) as Hfirst.
  { unfold category_of. rewrite keyword_chain. reflexivity. }
  split; [exact Hfirst|].
  assert (has_known_prefix name = false -> has_keyword name = false ->
          category_of name = None) as Hnone.
  { rewrite Hfirst. unfold has_known_prefix. cbn -[startswith has_keyword].
    intros Hp Hk. rewrite Hk.
    repeat (apply orb_false_iff in Hp as [-> Hp]). done. }
  split; [|split].
  - rewrite Hfirst. unfold has_known_prefix. cbn -[startswith has_keyword].
    destruct (startswith name "dense"); [by eexists|].
    destruct (startswith name "sparse"); [by eexists|].
    destruct (startswith name "small"); [by eexists|].
    destruct (startswith name "large"); [by eexists|].
    destruct (startswith name "tree"); [by eexists|].
    destruct (startswith name "highly"); [by eexists|].
    done.
  - rewrite Hfirst. unfold has_known_prefix. cbn -[startswith has_keyword].
    destruct (startswith name "dense"); [split; [intros [=] | intros [[=] _]]|].
    destruct (startswith name "sparse"); [split; [intros [=] | intros [[=] _]]|].
    destruct (startswith name "small"); [split; [intros [=] | intros [[=] _]]|].
    destruct (startswith name "large"); [split; [intros [=] | intros [[=] _]]|].
    destruct (startswith name "tree"); [split; [intros [=] | intros [[=] _]]|].
    destruct (startswith name "highly"); [split; [intros [=] | intros [[=] _]]|].
    destruct (has_keyword name); [done|split; [intros [=] | intros [_ [=]]]].
  - intros Hp Hk. split; [by apply Hnone|].
    intros algo data text. apply no_category_no_record. by apply Hnone.
Qed.

Lemma category_rules_in_priority_order_witness :
  (exists c, category_of "dense_road_01" = Some c /\ c <> "real_world"%string)
  /\ category_of "roadNet_CA" = Some "real_world"%string
  /\ category_of "grid_7" = None.
Proof.
  split; [|split].
  - apply (category_rules_in_priority_order "dense_road_01"). by vm_compute.
  - apply (category_rules_in_priority_order "roadNet_CA"). by vm_compute.
  - apply (category_rules_in_priority_order "grid_7"); by vm_compute.
Defined.


End MemoryFacts.

(** ** The profiler report parser *)

Module CachegrindFacts.
Import Py PySpec PyFacts Cachegrind CachegrindSpec.

















(** Every token of the claim's form passes the test of the code. *)
Lemma strict_percentage_is_percentage (t : string) :
  is_strict_percentage t = true -> is_percentage t = true.
Proof.
  destruct t as [|c r]; simpl; [done|].
  intros [[Hc _]%andb_true_iff Hr]%andb_true_iff.
  apply Ascii.eqb_eq in Hc as ->.
  unfold is_percentage. apply andb_true_iff. split; [done|].
  destruct (drop_while isdecimal_char r) as [|c' r2] eqn:Hdrop; [done|].
  apply andb_true_iff in Hr as [_ Hend]. apply String.eqb_eq in Hend.
  rewrite <- (take_drop_while isdecimal_char r), Hdrop.
  rewrite <- (take_drop_while isdecimal_char r2), Hend.
  set (d1 := take_while isdecimal_char r). set (d2 := take_while isdecimal_char r2).
  assert (String "(" (d1 +:+ String c' (d2 +:+ "%)"))
          = String "(" (d1 +:+ String c' d2) +:+ "%)") as ->.
  { by rewrite app_cons, append_assoc, app_cons. }
  apply endswith_app.
Qed.


(** a superscript digit before a percentage: [str.isdigit] accepts it,
    [int] raises, and both parsers end in their exception handler although
    eleven integers of the line are followed by percentages *)
Example superscript_digit_gives_none :
  gives_up superscript_line = true
  /\ length (qualifying (split superscript_line)) = 12%nat
  /\ refused (split superscript_line) = true
  /\ parse_cachegrind_output (Some superscript_line) = None
  /\ scan_lines_for_test "p1" [superscript_line] = None.
Proof. by vm_compute. Qed.

(** a line in the format of the annotation tool *)
Example totals_line :
  parse_cachegrind_output
    (Some "1,234,567 (100.0%) 2,345 (100.0%) 2,001 (100.0%) 456,789 (100.0%) 12,345 (100.0%) 9,876 (100.0%) 234,567 (100.0%) 3,456 (100.0%) 2,345 (100.0%) 198,765 (100.0%) 8,765 (100.0%)  PROGRAM TOTALS")
  = Some {| Ir := 1234567; I1mr := 2345; ILmr := 2001; Dr := 456789;
            D1mr := 12345; DLmr := 9876; Dw := 234567; D1mw := 3456;
            DLmw := 2345; Bc := 198765; Bcm := 8765 |}.
Proof. by vm_compute. Qed.


End CachegrindFacts.

(** ** Corpus discovery *)

Module CorpusFacts.
Import Py PySpec PyFacts Corpus CorpusSpec.

Lemma add_files_spec category names files :
  add_files category files names
  = files ++ ((fun f => (category, {| parent := category; name := f |})) <$> names).
Proof.
  unfold add_files. revert files.
  induction names as [|f names IH]; intros files; simpl.
  - by rewrite app_nil_r.
  - rewrite IH. by rewrite <- app_assoc.
Qed.

Lemma discover_flat (listing : list dirent) :
  discover_dataset_files listing = flat_map dir_files (merge_sort by_name listing).
Proof.
  unfold discover_dataset_files.
  generalize (merge_sort by_name listing). intros ds.
  assert (forall files,
    foldl (fun files category =>
             if d_is_dir category
             then add_files (d_name category) files
                    (merge_sort String.le (glob_txt (d_children category)))
             else files) files ds
    = files ++ flat_map dir_files ds) as H; [|apply (H [])].
  induction ds as [|d ds IH]; intros files; simpl.
  - by rewrite app_nil_r.
  - rewrite IH. unfold dir_files at 2.
    destruct (d_is_dir d); [|done].
    by rewrite add_files_spec, <- app_assoc.
Qed.

Global Instance by_name_trans : Transitive by_name.
Proof. intros a b c. unfold by_name. apply transitivity. Qed.

Global Instance by_name_total : Total by_name.
Proof. intros a b. unfold by_name. apply total, _. Qed.

Global Instance pair_lt_trans : Transitive pair_lt.
Proof.
  intros a b c [Hab|[Eab Hab]] [Hbc|[Ebc Hbc]]; unfold pair_lt.
  - left. by etrans.
  - left. by rewrite <- Ebc.
  - left. by rewrite Eab.
  - right. split; [congruence|by etrans].
Qed.

Lemma pair_lt_irrefl a : ~ pair_lt a a.
Proof. intros [H|[_ H]]; by apply irreflexivity in H; [|apply _]. Qed.

Global Instance pair_lt_antisymm : AntiSymm (=) pair_lt.
Proof.
  intros a b Hab Hba. destruct (pair_lt_irrefl a). by etrans.
Qed.

(** A list sorted by a key without repetition is strictly sorted. *)
Lemma sorted_strict {A} (key : A -> string) (l : list A) :
  StronglySorted (fun x y => String.le (key x) (key y)) l ->
  NoDup (key <$> l) ->
  StronglySorted (fun x y => name_lt (key x) (key y)) l.
Proof.
  induction 1 as [|x l Hl IH Hx]; intros Hnd; [constructor|].
  apply NoDup_cons in Hnd as [Hnot Hnd].
  constructor; [by apply IH|].
  apply Forall_forall. intros y Hy.
  apply strict_spec_alt. split.
  - rewrite Forall_forall in Hx. by apply Hx.
  - intros Heq. apply Hnot. rewrite Heq. by apply list_elem_of_fmap_2.
Qed.

Lemma strongly_sorted_nodup {A} (R : relation A) (l : list A) :
  (forall x, ~ R x x) -> StronglySorted R l -> NoDup l.
Proof.
  intros Hirr. induction 1 as [|x l Hl IH Hx]; [constructor|].
  apply NoDup_cons. split; [|done].
  intros Hin. rewrite Forall_forall in Hx. by apply (Hirr x), Hx.
Qed.

Lemma glob_sorted (children : list string) :
  NoDup children ->
  StronglySorted name_lt (merge_sort String.le (glob_txt children)).
Proof.
  intros Hnd.
  apply (sorted_strict (fun f => f)).
  - apply StronglySorted_merge_sort; apply _.
  - rewrite list_fmap_id, merge_sort_Permutation.
    unfold glob_txt. by apply NoDup_filter.
Qed.

Lemma dir_files_sorted (d : dirent) :
  NoDup (d_children d) -> StronglySorted pair_lt (dir_files d).
Proof.
  intros Hnd. unfold dir_files. destruct (d_is_dir d); [|constructor].
  pose proof (glob_sorted _ Hnd) as Hs.
  induction Hs as [|f fs Hfs IH Hf]; [constructor|].
  rewrite fmap_cons. constructor; [done|].
  apply Forall_fmap, Forall_forall. intros g Hg. right. split; [done|].
  simpl. rewrite Forall_forall in Hf. by apply Hf.
Qed.

Lemma dir_files_category (d : dirent) (x : string * Path) :
  x ∈ dir_files d -> x.1 = d_name d.
Proof.
  unfold dir_files. destruct (d_is_dir d); [|by intros ?%elem_of_nil].
  by intros (f & -> & _)%list_elem_of_fmap.
Qed.

Lemma flat_sorted (ds : list dirent) :
  StronglySorted (fun x y => name_lt (d_name x) (d_name y)) ds ->
  Forall (fun d => NoDup (d_children d)) ds ->
  StronglySorted pair_lt (flat_map dir_files ds).
Proof.
  induction 1 as [|d ds Hds IH Hd]; intros Hch; [constructor|].
  apply Forall_cons in Hch as [Hch1 Hch].
  simpl. apply StronglySorted_app. split; [|split].
  - intros x1 x2 H1 H2. left.
    rewrite (dir_files_category _ _ H1).
    apply list_elem_of_In, in_flat_map in H2 as (d' & Hd' & Hx2).
    apply list_elem_of_In in Hd', Hx2.
    rewrite (dir_files_category _ _ Hx2).
    rewrite Forall_forall in Hd. by apply Hd.
  - by apply dir_files_sorted.
  - by apply IH.
Qed.

Lemma elem_of_discover (listing : list dirent) (x : string * Path) :
  x ∈ discover_dataset_files listing <->
  file_in listing x.1 (name x.2) /\ parent x.2 = x.1
  /\ endswith (name x.2) ".txt" = true.
Proof.
  rewrite discover_flat, list_elem_of_In, in_flat_map. split.
  - intros (d & Hd & Hx). apply list_elem_of_In in Hd, Hx.
    rewrite merge_sort_Permutation in Hd.
    unfold dir_files in Hx. destruct (d_is_dir d) eqn:Hdir;
      [|by apply elem_of_nil in Hx].
    apply list_elem_of_fmap in Hx as (f & -> & Hf). simpl.
    rewrite merge_sort_Permutation in Hf.
    apply list_elem_of_filter in Hf as [Htxt Hf].
    split; [by exists d|done].
  - intros ((d & Hd & Hdir & Hname & Hf) & Hpar & Htxt).
    exists d. split.
    + apply list_elem_of_In. by rewrite merge_sort_Permutation.
    + apply list_elem_of_In. unfold dir_files. rewrite Hdir.
      apply list_elem_of_fmap. exists (name x.2). split.
      * destruct x as [c [p f]]. simpl in *. by subst.
      * rewrite merge_sort_Permutation.
        by apply list_elem_of_filter.
Qed.

Lemma discover_sorted (listing : list dirent) :
  well_formed listing ->
  StronglySorted pair_lt (discover_dataset_files listing).
Proof.
  intros [Hnames Hch]. rewrite discover_flat. apply flat_sorted.
  - apply (sorted_strict d_name).
    + apply (StronglySorted_merge_sort by_name).
    + by rewrite merge_sort_Permutation.
  - by rewrite merge_sort_Permutation.
Qed.

(** C6: for a directory in which names are distinct, discovery returns
    its pairs in strictly increasing order, by category name first and by
    file name second; and whatever the order in which the operating
    system lists the same directory, the sequence returned is the same. *)
Theorem discovery_sorted_and_deterministic (listing : list dirent) :
  well_formed listing ->
  StronglySorted pair_lt (discover_dataset_files listing)
  /\ forall listing',
      well_formed listing' ->
      (forall c f, file_in listing c f <-> file_in listing' c f) ->
      discover_dataset_files listing' = discover_dataset_files listing.
Proof.
  intros Hwf. split; [by apply discover_sorted|].
  intros listing' Hwf' Hsame.
  apply (StronglySorted_unique pair_lt); [by apply discover_sorted..|].
  apply NoDup_Permutation.
  - eapply strongly_sorted_nodup, discover_sorted; [apply pair_lt_irrefl|done].
  - eapply strongly_sorted_nodup, discover_sorted; [apply pair_lt_irrefl|done].
  - intros x. rewrite !elem_of_discover. by rewrite Hsame.
Qed.

Lemma discovery_sorted_and_deterministic_witness :
  well_formed sample_listing
  /\ StronglySorted pair_lt (discover_dataset_files sample_listing)
  /\ discover_dataset_files (reverse sample_listing)
     = discover_dataset_files sample_listing.
Proof.
  assert (well_formed sample_listing) as Hwf.
  { split; [by apply (bool_decide_unpack _)|].
    repeat constructor; by apply (bool_decide_unpack _). }
  assert (well_formed (reverse sample_listing)) as Hwf'.
  { split; [by apply (bool_decide_unpack _)|].
    repeat constructor; by apply (bool_decide_unpack _). }
  split; [exact Hwf|].
  destruct (discovery_sorted_and_deterministic sample_listing Hwf) as [Hs Hd].
  split; [exact Hs|]. apply Hd; [exact Hwf'|].
  intros c f. unfold file_in.
  split; intros (d & Hin & Hrest); exists d; (split; [|exact Hrest]).
  - by apply elem_of_reverse.
  - by apply elem_of_reverse in Hin.
Defined.

End CorpusFacts.

(** ** The batch driver *)

Module DriverFacts.
Import Py PySpec PyFacts Corpus CorpusSpec CorpusFacts Driver DriverSpec LedgerSpec.

Lemma execute_spec (w : world) (exe : string) (cf : string * Path) (st : state) :
  execute w exe cf st =
    {| results := results st ++ [outcome_record w exe cf];
       fs := <[outfile_of w exe cf.1 cf.2 := Text (artifact (spawn w exe cf.2))]> (fs st) |}.
Proof.
  destruct cf as [category fpath]. unfold execute, outcome_record. simpl.
  destruct (graph_counts (read w fpath)) as [n m].
  by destruct (spawn w exe fpath).
Qed.

Lemma run_body_results w exe st cf :
  results (run_body w exe st cf) = results st ++ [outcome_record w exe cf].
Proof. unfold run_body, save_csv. by rewrite execute_spec. Qed.


Lemma inner_loop_results w exe files st :
  results (foldl (run_body w exe) st files)
  = results st ++ (outcome_record w exe <$> files).
Proof.
  revert st. induction files as [|cf files IH]; intros st;
    cbn [foldl]; rewrite ?fmap_cons.
  - by rewrite app_nil_r.
  - by rewrite IH, run_body_results, <- app_assoc.
Qed.

Lemma run_loops_results w exes files st :
  results (run_loops w exes files st)
  = results st ++ flat_map (fun exe => outcome_record w exe <$> files) exes.
Proof.
  unfold run_loops. revert st.
  induction exes as [|exe exes IH]; intros st; cbn [foldl flat_map].
  - by rewrite app_nil_r.
  - rewrite IH, inner_loop_results. by rewrite <- app_assoc.
Qed.

Lemma run_results (w : world) :
  results (run w)
  = flat_map (fun exe => outcome_record w exe
                           <$> discover_dataset_files (listing w))
             (compiled_exes w).
Proof.
  unfold run. destruct (compiled_exes w) as [|exe exes] eqn:E; [done|].
  cbv zeta. unfold save_csv, write_file. cbn [results].
  by rewrite run_loops_results.
Qed.

Lemma outfile_not_csv (w : world) (exe category : string) (fpath : Path) :
  outfile_of w exe category fpath <> csv_path w.
Proof.
  unfold outfile_of, csv_path, join. rewrite !append_assoc. intros H.
  apply (inj (String.app (OUTPUT_DIR w))) in H.
  rewrite !app_cons, !app_nil_l in H. injection H as H.
  apply (f_equal (all_chars not_slash)) in H.
  rewrite all_chars_app in H. simpl in H.
  by rewrite andb_false_r in H.
Qed.

(** C1: when the child does not exit within the 600 seconds, whatever it
    had written, the turn of the loop appends a record with the status
    timeout and no elapsed time, and the output artifact that the record
    names holds the text TIMEOUT and a line end, also once the table has
    been rewritten. *)
Theorem timeout_yields_sentinel (w : world) (exe category : string)
    (fpath : Path) (st : state) (partial : string) :
  spawn w exe fpath = TimeoutExpired partial ->
  exists r,
    results (run_body w exe st (category, fpath)) = results st ++ [r]
    /\ algorithm r = exe /\ file r = rel_of fpath
    /\ exitcode r = Word "timeout"
    /\ time r = None
    /\ output r = outfile_of w exe category fpath
    /\ fs (run_body w exe st (category, fpath)) !! output r
       = Some (Text ("TIMEOUT" +:+ nl)).
Proof.
  intros Hspawn. exists (outcome_record w exe (category, fpath)).
  unfold run_body, save_csv, write_file. rewrite execute_spec.
  unfold outcome_record. simpl.
  destruct (graph_counts (read w fpath)) as [n m]. simpl.
  rewrite Hspawn. simpl. repeat split.
  rewrite lookup_insert_ne
    by (intros H; symmetry in H; by apply outfile_not_csv in H).
  apply lookup_insert_eq.
Qed.

Lemma timeout_yields_sentinel_witness :
  let w := sample_world (TimeoutExpired "half a li") in
  let fpath := {| parent := "dense"; name := "dense_01.txt" |} in
  let st := {| results := []; fs := ∅ |} in
  exists r,
    results (run_body w "p1" st ("dense"%string, fpath)) = results st ++ [r]
    /\ algorithm r = "p1"%string /\ file r = rel_of fpath
    /\ exitcode r = Word "timeout"
    /\ time r = None
    /\ output r = "/bench/outputs/p1/dense/dense_01.txt"%string
    /\ fs (run_body w "p1" st ("dense"%string, fpath)) !! output r
       = Some (Text ("TIMEOUT" +:+ nl)).
Proof.
  intros w fpath st.
  apply (timeout_yields_sentinel w "p1" "dense" fpath st "half a li").
  reflexivity.
Defined.

(** *** Coverage *)

Lemma join_inj (c1 c2 f1 f2 : string) :
  all_chars not_slash c1 = true -> all_chars not_slash c2 = true ->
  join c1 f1 = join c2 f2 -> c1 = c2 /\ f1 = f2.
Proof.
  unfold join. revert c2.
  induction c1 as [|x c1 IH]; intros [|y c2] H1 H2 Heq.
  - by injection Heq.
  - rewrite app_nil_l, !app_cons in Heq. injection Heq as <- _.
    by simpl in H2.
  - rewrite app_nil_l, !app_cons in Heq. injection Heq as -> _.
    by simpl in H1.
  - rewrite !app_cons in Heq. injection Heq as -> Heq.
    simpl in H1, H2.
    apply andb_true_iff in H1 as [_ H1]. apply andb_true_iff in H2 as [_ H2].
    destruct (IH c2 H1 H2 Heq) as [-> ->]. done.
Qed.

Lemma discovered_parent (listing : list dirent) (x : string * Path) :
  slash_free listing ->
  x ∈ discover_dataset_files listing ->
  parent x.2 = x.1 /\ all_chars not_slash x.1 = true.
Proof.
  intros Hsf ((d & Hd & _ & Hname & _) & Hpar & _)%elem_of_discover.
  split; [done|]. rewrite <- Hname.
  unfold slash_free in Hsf. rewrite Forall_forall in Hsf. by apply Hsf.
Qed.

Lemma rel_of_nodup (listing : list dirent) :
  well_formed listing -> slash_free listing ->
  NoDup ((fun cf => rel_of cf.2) <$> discover_dataset_files listing).
Proof.
  intros Hwf Hsf. apply NoDup_fmap_2_strong.
  - intros [c1 [p1 f1]] [c2 [p2 f2]] H1 H2 Heq.
    destruct (discovered_parent _ _ Hsf H1) as [Hp1 Hs1].
    destruct (discovered_parent _ _ Hsf H2) as [Hp2 Hs2].
    simpl in *. subst p1 p2. unfold rel_of in Heq. simpl in Heq.
    by destruct (join_inj _ _ _ _ Hs1 Hs2 Heq) as [-> ->].
  - eapply strongly_sorted_nodup, discover_sorted; [apply pair_lt_irrefl|done].
Qed.

Lemma pairs_nodup {A B} (xs : list A) (ys : list B) :
  NoDup xs -> NoDup ys ->
  NoDup (flat_map (fun x => (fun y => (x, y)) <$> ys) xs).
Proof.
  intros Hxs Hys. induction Hxs as [|x xs Hx Hxs IH]; [constructor|].
  cbn [flat_map]. apply NoDup_app. split; [|split].
  - apply NoDup_fmap_2; [|done]. by intros y1 y2 [= ->].
  - intros [x' y'] (y & [= -> ->] & Hy)%list_elem_of_fmap Hin.
    apply list_elem_of_In, in_flat_map in Hin as (x'' & Hx'' & Hin).
    apply list_elem_of_In in Hx'', Hin.
    apply list_elem_of_fmap in Hin as (y'' & [= -> ->] & _). done.
  - done.
Qed.

Lemma keys_of_run (w : world) :
  key <$> results (run w)
  = flat_map (fun exe => (fun rel => (exe, rel))
                <$> ((fun cf => rel_of cf.2)
                       <$> discover_dataset_files (listing w)))
             (compiled_exes w).
Proof.
  rewrite run_results. generalize (compiled_exes w) as exes.
  induction exes as [|exe exes IH]; [done|].
  cbn [flat_map]. rewrite fmap_app, IH. f_equal.
  rewrite <- !list_fmap_compose. apply list_fmap_ext.
  intros i cf _. unfold key, outcome_record. simpl.
  by destruct (graph_counts (read w cf.2)).
Qed.

Lemma exec_names_nodup : NoDup EXEC_NAMES.
Proof. by apply (bool_decide_unpack _). Qed.

(** C7: for a data set directory with distinct names, none of which holds
    a slash, a run appends as many records as there are discovered files
    times algorithms that could be built, and no two records have the
    same algorithm and file. *)
Theorem run_covers_every_pair_once (w : world) :
  well_formed (listing w) -> slash_free (listing w) ->
  length (results (run w))
  = (length (discover_dataset_files (listing w))
     * length (compiled_exes w))%nat
  /\ NoDup (key <$> results (run w)).
Proof.
  intros Hwf Hsf. split.
  - rewrite run_results. generalize (compiled_exes w) as exes.
    induction exes as [|exe exes IH]; [simpl; lia|].
    cbn [flat_map]. rewrite length_app, length_fmap, IH. simpl. lia.
  - rewrite keys_of_run. apply pairs_nodup.
    + apply NoDup_filter, exec_names_nodup.
    + by apply rel_of_nodup.
Qed.

Lemma run_covers_every_pair_once_witness :
  let w := sample_world (Exited "1 component" 0 (PyFloat "0.004")) in
  length (results (run w)) = 12%nat /\ NoDup (key <$> results (run w)).
Proof.
  intros w.
  assert (well_formed (listing w)) as Hwf.
  { split; [by apply (bool_decide_unpack _)|].
    repeat constructor; by apply (bool_decide_unpack _). }
  assert (slash_free (listing w)) as Hsf.
  { repeat constructor. }
  destruct (run_covers_every_pair_once w Hwf Hsf) as [Hlen Hnd].
  split; [exact Hlen|exact Hnd].
Defined.

(** *** The artifacts at the end of a run *)

Lemma put_absent (l : list (string * file_data)) (m : gmap string file_data)
    (k : string) :
  k ∉ l.*1 -> foldl put m l !! k = m !! k.
Proof.
  revert m. induction l as [|[k' v'] l IH]; intros m Hk; [done|].
  cbn [foldl]. rewrite fmap_cons in Hk. apply not_elem_of_cons in Hk as [Hne Hk].
  rewrite IH by done. unfold put. simpl. by rewrite lookup_insert_ne.
Qed.

Lemma put_present (l : list (string * file_data)) (m : gmap string file_data)
    (k : string) (v : file_data) :
  NoDup l.*1 -> (k, v) ∈ l -> foldl put m l !! k = Some v.
Proof.
  revert m. induction l as [|[k' v'] l IH]; intros m Hnd Hin.
  - by apply elem_of_nil in Hin.
  - rewrite fmap_cons in Hnd. apply NoDup_cons in Hnd as [Hk' Hnd].
    cbn [foldl]. apply elem_of_cons in Hin as [[= <- <-]|Hin].
    + rewrite put_absent by done. unfold put. simpl. apply lookup_insert_eq.
    + by apply IH.
Qed.

Lemma run_body_fs w exe st cf (p : string) :
  p <> csv_path w ->
  fs (run_body w exe st cf) !! p
  = put (fs st) (outfile_of w exe cf.1 cf.2, Text (artifact (spawn w exe cf.2))) !! p.
Proof.
  intros Hp. unfold run_body, save_csv, write_file. rewrite execute_spec.
  cbn [fs]. by rewrite lookup_insert_ne.
Qed.

Lemma put_ext (l : list (string * file_data)) (m1 m2 : gmap string file_data)
    (p : string) :
  m1 !! p = m2 !! p -> foldl put m1 l !! p = foldl put m2 l !! p.
Proof.
  revert m1 m2. induction l as [|[k v] l IH]; intros m1 m2 H; [done|].
  cbn [foldl]. apply IH. unfold put. simpl.
  destruct (decide (k = p)) as [->|Hne].
  - by rewrite !lookup_insert_eq.
  - by rewrite !lookup_insert_ne.
Qed.

Lemma inner_loop_fs w exe files st (p : string) :
  p <> csv_path w ->
  fs (foldl (run_body w exe) st files) !! p
  = foldl put (fs st)
      ((fun cf => (outfile_of w exe cf.1 cf.2,
                   Text (artifact (spawn w exe cf.2)))) <$> files) !! p.
Proof.
  intros Hp. revert st.
  induction files as [|cf files IH]; intros st; [done|].
  rewrite fmap_cons. cbn [foldl]. rewrite IH. apply put_ext.
  by apply run_body_fs.
Qed.

Lemma run_loops_fs w exes files st (p : string) :
  p <> csv_path w ->
  fs (run_loops w exes files st) !! p
  = foldl put (fs st) (writes w exes files) !! p.
Proof.
  intros Hp. unfold run_loops, writes. revert st.
  induction exes as [|exe exes IH]; intros st; [done|].
  cbn [foldl flat_map]. rewrite IH, foldl_app. apply put_ext.
  by apply inner_loop_fs.
Qed.

Lemma outfile_not_leaf (w : world) (exe category leaf : string) (fpath : Path) :
  all_chars not_slash leaf = true ->
  outfile_of w exe category fpath <> join (OUTPUT_DIR w) leaf.
Proof.
  intros Hleaf. unfold outfile_of, join. rewrite !append_assoc. intros H.
  apply (inj (String.app (OUTPUT_DIR w))) in H.
  rewrite !app_cons, !app_nil_l in H. injection H as H.
  apply (f_equal (all_chars not_slash)) in H.
  rewrite all_chars_app, Hleaf in H. simpl in H.
  by rewrite andb_false_r in H.
Qed.

Lemma outfile_rel (w : world) (exe : string) (cf : string * Path) :
  parent cf.2 = cf.1 ->
  outfile_of w exe cf.1 cf.2 = join (join (OUTPUT_DIR w) exe) (rel_of cf.2).
Proof.
  intros <-. unfold outfile_of, rel_of, join. by rewrite !append_assoc.
Qed.

Lemma outfile_inj (w : world) (e1 e2 r1 r2 : string) :
  all_chars not_slash e1 = true -> all_chars not_slash e2 = true ->
  join (join (OUTPUT_DIR w) e1) r1 = join (join (OUTPUT_DIR w) e2) r2 ->
  e1 = e2 /\ r1 = r2.
Proof.
  intros H1 H2 H. unfold join in H. rewrite !append_assoc in H.
  apply (inj (String.app (OUTPUT_DIR w))) in H.
  rewrite !app_cons, !app_nil_l in H. injection H as H.
  by apply join_inj.
Qed.

Lemma compiled_slash_free (w : world) (exe : string) :
  exe ∈ compiled_exes w -> all_chars not_slash exe = true.
Proof.
  intros [_ H]%list_elem_of_filter. unfold EXEC_NAMES in H.
  repeat (apply elem_of_cons in H as [->|H]; [done|]).
  by apply elem_of_nil in H.
Qed.

Lemma writes_keys (w : world) (exes : list string) (files : list (string * Path)) :
  (forall cf, cf ∈ files -> parent cf.2 = cf.1) ->
  (writes w exes files).*1
  = (fun er => join (join (OUTPUT_DIR w) er.1) er.2)
      <$> flat_map (fun exe => (fun rel => (exe, rel))
                      <$> ((fun cf => rel_of cf.2) <$> files)) exes.
Proof.
  intros Hpar. unfold writes.
  induction exes as [|exe exes IH]; [done|].
  cbn [flat_map]. rewrite !fmap_app, IH. f_equal.
  rewrite <- !list_fmap_compose. apply list_fmap_ext.
  intros i cf Hcf. simpl. apply outfile_rel, Hpar.
  by eapply list_elem_of_lookup_2.
Qed.

Lemma writes_nodup (w : world) :
  well_formed (listing w) -> slash_free (listing w) ->
  NoDup (writes w (compiled_exes w) (discover_dataset_files (listing w))).*1.
Proof.
  intros Hwf Hsf. rewrite writes_keys.
  - apply NoDup_fmap_2_strong.
    + intros [e1 r1] [e2 r2] H1 H2 Heq. simpl in Heq.
      apply list_elem_of_In, in_flat_map in H1 as (x1 & Hx1 & H1).
      apply list_elem_of_In, in_flat_map in H2 as (x2 & Hx2 & H2).
      apply list_elem_of_In in Hx1, Hx2, H1, H2.
      apply list_elem_of_fmap in H1 as (? & [= <- <-] & _).
      apply list_elem_of_fmap in H2 as (? & [= <- <-] & _).
      destruct (outfile_inj w e1 e2 r1 r2) as [-> ->];
        [by apply (compiled_slash_free w)..|done|done].
    + apply pairs_nodup; [apply NoDup_filter, exec_names_nodup|].
      by apply rel_of_nodup.
  - intros cf Hcf. by apply (discovered_parent _ _ Hsf Hcf).
Qed.

(** At the end of a run every algorithm that could be built has, for
    every discovered file, its output artifact on disk: the output of the
    child, the timeout text or the error text. *)
Lemma artifacts_at_end (w : world) (exe : string) (cf : string * Path) :
  well_formed (listing w) -> slash_free (listing w) ->
  exe ∈ compiled_exes w -> cf ∈ discover_dataset_files (listing w) ->
  fs (run w) !! outfile_of w exe cf.1 cf.2
  = Some (Text (artifact (spawn w exe cf.2))).
Proof.
  intros Hwf Hsf Hexe Hcf. unfold run.
  pose proof (writes_nodup w Hwf Hsf) as Hnd.
  destruct (compiled_exes w) as [|e es] eqn:E; [by apply elem_of_nil in Hexe|].
  cbv zeta. unfold save_csv, write_file. cbn [fs results].
  rewrite lookup_insert_ne
    by (intros H; symmetry in H; by apply (outfile_not_leaf w) in H).
  rewrite lookup_insert_ne
    by (intros H; symmetry in H; by apply (outfile_not_leaf w) in H).
  rewrite run_loops_fs by (by apply outfile_not_leaf).
  apply put_present; [done|]. unfold writes.
  apply list_elem_of_In, in_flat_map. exists exe. split.
  - by apply list_elem_of_In.
  - apply list_elem_of_In, list_elem_of_fmap. by exists cf.
Qed.

(** *** The ledger *)














Lemma execute_trace_last (w : world) (exe : string) (cf : string * Path)
    (st : state) :
  List.last (execute_trace w exe cf st) st = execute w exe cf st.
Proof. unfold execute_trace. by rewrite last_last. Qed.











(** While the table is rewritten it lacks rows: in the sample world the
    fifth state of the run, after the [open] of the first rewrite, has one
    record in [results] and an empty table, and the sixth has the header
    row alone. *)
Example table_lacks_rows_during_rewrite :
  let w := sample_world (Exited "1 component" 0 (PyFloat "0.004")) in
  ((fun st => (length (results st), fs st !! csv_path w)) <$> run_trace w)
    !! 4%nat = Some (1%nat, Some (Text EmptyString))
  /\ ((fun st => (length (results st), fs st !! csv_path w)) <$> run_trace w)
       !! 5%nat = Some (1%nat, Some (Text header_row)).
Proof. by vm_compute. Qed.

(** *** Failures *)

(** In [run_all.py] an exception of the child process other than the
    timeout ends in a record with the status error and no elapsed time,
    and the artifact holds the message. *)
Lemma failure_yields_error_record (w : world) (exe category : string)
    (fpath : Path) (st : state) (msg : string) :
  spawn w exe fpath = Raised msg ->
  exists r,
    results (execute w exe (category, fpath) st) = results st ++ [r]
    /\ exitcode r = Word "error"
    /\ time r = None
    /\ fs (execute w exe (category, fpath) st) !! output r
       = Some (Text ("ERROR: " +:+ msg +:+ nl)).
Proof.
  intros Hspawn. exists (outcome_record w exe (category, fpath)).
  rewrite execute_spec. unfold outcome_record. simpl.
  destruct (graph_counts (read w fpath)) as [n m]. simpl.
  rewrite Hspawn. simpl. repeat split. apply lookup_insert_eq.
Qed.


End DriverFacts.

(** ** The single-algorithm driver *)

Module P1OnlyFacts.
Import Py PySpec PyFacts Corpus CorpusSpec CorpusFacts Driver DriverSpec DriverFacts P1Only P1OnlySpec.

(** C2 fails in [run_p1_only.py]: when the first graph file has no header
    line, [n] and [m] are unbound; the record of the child, which exited
    normally, cannot be built, the handler for other exceptions replaces
    the output of the child by an error text and cannot build its record
    either, and the exception leaves [run] with no record written.  On the
    same input [run_all.py], which sets [n] and [m] to [None] first,
    records every pair. *)
Theorem p1_only_run_raises_without_header :
  (exists st,
      P1Only.run headerless_world = Uncaught unbound_msg st
      /\ P1Only.results st = []
      /\ P1Only.fs st !! "/bench/outputs/p1/small/small_01.txt"
         = Some (Text ("ERROR: " +:+ unbound_msg +:+ nl))
      /\ P1Only.fs st !! P1Only.csv_path headerless_world = None)
  /\ length (Driver.results (Driver.run headerless_world)) = 4%nat.
Proof.
  split; [|by vm_compute].
  eexists. split; [by vm_compute|]. split; [done|]. split; by vm_compute.
Qed.


End P1OnlyFacts.

(** ** Vertex and edge counts *)

Module HeaderFacts.
Import Py PySpec PyFacts Corpus CorpusSpec CorpusFacts Driver DriverSpec DriverFacts P1Only HeaderSpec.

Lemma max_fold_ge (edges : list (Z * Z)) (a : Z) :
  a <= foldl (fun acc uv => Z.max acc (Z.max uv.1 uv.2)) a edges
  /\ forall uv, uv ∈ edges ->
       Z.max uv.1 uv.2 <= foldl (fun acc uv => Z.max acc (Z.max uv.1 uv.2)) a edges.
Proof.
  revert a. induction edges as [|e edges IH]; intros a; cbn [foldl].
  - split; [lia|]. by intros uv ?%elem_of_nil.
  - destruct (IH (Z.max a (Z.max e.1 e.2))) as [Ha Hin]. split; [lia|].
    intros uv [->|Huv]%elem_of_cons; [lia|by apply Hin].
Qed.

Lemma max_fold_attained (edges : list (Z * Z)) (a : Z) :
  foldl (fun acc uv => Z.max acc (Z.max uv.1 uv.2)) a edges = a
  \/ exists uv, uv ∈ edges
       /\ foldl (fun acc uv => Z.max acc (Z.max uv.1 uv.2)) a edges
          = Z.max uv.1 uv.2.
Proof.
  revert a. induction edges as [|e edges IH]; intros a; cbn [foldl]; [by left|].
  destruct (IH (Z.max a (Z.max e.1 e.2))) as [Heq|(uv & Huv & Heq)].
  - rewrite Heq. destruct (Z.max_spec a (Z.max e.1 e.2)) as [[_ ->]|[_ ->]].
    + right. exists e. split; [by left|done].
    + by left.
  - right. exists uv. split; [by right|done].
Qed.

Lemma max_endpoint_spec (e : Z * Z) (edges : list (Z * Z)) :
  (forall uv, uv ∈ e :: edges -> uv.1 < max_endpoint e edges + 1
                                 /\ uv.2 < max_endpoint e edges + 1)
  /\ exists uv, uv ∈ e :: edges /\ max_endpoint e edges = Z.max uv.1 uv.2.
Proof.
  unfold max_endpoint.
  destruct (max_fold_ge edges (Z.max e.1 e.2)) as [Ha Hin]. split.
  - intros uv [->|Huv]%elem_of_cons; [lia|].
    specialize (Hin uv Huv). lia.
  - destruct (max_fold_attained edges (Z.max e.1 e.2)) as [Heq|(uv & Huv & Heq)].
    + exists e. split; [by left|done].
    + exists uv. split; [by right|done].
Qed.

Lemma scan_header_skip (line : string) (rest : list string) :
  skipped line = true -> scan_header (line :: rest) = scan_header rest.
Proof.
  unfold skipped. cbn [scan_header].
  destruct (is_empty (strip line)); [done|].
  destruct (startswith (strip line) "#"); [done|]. simpl.
  destruct (split (strip line)) as [|p0 [|p1 ps]]; done.
Qed.

Lemma scan_header_found (line : string) (rest : list string) :
  skipped line = false -> scan_header (line :: rest) = header_of_line line.
Proof.
  unfold skipped, header_of_line. cbn [scan_header].
  destruct (is_empty (strip line)); [done|].
  destruct (startswith (strip line) "#"); [done|]. simpl.
  destruct (split (strip line)) as [|p0 [|p1 ps]]; done.
Qed.

Lemma scan_header_first (pre : list string) (line : string) (rest : list string) :
  Forall (fun l => skipped l = true) pre -> skipped line = false ->
  scan_header (pre ++ line :: rest) = header_of_line line.
Proof.
  induction 1 as [|l pre Hl Hpre IH]; intros Hline.
  - by apply scan_header_found.
  - rewrite <- app_comm_cons, scan_header_skip by done. by apply IH.
Qed.

(** In [run_all.py] the counts are the two integers at the head of the
    first line of the file; without them the counts are inferred from the
    edge rows of the whole file, their number and one more than their
    largest endpoint, 0 and 0 without rows; both counts are [None] only for
    a file that cannot be read.  In [run_p1_only.py] the first line that is
    not blank, not a comment and has two tokens decides; when its first two
    tokens are not both integers both counts are [None], and with such a
    line, good or bad, the turn of the loop ends without an exception. *)
Lemma counts_from_header_or_edges :
  (forall content n m,
      first_line_header content = Some (n, m) ->
      graph_counts (Some content) = (Some n, Some m))
  /\ (forall content,
        first_line_header content = None ->
        let edges := gen_from_file (readlines content) in
        exists n,
          graph_counts (Some content) = (Some n, Some (Z.of_nat (length edges)))
          /\ (forall uv, uv ∈ edges -> uv.1 < n /\ uv.2 < n)
          /\ (edges = [] -> n = 0)
          /\ (edges <> [] -> exists uv, uv ∈ edges /\ n = Z.max uv.1 uv.2 + 1))
  /\ graph_counts None = (None, None)
  /\ (forall pre line rest,
        Forall (fun l => skipped l = true) pre -> skipped line = false ->
        scan_header (pre ++ line :: rest) = header_of_line line)
  /\ (forall content nm,
        scan_header (readlines content) = BadInt ->
        read_counts (Some content) nm = Bound (None, None))
  /\ (forall w st cf text,
        read w cf.2 = Some text ->
        scan_header (readlines text) <> Missing ->
        exists st', P1Only.run_body w st cf = Next st').
Proof.
  split; [|split; [|split; [|split; [|split]]]].
  - intros content n m. unfold first_line_header, graph_counts,
      read_header_and_edges.
    destruct (split (strip (hd "" (readlines content)))) as [|p0 [|p1 ps]];
      [done..|].
    destruct (Py.int p0) as [n0|]; [|done].
    destruct (Py.int p1) as [m0|]; [|done]. by intros [= -> ->].
  - intros content Hnone edges.
    assert (graph_counts (Some content)
            = match edges with
              | e :: edges' =>
                  (Some (max_endpoint e edges' + 1), Some (Z.of_nat (length edges)))
              | [] => (Some 0, Some 0)
              end) as ->.
    { unfold first_line_header in Hnone.
      unfold graph_counts, read_header_and_edges. fold edges.
      destruct (split (strip (hd "" (readlines content)))) as [|p0 [|p1 ps]];
        [by destruct edges..|].
      destruct (Py.int p0) as [n0|]; [|by destruct edges].
      destruct (Py.int p1) as [m0|]; [done|by destruct edges]. }
    destruct edges as [|e edges'].
    + exists 0. split; [done|]. split; [by intros uv ?%elem_of_nil|done].
    + exists (max_endpoint e edges' + 1).
      destruct (max_endpoint_spec e edges') as [Hlt (uv & Huv & Heq)].
      split; [done|]. split; [exact Hlt|]. split; [done|].
      intros _. exists uv. by rewrite Heq.
  - done.
  - apply scan_header_first.
  - intros content nm H. unfold read_counts. by rewrite H.
  - intros w st [category fpath] text Hread Hscan. simpl in Hread.
    unfold P1Only.run_body. rewrite Hread. unfold read_counts.
    destruct (scan_header (readlines text)) as [n m| |] eqn:E; [| |done];
      destruct (spawn w "p1" fpath); unfold append; simpl; eauto.
Qed.

End HeaderFacts.

(** ** Numerals, tokens and lines *)

Module TextFacts.
Import Py PySpec PyFacts TextSpec.

Lemma pretty_N_char_digit (x : N) :
  (x < 10)%N ->
  isdecimal_char (pretty_N_char x) = true
  /\ digit_value (pretty_N_char x) = Z.of_N x.
Proof.
  intros H.
  assert (x = 0 \/ x = 1 \/ x = 2 \/ x = 3 \/ x = 4 \/ x = 5 \/ x = 6
          \/ x = 7 \/ x = 8 \/ x = 9)%N as Hx by lia.
  repeat destruct Hx as [-> | Hx]; try subst x; by vm_compute.
Qed.

Lemma decimal_cons acc c (s : string) :
  decimal acc (String c s) = decimal (acc * 10 + digit_value c) s.
Proof. reflexivity. Qed.

Lemma pretty_N_go_digits (x : N) (s : string) :
  all_chars isdecimal_char (pretty_N_go x s) = all_chars isdecimal_char s
  /\ decimal 0 (pretty_N_go x s) = decimal (Z.of_N x) s
  /\ (s <> "" -> pretty_N_go x s <> "")
  /\ ((0 < x)%N -> pretty_N_go x s <> "").
Proof.
  revert s. induction (N.lt_wf_0 x) as [x _ IH]; intros s.
  assert (x = 0 \/ 0 < x)%N as [-> | Hx] by lia.
  { rewrite pretty_N_go_0. repeat split; [done | lia]. }
  rewrite pretty_N_go_step by done.
  destruct (IH (x `div` 10)%N (N.div_lt x 10 Hx eq_refl)
              (String (pretty_N_char (x `mod` 10)) s)) as (Ha & Hd & Hn & _).
  destruct (pretty_N_char_digit (x `mod` 10)%N) as [Hc Hv].
  { by apply N.mod_lt. }
  repeat split.
  - rewrite Ha. simpl. by rewrite Hc.
  - rewrite Hd, decimal_cons, Hv. f_equal.
    rewrite N2Z.inj_div, N2Z.inj_mod. change (Z.of_N 10) with 10.
    pose proof (Z.div_mod (Z.of_N x) 10). lia.
  - intros _. by apply Hn.
  - intros _. by apply Hn.
Qed.

Lemma str_nonneg (z : Z) :
  0 <= z -> isdecimal (str z) = true /\ decimal 0 (str z) = z.
Proof.
  intros Hz. unfold str, pretty, pretty_Z.
  destruct z as [|p|p]; [done| |lia].
  unfold pretty, pretty_positive, pretty, pretty_N.
  rewrite decide_False by done.
  destruct (pretty_N_go_digits (N.pos p) "") as (Ha & Hd & _ & Hn).
  split; [|exact Hd].
  unfold isdecimal. rewrite Ha. simpl. rewrite andb_true_r.
  destruct (pretty_N_go (N.pos p) ""); [by destruct Hn|done].
Qed.

Lemma str_neg (p : positive) : str (Z.neg p) = String "-" (str (Z.pos p)).
Proof. reflexivity. Qed.

Lemma numeral_not_space c : numeral_char c = true -> isspace_char c = false.
Proof. unfold numeral_char. intros H. classes.
Qed.

Lemma str_chars (z : Z) : all_chars numeral_char (str z) = true.
Proof.
  assert (forall z, 0 <= z -> all_chars numeral_char (str z) = true) as Hpos.
  { intros z' Hz. destruct (str_nonneg z' Hz) as [[_ H]%andb_true_iff _].
    eapply all_chars_impl; [|exact H].
    intros c Hc. unfold numeral_char. by rewrite Hc. }
  destruct z as [|p|p]; [done|by apply Hpos|].
  rewrite str_neg. cbn [all_chars]. change (numeral_char "-") with true.
  by apply Hpos.
Qed.

Lemma str_nonempty (z : Z) : str z <> "".
Proof.
  destruct z as [|p|p]; [done| |by rewrite str_neg].
  destruct (str_nonneg (Z.pos p)) as [[H _]%andb_true_iff _]; [lia|].
  by destruct (str (Z.pos p)).
Qed.

Lemma strip_word (s : string) :
  all_chars not_space s = true -> strip s = s.
Proof.
  intros H. unfold strip, rstrip, lstrip.
  assert (forall c, not_space c = true -> isspace_char c = false) as Hq.
  { intros c. unfold not_space. by destruct (isspace_char c). }
  rewrite (drop_while_none _ _ s Hq H).
  rewrite (drop_while_none _ not_space _ Hq).
  - apply rev_involutive.
  - by rewrite all_chars_rev.
Qed.

Lemma strip_int_word (s : string) :
  all_chars not_space s = true -> strip_int s = s.
Proof.
  intros H. unfold strip_int.
  assert (forall c, not_space c = true -> isspace_int c = false) as Hq.
  { intros c. unfold not_space. intros Hc. classes. }
  rewrite (drop_while_none _ _ s Hq H).
  rewrite (drop_while_none _ not_space _ Hq).
  - apply rev_involutive.
  - by rewrite all_chars_rev.
Qed.

Lemma numeral_word (s : string) :
  all_chars numeral_char s = true -> all_chars not_space s = true.
Proof.
  apply all_chars_impl. intros c Hc. unfold not_space.
  by rewrite (numeral_not_space c Hc).
Qed.

(** [int(str(z))] is [z]. *)
Lemma int_str (z : Z) : int (str z) = Some z.
Proof.
  unfold int. rewrite (strip_int_word _ (numeral_word _ (str_chars z))).
  destruct z as [|p|p]; [done| |].
  - destruct (str_nonneg (Z.pos p)) as [Hd Hv]; [lia|].
    destruct (int_of_digits _ Hd) as [Hi _]. unfold int in Hi.
    rewrite strip_int_digits in Hi by (by apply andb_true_iff in Hd as [_ Hd]).
    by rewrite Hi, Hv.
  - rewrite str_neg. change (code "-" =? 45)%nat with true. cbv iota.
    destruct (str_nonneg (Z.pos p)) as [Hd Hv]; [lia|].
    apply andb_true_iff in Hd as [Hne Hd].
    rewrite int_digits_all; [by rewrite Hv|done|].
    left. by destruct (str (Z.pos p)).
Qed.

End TextFacts.

Module LineFacts.
Import Py PySpec PyFacts TextSpec TextFacts Corpus.

Lemma split_aux_space (s : string) :
  all_chars isspace_char s = true -> split_aux s = (EmptyString, []).
Proof.
  induction s as [|c s IH]; [done|]. simpl.
  intros [Hc Hs]%andb_true_iff. by rewrite (IH Hs), Hc.
Qed.

Lemma drop_while_app p (u v : string) :
  drop_while p (u +:+ v)
  = if all_chars p u then drop_while p v else drop_while p u +:+ v.
Proof.
  induction u as [|c u IH]; [done|]. rewrite app_cons. simpl.
  destruct (p c); [exact IH|]. by rewrite app_cons.
Qed.

Lemma drop_while_all p (s : string) :
  all_chars p s = true -> drop_while p s = EmptyString.
Proof.
  induction s as [|c s IH]; [done|]. simpl.
  intros [Hc Hs]%andb_true_iff. by rewrite Hc, IH.
Qed.

Lemma rev_cons c (s : string) :
  String.rev (String c s) = String.rev s +:+ String c EmptyString.
Proof. unfold String.rev at 1. simpl. apply rev_app_acc. Qed.

Lemma rev_snoc c (s : string) :
  String.rev (s +:+ String c EmptyString) = String c (String.rev s).
Proof.
  unfold String.rev at 1. rewrite rev_app_app. simpl.
  change (String.rev_app s "") with (String.rev s). done.
Qed.

(** [rstrip] read from the front of the text *)
Lemma rstrip_cons c (s : string) :
  rstrip (String c s)
  = if all_chars isspace_char (String c s) then EmptyString
    else String c (rstrip s).
Proof.
  unfold rstrip, lstrip. rewrite rev_cons, drop_while_app, all_chars_rev.
  cbn [all_chars]. destruct (all_chars isspace_char s) eqn:Hs.
  - rewrite andb_true_r. simpl.
    rewrite (drop_while_all _ (String.rev s)) by (by rewrite all_chars_rev).
    by destruct (isspace_char c).
  - rewrite andb_false_r. apply rev_snoc.
Qed.

Lemma split_aux_rstrip (s : string) : split_aux (rstrip s) = split_aux s.
Proof.
  induction s as [|c s IH]; [done|]. rewrite rstrip_cons.
  destruct (all_chars isspace_char (String c s)) eqn:Hs.
  - by rewrite (split_aux_space _ Hs).
  - simpl. by rewrite IH.
Qed.

Lemma split_space c (s : string) :
  isspace_char c = true -> split (String c s) = split s.
Proof.
  intros Hc. unfold split. simpl. destruct (split_aux s) as [t ts].
  by rewrite Hc.
Qed.

Lemma split_lstrip (s : string) : split (lstrip s) = split s.
Proof.
  unfold lstrip. induction s as [|c s IH]; [done|]. simpl.
  destruct (isspace_char c) eqn:Hc; [|done]. by rewrite split_space.
Qed.

(** Leading and trailing white space makes no difference to [split]. *)
Lemma split_strip (s : string) : split (strip s) = split s.
Proof.
  unfold strip, split. rewrite split_aux_rstrip. apply split_lstrip.
Qed.

Lemma split_aux_word (w : string) c (r : string) :
  all_chars not_space w = true -> isspace_char c = true ->
  split_aux (w +:+ String c r) = (w, split r).
Proof.
  intros Hw Hc. induction w as [|x w IH].
  - rewrite app_nil_l. simpl. unfold split.
    destruct (split_aux r) as [t ts]. by rewrite Hc.
  - rewrite app_cons. simpl. apply andb_true_iff in Hw as [Hx Hw].
    rewrite (IH Hw). unfold not_space in Hx.
    by destruct (isspace_char x).
Qed.

(** A word followed by white space is the first token. *)
Lemma split_word_space (w : string) c (r : string) :
  all_chars not_space w = true -> w <> EmptyString ->
  isspace_char c = true ->
  split (w +:+ String c r) = w :: split r.
Proof.
  intros Hw Hne Hc. unfold split at 1. rewrite (split_aux_word _ _ _ Hw Hc).
  by destruct w.
Qed.

Lemma split_nil : split EmptyString = [].
Proof. reflexivity. Qed.

Lemma strip_head c (r : string) :
  isspace_char c = false -> exists r', strip (String c r) = String c r'.
Proof.
  intros Hc. unfold strip, lstrip. simpl. rewrite Hc, rstrip_cons.
  simpl. rewrite Hc. simpl. eauto.
Qed.

(** the same for the white space of [int] *)
Lemma strip_int_head c (r : string) :
  isspace_int c = false -> exists r', strip_int (String c r) = String c r'.
Proof.
  intros Hc. unfold strip_int. cbn [drop_while]. rewrite Hc.
  rewrite rev_cons, drop_while_app, all_chars_rev.
  destruct (all_chars isspace_int r) eqn:Hr; cbv iota.
  - cbn [drop_while]. rewrite Hc. cbn. eauto.
  - rewrite rev_snoc. eauto.
Qed.

Lemma lstrip_space c (s : string) :
  isspace_char c = true -> lstrip (String c s) = lstrip s.
Proof. intros Hc. unfold lstrip. simpl. by rewrite Hc. Qed.

Lemma rstrip_app_space (s w : string) :
  all_chars isspace_char w = true -> rstrip (s +:+ w) = rstrip s.
Proof.
  intros Hw. induction s as [|c s IH].
  - rewrite app_nil_l. unfold rstrip, lstrip.
    by rewrite drop_while_all by (by rewrite all_chars_rev).
  - rewrite app_cons, !rstrip_cons. cbn [all_chars].
    rewrite all_chars_app, Hw, andb_true_r, IH. done.
Qed.

Lemma lstrip_all_space (s : string) :
  all_chars isspace_char s = true -> lstrip s = EmptyString.
Proof. apply drop_while_all. Qed.

Lemma strip_app_space (s w : string) :
  all_chars isspace_char w = true -> strip (s +:+ w) = strip s.
Proof.
  intros Hw. unfold strip, lstrip. rewrite drop_while_app.
  destruct (all_chars isspace_char s) eqn:Hs.
  - by rewrite (drop_while_all _ w Hw), (drop_while_all _ s Hs).
  - by apply rstrip_app_space.
Qed.

Lemma strip_space c (s : string) :
  isspace_char c = true -> strip (String c s) = strip s.
Proof. intros Hc. unfold strip. by rewrite lstrip_space. Qed.

Lemma lstrip_head (s : string) :
  lstrip s = EmptyString
  \/ exists c r, lstrip s = String c r /\ isspace_char c = false.
Proof.
  unfold lstrip. induction s as [|c s IH]; [by left|]. simpl.
  destruct (isspace_char c) eqn:Hc; [exact IH|]. right. eauto.
Qed.

Lemma lstrip_idem (s : string) : lstrip (lstrip s) = lstrip s.
Proof.
  destruct (lstrip_head s) as [-> | (c & r & -> & Hc)]; [done|].
  unfold lstrip. simpl. by rewrite Hc.
Qed.

Lemma rstrip_idem (s : string) : rstrip (rstrip s) = rstrip s.
Proof. unfold rstrip. by rewrite rev_involutive, lstrip_idem. Qed.

Lemma strip_idem (s : string) : strip (strip s) = strip s.
Proof.
  unfold strip.
  destruct (lstrip_head s) as [-> | (c & r & -> & Hc)]; [done|].
  assert (rstrip (String c r) = String c (rstrip r)) as Hr.
  { rewrite rstrip_cons. simpl. by rewrite Hc. }
  rewrite Hr. unfold lstrip. simpl. rewrite Hc. rewrite <- Hr.
  apply rstrip_idem.
Qed.

(** *** Lines *)

Lemma readlines_line (l rest : string) :
  no_nl l = true ->
  readlines (l +:+ nl +:+ rest) = (l +:+ nl) :: readlines rest.
Proof.
  intros Hl. induction l as [|c l IH].
  - done.
  - rewrite !app_cons. simpl. apply andb_true_iff in Hl as [Hc Hl].
    destruct (Ascii.eqb c "010"); [done|]. by rewrite (IH Hl).
Qed.

End LineFacts.

(** ** Graph files as [write_graph] writes them *)

Module DatasetFacts.
Import Py PySpec PyFacts TextSpec TextFacts LineFacts Corpus Dataset DatasetSpec.

Lemma numeral_char_not c :
  numeral_char c = true ->
  isspace_char c = false /\ Ascii.eqb c "#" = false
  /\ Ascii.eqb c "," = false /\ Ascii.eqb c "010" = false
  /\ Ascii.eqb c "013" = false.
Proof.
  intros H. split; [by apply numeral_not_space|].
  unfold numeral_char, isdecimal_char in H.
  repeat split; apply Ascii.eqb_neq; intros ->; by vm_compute in H.
Qed.

Lemma str_head (z : Z) :
  exists c r, str z = String c r /\ numeral_char c = true.
Proof.
  pose proof (str_chars z) as H. pose proof (str_nonempty z) as Hne.
  destruct (str z) as [|c r]; [done|].
  apply andb_true_iff in H as [Hc _]. eauto.
Qed.

Lemma str_word (z : Z) : all_chars not_space (str z) = true.
Proof. apply numeral_word, str_chars. Qed.

Lemma str_no_comma (z : Z) : no_comma (str z) = true.
Proof.
  eapply all_chars_impl; [|apply str_chars].
  intros c Hc. by destruct (numeral_char_not c Hc) as (_ & _ & -> & _).
Qed.

Lemma str_single_line (z : Z) : single_line (str z) = true.
Proof.
  eapply all_chars_impl; [|apply str_chars].
  intros c Hc. by destruct (numeral_char_not c Hc) as (_ & _ & _ & -> & ->).
Qed.

Lemma split_aux_only_word (w : string) :
  all_chars not_space w = true -> split_aux w = (w, []).
Proof.
  induction w as [|c w IH]; [done|]. simpl.
  intros [Hc Hw]%andb_true_iff. rewrite (IH Hw). unfold not_space in Hc.
  by destruct (isspace_char c).
Qed.

Lemma split_two (a b : string) :
  all_chars not_space a = true -> a <> EmptyString ->
  all_chars not_space b = true -> b <> EmptyString ->
  split (a +:+ " " +:+ b) = [a; b].
Proof.
  intros Ha Hna Hb Hnb. rewrite app_cons, app_nil_l.
  rewrite split_word_space by done. f_equal.
  unfold split. rewrite (split_aux_only_word b Hb). by destruct b.
Qed.

Lemma split_pair_line (x y : Z) : split (pair_line x y) = [str x; str y].
Proof.
  unfold pair_line.
  rewrite <- (split_two (str x) (str y))
    by auto using str_word, str_nonempty.
  rewrite <- (split_strip (str x +:+ " " +:+ str y +:+ nl)).
  rewrite <- (split_strip (str x +:+ " " +:+ str y)).
  f_equal. rewrite <- !append_assoc. by apply strip_app_space.
Qed.

Lemma strip_pair_line (x y : Z) :
  exists c r, strip (pair_line x y) = String c r /\ numeral_char c = true.
Proof.
  unfold pair_line. destruct (str_head x) as (c & r & -> & Hc).
  rewrite app_cons.
  destruct (strip_head c (r +:+ " " +:+ str y +:+ nl)) as [r' ->].
  { by apply numeral_not_space. }
  eauto.
Qed.

Lemma replace_no_comma (s : string) :
  no_comma s = true -> replace_char "," " " s = s.
Proof.
  induction s as [|c s IH]; [done|]. simpl.
  intros [Hc Hs]%andb_true_iff. rewrite (IH Hs).
  by destruct (Ascii.eqb c ",").
Qed.

Lemma split_replace_pair (x y : Z) :
  split (replace_char "," " " (strip (pair_line x y))) = [str x; str y].
Proof.
  assert (strip (pair_line x y) = str x +:+ " " +:+ str y) as ->.
  { unfold pair_line.
    replace (str x +:+ " " +:+ str y +:+ nl)
      with ((str x +:+ " " +:+ str y) +:+ nl)
      by (by rewrite !append_assoc).
    rewrite strip_app_space by done.
    destruct (str_head x) as (c & r & Hx & Hc).
    destruct (str_head y) as (d & q & Hy & Hd).
    unfold strip, lstrip. rewrite Hx, app_cons. simpl.
    rewrite (numeral_not_space c Hc). rewrite <- app_cons, <- Hx.
    unfold rstrip. 
    assert (String.rev (str x +:+ " " +:+ str y)
            = String.rev (str y) +:+ String.rev (str x +:+ " ")) as ->.
    { rewrite <- append_assoc. unfold String.rev at 1.
      by rewrite rev_app_app, rev_app_acc. }
    pose proof (str_word y) as Hw. rewrite <- all_chars_rev in Hw.
    pose proof (str_nonempty y) as Hn.
    assert (String.rev (str y) <> EmptyString) as Hn'.
    { intros E. apply Hn. by rewrite <- (rev_involutive (str y)), E. }
    destruct (String.rev (str y)) as [|e t] eqn:E; [done|].
    apply andb_true_iff in Hw as [He _]. unfold not_space in He.
    rewrite app_cons. unfold lstrip. simpl.
    destruct (isspace_char e); [done|].
    rewrite <- app_cons, <- E.
    unfold String.rev at 1. rewrite rev_app_app.
    change (String.rev_app (String.rev (str y)) "") with
      (String.rev (String.rev (str y))). rewrite rev_involutive.
    rewrite rev_app_acc, rev_involutive. by rewrite append_assoc. }
  rewrite replace_no_comma.
  - apply split_two; auto using str_word, str_nonempty.
  - unfold no_comma. rewrite !all_chars_app.
    fold (no_comma (str x)). fold (no_comma (str y)).
    by rewrite !str_no_comma.
Qed.

(** An edge row as [write_graph] writes it is read by each reader as the
    edge it was written from. *)
Lemma edge_of_pair_line (x y : Z) :
  Corpus.edge_of_line (pair_line x y) = Some (x, y).
Proof.
  unfold Corpus.edge_of_line. rewrite split_replace_pair, !int_str.
  destruct (strip_pair_line x y) as (c & r & -> & Hc).
  destruct (numeral_char_not c Hc) as (Hs & Hh & _).
  unfold lstrip. simpl. by rewrite Hs, Hh.
Qed.

End DatasetFacts.

Module RoundTrip.
Import Py PySpec PyFacts TextSpec TextFacts LineFacts Corpus Dataset DatasetSpec DatasetFacts.

Lemma universal_newlines_no_cr (s : string) :
  no_cr s = true -> universal_newlines s = s.
Proof.
  induction s as [|c s IH]; [done|]. simpl.
  intros [Hc Hs]%andb_true_iff.
  destruct (Ascii.eqb c "013"); [done|]. by rewrite (IH Hs).
Qed.

Lemma single_line_no_cr (s : string) : single_line s = true -> no_cr s = true.
Proof. apply all_chars_impl. intros c. by intros [_ ?]%andb_true_iff. Qed.

Lemma single_line_no_nl (s : string) : single_line s = true -> no_nl s = true.
Proof. apply all_chars_impl. intros c. by intros [? _]%andb_true_iff. Qed.

Lemma pair_line_eq (x y : Z) :
  pair_line x y = (str x +:+ " " +:+ str y) +:+ nl.
Proof. unfold pair_line. by rewrite !append_assoc. Qed.

Lemma pair_body_single_line (x y : Z) :
  single_line (str x +:+ " " +:+ str y) = true.
Proof.
  unfold single_line. rewrite !all_chars_app.
  fold (single_line (str x)). fold (single_line (str y)).
  by rewrite !str_single_line.
Qed.

Lemma no_cr_app (u v : string) : no_cr (u +:+ v) = no_cr u && no_cr v.
Proof. apply all_chars_app. Qed.

Lemma pair_line_no_cr (x y : Z) : no_cr (pair_line x y) = true.
Proof.
  rewrite pair_line_eq, no_cr_app.
  by rewrite (single_line_no_cr _ (pair_body_single_line x y)).
Qed.

Lemma edge_lines_no_cr (edges : list (Z * Z)) :
  no_cr (flatten (edge_line <$> edges)) = true.
Proof.
  induction edges as [|e edges IH]; [done|]. rewrite fmap_cons. cbn [flatten].
  rewrite no_cr_app, IH. unfold edge_line.
  fold (pair_line e.1 e.2). by rewrite pair_line_no_cr.
Qed.

Lemma readlines_pair_line (x y : Z) (rest : string) :
  readlines (pair_line x y +:+ rest) = pair_line x y :: readlines rest.
Proof.
  rewrite pair_line_eq, append_assoc. apply readlines_line.
  apply single_line_no_nl, pair_body_single_line.
Qed.

Lemma readlines_edge_lines (edges : list (Z * Z)) :
  readlines (flatten (edge_line <$> edges)) = edge_line <$> edges.
Proof.
  induction edges as [|e edges IH]; [done|]. rewrite fmap_cons. cbn [flatten].
  unfold edge_line at 1. fold (pair_line e.1 e.2).
  by rewrite readlines_pair_line, IH.
Qed.

(** the lines a reader gets from a file that [write_graph] wrote *)
Lemma readlines_written (n : Z) (edges : list (Z * Z)) (d : string) :
  single_line d = true ->
  readlines (written n edges d)
  = (if is_empty d then [] else [comment_line d])
    ++ pair_line n (Z.of_nat (length edges)) :: (edge_line <$> edges).
Proof.
  intros Hd. unfold written, write_graph.
  fold (pair_line n (Z.of_nat (length edges))). fold (comment_line d).
  rewrite universal_newlines_no_cr.
  - assert (readlines (pair_line n (Z.of_nat (length edges))
                       +:+ flatten (edge_line <$> edges))
            = pair_line n (Z.of_nat (length edges)) :: (edge_line <$> edges))
      as Hrest by (by rewrite readlines_pair_line, readlines_edge_lines).
    destruct (is_empty d); [by rewrite app_nil_l|].
    unfold comment_line at 1.
    replace (("# " +:+ d +:+ nl) +:+ pair_line n (Z.of_nat (length edges))
             +:+ flatten (edge_line <$> edges))
      with (("# " +:+ d) +:+ nl +:+ pair_line n (Z.of_nat (length edges))
            +:+ flatten (edge_line <$> edges))
      by (by rewrite !append_assoc).
    rewrite readlines_line, Hrest.
    + simpl. by rewrite !append_assoc.
    + unfold no_nl. rewrite all_chars_app. fold (no_nl d).
      by rewrite (single_line_no_nl d Hd).
  - rewrite !no_cr_app, pair_line_no_cr, edge_lines_no_cr, !andb_true_r.
    destruct (is_empty d); [done|].
    unfold comment_line. rewrite !no_cr_app.
    by rewrite (single_line_no_cr d Hd).
Qed.

Lemma comment_line_strip (d : string) :
  exists r, strip (comment_line d) = String "#" r.
Proof. unfold comment_line. rewrite app_cons. by apply strip_head. Qed.

Lemma comment_line_split (d : string) :
  exists ts, split (strip (comment_line d)) = "#"%string :: ts.
Proof.
  rewrite split_strip. unfold comment_line.
  change ("# " +:+ d +:+ nl) with ("#" +:+ String " " (d +:+ nl)).
  rewrite split_word_space by done. eauto.
Qed.

Lemma gen_from_edge_lines (edges : list (Z * Z)) :
  gen_from_file (edge_line <$> edges) = edges.
Proof.
  unfold gen_from_file. induction edges as [|[u v] edges IH]; [done|].
  rewrite fmap_cons. cbn [omap list_omap]. unfold edge_line at 1.
  fold (pair_line (u, v).1 (u, v).2). cbn [fst snd].
  rewrite edge_of_pair_line. f_equal. exact IH.
Qed.

Lemma edge_of_comment_line (d : string) :
  Corpus.edge_of_line (comment_line d) = None.
Proof.
  unfold Corpus.edge_of_line.
  destruct (comment_line_strip d) as [r ->]. done.
Qed.

End RoundTrip.

Module WrittenGraphs.
Import Py PySpec PyFacts TextSpec TextFacts LineFacts Corpus Dataset DatasetSpec DatasetFacts RoundTrip.

Lemma split_strip_pair_line (x y : Z) :
  split (strip (pair_line x y)) = [str x; str y].
Proof. by rewrite split_strip, split_pair_line. Qed.

Lemma scan_header_pair_line (x y : Z) (rest : list string) :
  P1Only.scan_header (pair_line x y :: rest) = P1Only.Found x y.
Proof.
  cbn [P1Only.scan_header]. rewrite split_strip_pair_line, !int_str.
  destruct (strip_pair_line x y) as (c & r & -> & Hc).
  destruct (numeral_char_not c Hc) as (_ & Hh & _).
  simpl. by rewrite Hh.
Qed.

Lemma scan_header_comment_line (d : string) (rest : list string) :
  P1Only.scan_header (comment_line d :: rest) = P1Only.scan_header rest.
Proof.
  cbn [P1Only.scan_header]. by destruct (comment_line_strip d) as [r ->].
Qed.

(** X1: from a file that [write_graph] wrote, with a description that
    holds no line break or with none, the header loop of [run_p1_only.py]
    reads the number of vertices and the number of edges that were
    written, whatever [n] and [m] held before. *)
Theorem p1_only_reads_counts_of_written_graph (n : Z) (edges : list (Z * Z))
    (d : string) nm :
  single_line d = true ->
  P1Only.read_counts (Some (written n edges d)) nm
  = P1Only.Bound (Some n, Some (Z.of_nat (length edges))).
Proof.
  intros Hd. unfold P1Only.read_counts. rewrite (readlines_written _ _ _ Hd).
  destruct (is_empty d); cbn [app].
  - by rewrite scan_header_pair_line.
  - by rewrite scan_header_comment_line, scan_header_pair_line.
Qed.

Lemma p1_only_reads_counts_of_written_graph_witness :
  single_line "path" = true
  /\ P1Only.read_counts (Some (written 3 [(0, 1); (1, 2)] "path")) P1Only.Unbound
     = P1Only.Bound (Some 3, Some 2).
Proof.
  split; [reflexivity|].
  exact (p1_only_reads_counts_of_written_graph 3 [(0, 1); (1, 2)] "path"
           P1Only.Unbound eq_refl).
Defined.

Lemma read_header_pair_line (x y : Z) (rest : list string) :
  hd EmptyString (pair_line x y :: rest) = pair_line x y.
Proof. reflexivity. Qed.

(** X2: [read_header_and_edges] of [run_all.py] on a file that
    [write_graph] wrote.  Without a description it returns the two counts
    of the header and the edges as they were written.  With a description
    the first line is the comment: no header is seen, the header line is
    read as one more edge, and the counts are inferred from the rows. *)
Theorem run_all_reads_written_graph (n : Z) (edges : list (Z * Z)) (d : string) :
  single_line d = true ->
  let m := Z.of_nat (length edges) in
  read_header_and_edges (written n edges d)
  = if is_empty d then (n, m, edges)
    else (max_endpoint (n, m) edges + 1, m + 1, (n, m) :: edges).
Proof.
  intros Hd m. unfold read_header_and_edges.
  rewrite (readlines_written _ _ _ Hd). fold m.
  destruct (is_empty d); cbn [app hd tail].
  - rewrite split_strip_pair_line, !int_str. by rewrite gen_from_edge_lines.
  - assert (gen_from_file (comment_line d :: pair_line n m :: (edge_line <$> edges))
            = (n, m) :: edges) as ->.
    { unfold gen_from_file. cbn [omap list_omap].
      rewrite edge_of_comment_line, edge_of_pair_line. f_equal.
      apply gen_from_edge_lines. }
    assert (Z.of_nat (length ((n, m) :: edges)) = m + 1) as ->.
    { cbn [length]. lia. }
    destruct (comment_line_split d) as [ts ->].
    destruct ts as [|p1 ts]; [done|].
    change (int "#") with (@None Z). done.
Qed.

Lemma run_all_reads_written_graph_witness :
  single_line "path" = true
  /\ read_header_and_edges (written 3 [(0, 1); (1, 2)] "path")
     = (4, 3, [(3, 2); (0, 1); (1, 2)])
  /\ read_header_and_edges (written 3 [(0, 1); (1, 2)] "")
     = (3, 2, [(0, 1); (1, 2)]).
Proof.
  split; [reflexivity|]. split.
  - exact (run_all_reads_written_graph 3 [(0, 1); (1, 2)] "path" eq_refl).
  - exact (run_all_reads_written_graph 3 [(0, 1); (1, 2)] "" eq_refl).
Defined.

Lemma read_edges_edge_lines (acc edges : list (Z * Z)) :
  GraphUtils.read_edges acc (edge_line <$> edges) = GraphUtils.Ok (acc ++ edges).
Proof.
  revert acc. induction edges as [|[u v] edges IH]; intros acc.
  - by rewrite app_nil_r.
  - rewrite fmap_cons. cbn [GraphUtils.read_edges].
    unfold edge_line at 1. fold (pair_line (u, v).1 (u, v).2). cbn [fst snd].
    rewrite split_strip_pair_line, !int_str, IH.
    by rewrite <- app_assoc.
Qed.

Lemma startswith_strip_pair_line (x y : Z) :
  startswith (strip (pair_line x y)) "#" = false.
Proof.
  destruct (strip_pair_line x y) as (c & r & -> & Hc).
  destruct (numeral_char_not c Hc) as (_ & Hh & _).
  simpl. by rewrite Hh.
Qed.

Lemma startswith_strip_comment_line (d : string) :
  startswith (strip (comment_line d)) "#" = true.
Proof. by destruct (comment_line_strip d) as [r ->]. Qed.

(** X3: [read_graph] of [graph_utils.py] reads back what [write_graph]
    wrote: the number of vertices, the edges in their order, and the
    description without the white space around it. *)
Theorem read_graph_of_written_graph (n : Z) (edges : list (Z * Z)) (d : string) :
  single_line d = true ->
  GraphUtils.read_graph (written n edges d) = GraphUtils.Ok (n, edges, strip d).
Proof.
  intros Hd. unfold GraphUtils.read_graph.
  rewrite (readlines_written _ _ _ Hd).
  set (m := Z.of_nat (length edges)).
  assert (forall desc,
    match split (pair_line n m) with
    | [p0; p1] =>
        match int p0, int p1 with
        | Some n, Some m =>
            edges ← GraphUtils.read_edges [] (take (Z.to_nat m) (edge_line <$> edges));
            GraphUtils.Ok (n, edges, strip desc)
        | _, _ => GraphUtils.Raise GraphUtils.ValueError
        end
    | _ => GraphUtils.Raise GraphUtils.ValueError
    end = GraphUtils.Ok (n, edges, strip desc)) as Hbody.
  { intros desc. rewrite split_pair_line, !int_str.
    unfold m. rewrite Nat2Z.id, firstn_all2 by (by rewrite length_fmap).
    by rewrite read_edges_edge_lines. }
  destruct (is_empty d) eqn:Hemp; cbn [app GraphUtils.skip_comments].
  - rewrite startswith_strip_pair_line. rewrite Hbody.
    destruct d; done.
  - rewrite startswith_strip_comment_line, startswith_strip_pair_line.
    rewrite Hbody. do 2 f_equal.
    rewrite app_nil_l, (strip_app_space _ " ") by reflexivity.
    rewrite strip_idem.
    unfold comment_line. rewrite !app_cons, app_nil_l. cbn [drop].
    rewrite strip_space by reflexivity. by apply strip_app_space.
Qed.

Lemma read_graph_of_written_graph_witness :
  single_line " a path " = true
  /\ GraphUtils.read_graph (written 3 [(0, 1); (1, 2)] " a path ")
     = GraphUtils.Ok (3, [(0, 1); (1, 2)], "a path"%string).
Proof.
  split; [reflexivity|].
  exact (read_graph_of_written_graph 3 [(0, 1); (1, 2)] " a path " eq_refl).
Defined.

Lemma skip_header_pair_line (x y : Z) (rest : list string) :
  Visualize.skip_header (pair_line x y :: rest) = rest.
Proof.
  cbn [Visualize.skip_header]. rewrite split_strip_pair_line, !int_str.
  destruct (strip_pair_line x y) as (c & r & -> & Hc).
  destruct (numeral_char_not c Hc) as (_ & Hh & _).
  simpl. by rewrite Hh.
Qed.

Lemma visualize_edge_of_pair_line (x y : Z) :
  Visualize.edge_of_line (pair_line x y) = Some (x, y).
Proof.
  unfold Visualize.edge_of_line. rewrite split_strip_pair_line, !int_str.
  destruct (strip_pair_line x y) as (c & r & -> & Hc).
  destruct (numeral_char_not c Hc) as (_ & Hh & _).
  simpl. by rewrite Hh.
Qed.

(** X4: [read_graph_from_file] of [visualize_graph.py] adds to the graph
    the edges that [write_graph] wrote, each once and in their order. *)
Theorem visualizer_reads_written_graph (n : Z) (edges : list (Z * Z)) (d : string) :
  single_line d = true ->
  Visualize.read_graph_from_file (written n edges d) = edges.
Proof.
  intros Hd. unfold Visualize.read_graph_from_file.
  rewrite (readlines_written _ _ _ Hd).
  assert (Visualize.skip_header
            ((if is_empty d then [] else [comment_line d])
             ++ pair_line n (Z.of_nat (length edges)) :: (edge_line <$> edges))
          = edge_line <$> edges) as ->.
  { destruct (is_empty d); cbn [app].
    - apply skip_header_pair_line.
    - cbn [Visualize.skip_header].
      destruct (comment_line_strip d) as [r ->]. simpl.
      apply skip_header_pair_line. }
  induction edges as [|[u v] edges IH]; [done|].
  rewrite fmap_cons. cbn [omap list_omap]. unfold edge_line at 1.
  fold (pair_line (u, v).1 (u, v).2). cbn [fst snd].
  rewrite visualize_edge_of_pair_line. f_equal. exact IH.
Qed.

Lemma visualizer_reads_written_graph_witness :
  single_line "path" = true
  /\ Visualize.read_graph_from_file (written 3 [(0, 1); (1, 2)] "path")
     = [(0, 1); (1, 2)].
Proof.
  split; [reflexivity|].
  exact (visualizer_reads_written_graph 3 [(0, 1); (1, 2)] "path" eq_refl).
Defined.

End WrittenGraphs.

(** ** Commas in edge rows *)

Module CommaFacts.
Import Py PySpec PyFacts TextSpec TextFacts LineFacts Corpus DatasetSpec DatasetFacts.

Local Abbreviation commas_to_blanks := (replace_char "," " ").

Lemma space_not_comma c : isspace_char c = true -> Ascii.eqb c "," = false.
Proof.
  intros H. apply Ascii.eqb_neq. intros ->. by vm_compute in H.
Qed.

Lemma replace_space (w : string) :
  all_chars isspace_char w = true -> commas_to_blanks w = w.
Proof.
  induction w as [|c w IH]; [done|]. simpl.
  intros [Hc Hw]%andb_true_iff. by rewrite (space_not_comma c Hc), (IH Hw).
Qed.

Lemma replace_app (u v : string) :
  commas_to_blanks (u +:+ v) = commas_to_blanks u +:+ commas_to_blanks v.
Proof.
  induction u as [|c u IH]; [done|]. rewrite app_cons. simpl.
  by rewrite app_cons, <- IH.
Qed.

Lemma replaced_has_no_comma (s : string) : no_comma (commas_to_blanks s) = true.
Proof.
  unfold no_comma. induction s as [|c s IH]; [done|]. simpl. rewrite IH.
  by destruct (Ascii.eqb c ",") eqn:E; [|rewrite E].
Qed.

Lemma lstrip_split_off (s : string) :
  exists w, all_chars isspace_char w = true /\ s = w +:+ lstrip s.
Proof.
  unfold lstrip. induction s as [|c s (w & Hw & IH)]; [by exists EmptyString|].
  simpl. destruct (isspace_char c) eqn:Hc.
  - exists (String c w). simpl. rewrite Hc, Hw. split; [done|].
    by rewrite app_cons, <- IH.
  - by exists EmptyString.
Qed.

Lemma rstrip_split_off (s : string) :
  exists w, all_chars isspace_char w = true /\ s = rstrip s +:+ w.
Proof.
  induction s as [|c s (w & Hw & IH)]; [by exists EmptyString|].
  rewrite rstrip_cons. destruct (all_chars isspace_char (String c s)) eqn:E.
  - by exists (String c s).
  - exists w. split; [done|]. by rewrite app_cons, <- IH.
Qed.

Lemma strip_split_off (s : string) :
  exists w1 w2, all_chars isspace_char w1 = true
    /\ all_chars isspace_char w2 = true
    /\ s = w1 +:+ strip s +:+ w2.
Proof.
  destruct (lstrip_split_off s) as (w1 & H1 & E1).
  destruct (rstrip_split_off (lstrip s)) as (w2 & H2 & E2).
  exists w1, w2. split; [done|]. split; [done|].
  unfold strip. by rewrite <- E2.
Qed.

Lemma lstrip_app_space (w x : string) :
  all_chars isspace_char w = true -> lstrip (w +:+ x) = lstrip x.
Proof. intros Hw. unfold lstrip. by rewrite drop_while_app, Hw. Qed.

Lemma strip_between (w1 x w2 : string) :
  all_chars isspace_char w1 = true -> all_chars isspace_char w2 = true ->
  strip (w1 +:+ x +:+ w2) = strip x.
Proof.
  intros H1 H2. rewrite <- append_assoc, (strip_app_space _ w2 H2).
  unfold strip. by rewrite lstrip_app_space.
Qed.

Lemma strip_replace (line : string) :
  strip (commas_to_blanks line) = strip (commas_to_blanks (strip line)).
Proof.
  destruct (strip_split_off line) as (w1 & w2 & H1 & H2 & E).
  rewrite E at 1. rewrite !replace_app.
  rewrite (replace_space w1), (replace_space w2) by done.
  by apply strip_between.
Qed.

Lemma all_chars_drop_while p q (s : string) :
  all_chars p s = true -> all_chars p (drop_while q s) = true.
Proof.
  induction s as [|c s IH]; [done|]. simpl.
  intros [Hc Hs]%andb_true_iff. destruct (q c); [by apply IH|].
  simpl. by rewrite Hc, Hs.
Qed.

Lemma strip_no_comma (s : string) : no_comma s = true -> no_comma (strip s) = true.
Proof.
  intros H. unfold no_comma, strip, rstrip, lstrip.
  rewrite all_chars_rev. apply all_chars_drop_while.
  rewrite all_chars_rev. by apply all_chars_drop_while.
Qed.

Lemma strip_nonempty_head (s : string) :
  strip s = EmptyString
  \/ exists c r, strip s = String c r /\ isspace_char c = false.
Proof.
  unfold strip. destruct (lstrip_head s) as [-> | (c & r & -> & Hc)]; [by left|].
  right. rewrite rstrip_cons. simpl. rewrite Hc. simpl. eauto.
Qed.

Lemma int_hash (t : string) : int (String "#" t) = None.
Proof.
  unfold int. destruct (strip_int_head "#" t eq_refl) as [r ->]. done.
Qed.

Lemma split_hash (x : string) :
  exists t ts, split (String "#" x) = String "#" t :: ts.
Proof.
  unfold split. simpl. destruct (split_aux x) as [t ts]. simpl. eauto.
Qed.

(** X5: in the edge reader of [run_all.py] a comma counts as a blank: a
    line yields the same edge, or none, once its commas are replaced by
    blanks. *)
Theorem commas_count_as_blanks (line : string) :
  edge_of_line (replace_char "," " " line) = edge_of_line line.
Proof.
  unfold edge_of_line at 1. rewrite strip_replace. unfold edge_of_line.
  set (s := strip line).
  set (r := commas_to_blanks s).
  assert (commas_to_blanks (strip r) = strip r) as ->.
  { apply replace_no_comma, strip_no_comma, replaced_has_no_comma. }
  rewrite split_strip.
  destruct (strip_nonempty_head line) as [E | (c & s' & E & Hc)]; fold s in E.
  - unfold r. by rewrite E.
  - rewrite E. cbn [is_empty].
    assert (lstrip (String c s') = String c s') as ->.
    { unfold lstrip. simpl. by rewrite Hc. }
    destruct (Ascii.eqb c "#") eqn:Hh.
    + apply Ascii.eqb_eq in Hh as ->. 
      assert (r = String "#" (commas_to_blanks s')) as Hr by (unfold r; by rewrite E).
      rewrite Hr. destruct (strip_head "#" (commas_to_blanks s') eq_refl) as [x ->].
      done.
    + assert (startswith (String c s') "#" = false) as ->.
      { simpl. by rewrite Hh. }
      destruct (strip_nonempty_head r) as [Er | (d & x & Er & Hd)].
      * rewrite Er. cbn [is_empty].
        rewrite <- (split_strip r), Er. done.
      * rewrite Er. cbn [is_empty].
        assert (lstrip (String d x) = String d x) as ->.
        { unfold lstrip. simpl. by rewrite Hd. }
        destruct (Ascii.eqb d "#") eqn:Hdh.
        -- apply Ascii.eqb_eq in Hdh as ->.
           rewrite <- (split_strip r), Er.
           destruct (split_hash x) as (t & ts & ->).
           cbn [startswith]. change (Ascii.eqb "#" "#") with true. cbn [andb].
           destruct ts as [|a1 ts]; [done|]. by rewrite int_hash.
        -- assert (startswith (String d x) "#" = false) as ->.
           { simpl. by rewrite Hdh. }
           done.
Qed.

End CommaFacts.

(** ** The header below a comment line *)

Module CountsFacts.
Import Py PySpec PyFacts TextSpec TextFacts LineFacts Corpus CorpusSpec Driver.
Import DriverSpec P1Only HeaderSpec HeaderFacts DatasetSpec DatasetFacts.
Import RoundTrip WrittenGraphs CommaFacts.

Lemma comment_head (line : string) :
  comment line = true -> exists r, strip line = String "#" r.
Proof.
  unfold comment. destruct (strip line) as [|c r]; [done|]. simpl.
  intros [->%Ascii.eqb_eq _]%andb_true_iff. eauto.
Qed.

Lemma edge_of_comment (line : string) :
  comment line = true -> edge_of_line line = None.
Proof.
  intros (r & Hr)%comment_head. unfold edge_of_line. by rewrite Hr.
Qed.

Lemma comment_skipped (line : string) :
  comment line = true -> skipped line = true.
Proof.
  intros H. unfold skipped. unfold comment in H. rewrite H.
  by destruct (is_empty (strip line)).
Qed.

Lemma gen_from_comments (pre rest : list string) :
  Forall (fun l => comment l = true) pre ->
  gen_from_file (pre ++ rest) = gen_from_file rest.
Proof.
  unfold gen_from_file. induction 1 as [|l pre Hl Hpre IH]; [done|].
  cbn [app omap list_omap]. by rewrite (edge_of_comment _ Hl).
Qed.

Lemma pair_line_header (x y : Z) :
  skipped (pair_line x y) = false
  /\ header_of_line (pair_line x y) = Found x y.
Proof.
  unfold skipped, header_of_line.
  rewrite split_strip_pair_line, !int_str, startswith_strip_pair_line.
  split; [|done].
  destruct (strip_pair_line x y) as (c & r & -> & Hc). done.
Qed.

(** [read_header_and_edges] on a file whose first line is a comment: no
    header is seen and the counts are inferred from all the rows *)
Lemma graph_counts_comment_first (content c : string) (rest : list string) :
  readlines content = c :: rest -> comment c = true ->
  graph_counts (Some content)
  = match gen_from_file rest with
    | e :: edges =>
        (Some (max_endpoint e edges + 1), Some (Z.of_nat (length (e :: edges))))
    | [] => (Some 0, Some 0)
    end.
Proof.
  intros Hlines Hc. unfold graph_counts, read_header_and_edges.
  rewrite Hlines. cbn [hd]. destruct (comment_head _ Hc) as [r ->].
  assert (gen_from_file (c :: rest) = gen_from_file rest) as ->.
  { apply (gen_from_comments [c]). by constructor. }
  destruct (split_hash r) as (t & ts & ->).
  destruct ts as [|p1 ts]; [by destruct (gen_from_file rest)|].
  rewrite int_hash. by destruct (gen_from_file rest).
Qed.

(** C5.  [run_p1_only.py] does what the claim says when there is a header
    line: the first line that is not blank, not a comment and has two
    tokens gives the two counts, and [None] for both when the two tokens
    are not integers, after which the turn of the loop ends without an
    exception.  [run_all.py] does so only when the header is the first
    line of the file.  When comment lines stand above the header, as in
    every file that [write_graph] writes with a description, it finds no
    header, reads the header line as one more edge row and infers the
    counts: the number of vertices it records is larger than both numbers
    of the header, and the number of edges is one more than the number of
    rows below the header.  A first line that is no header gives inferred
    numbers as well, never [None].  On the file with the lines [# path],
    [3 2], [0 1], [1 2] it records 4 and 3 where [run_p1_only.py] and
    [read_graph] read 3 and 2. *)
Theorem header_below_comment_is_read_as_an_edge :
  (forall content pre line rest nm n m,
      readlines content = pre ++ line :: rest ->
      Forall (fun l => skipped l = true) pre -> skipped line = false ->
      (header_of_line line = Found n m ->
       read_counts (Some content) nm = Bound (Some n, Some m))
      /\ (header_of_line line = BadInt ->
          read_counts (Some content) nm = Bound (None, None)))
  /\ (forall w st cf text,
        read w cf.2 = Some text ->
        scan_header (readlines text) <> Missing ->
        exists st', P1Only.run_body w st cf = Next st')
  /\ (forall content n m,
        first_line_header content = Some (n, m) ->
        graph_counts (Some content) = (Some n, Some m))
  /\ (forall content c pre rest n m,
        readlines content = c :: pre ++ pair_line n m :: rest ->
        Forall (fun l => comment l = true) (c :: pre) ->
        (forall nm, read_counts (Some content) nm = Bound (Some n, Some m))
        /\ exists n',
             graph_counts (Some content)
             = (Some n', Some (Z.of_nat (length (gen_from_file rest)) + 1))
             /\ n < n' /\ m < n')
  /\ (forall content,
        first_line_header content = None ->
        exists n m, graph_counts (Some content) = (Some n, Some m))
  /\ graph_counts (Some commented_path) = (Some 4, Some 3)
  /\ read_counts (Some commented_path) Unbound = Bound (Some 3, Some 2)
  /\ GraphUtils.read_graph commented_path
     = GraphUtils.Ok (3, [(0, 1); (1, 2)], "path"%string)
  /\ graph_counts (Some malformed_header) = (Some 2, Some 1)
  /\ read_counts (Some malformed_header) Unbound = Bound (None, None).
Proof.
  destruct counts_from_header_or_edges as (H1 & H2 & _ & H4 & _ & H6).
  split; [|split; [|split; [|split; [|split]]]].
  - intros content pre line rest nm n m Hlines Hpre Hline.
    unfold read_counts. rewrite Hlines, (H4 _ _ _ Hpre Hline).
    split; by intros ->.
  - exact H6.
  - exact H1.
  - intros content c pre rest n m Hlines Hcs. split.
    + intros nm. unfold read_counts. rewrite Hlines, app_comm_cons.
      destruct (pair_line_header n m) as [Hs Hh].
      rewrite (H4 (c :: pre) (pair_line n m) rest); [by rewrite Hh| |done].
      eapply Forall_impl; [exact Hcs|]. apply comment_skipped.
    + apply Forall_cons in Hcs as [Hc Hpre].
      rewrite (graph_counts_comment_first _ _ _ Hlines Hc).
      rewrite (gen_from_comments pre _ Hpre).
      unfold gen_from_file at 1 2. cbn [omap list_omap].
      rewrite edge_of_pair_line. fold (gen_from_file rest).
      eexists. split; [f_equal; f_equal; cbn [length]; lia|].
      unfold max_endpoint. cbn [fst snd].
      destruct (max_fold_ge (gen_from_file rest) (Z.max n m)) as [Hge _]. lia.
  - intros content Hnone. destruct (H2 content Hnone) as (n & Hn & _). eauto.
  - repeat split; by vm_compute.
Qed.

End CountsFacts.

(** ** Adjacency lists, edge sets and connectivity *)

Module AdjacencyFacts.
Import GraphUtils GraphSpec.

Lemma position_Some (len : nat) (i : Z) (k : nat) :
  position len i = Some k -> (k < len)%nat /\ - Z.of_nat len <= i < Z.of_nat len.
Proof.
  unfold position.
  destruct (0 <=? i) eqn:H0, (i <? Z.of_nat len) eqn:H1; simpl;
    try (destruct (- Z.of_nat len <=? i) eqn:H2, (i <? 0) eqn:H3; simpl);
    intros [= <-]; lia.
Qed.

Lemma position_None (len : nat) (i : Z) :
  position len i = None -> ~ (- Z.of_nat len <= i < Z.of_nat len).
Proof.
  unfold position.
  destruct (0 <=? i) eqn:H0, (i <? Z.of_nat len) eqn:H1; simpl;
    try (destruct (- Z.of_nat len <=? i) eqn:H2, (i <? 0) eqn:H3; simpl);
    intros [=]; lia.
Qed.

Lemma position_nonneg (len : nat) (i : Z) :
  0 <= i < Z.of_nat len -> position len i = Some (Z.to_nat i).
Proof.
  intros H. unfold position.
  destruct (0 <=? i) eqn:H0, (i <? Z.of_nat len) eqn:H1; simpl; try done; lia.
Qed.

Lemma sum_alter (adj : list (list Z)) (k : nat) (x : Z) :
  (k < length adj)%nat ->
  sum_list (length <$> alter (fun l => l ++ [x]) k adj)
  = S (sum_list (length <$> adj)).
Proof.
  revert k. induction adj as [|l adj IH]; intros k Hk; simpl in Hk; [lia|].
  destruct k as [|k].
  - cbn. rewrite length_app. simpl. lia.
  - cbn. cbn in IH. rewrite (IH k) by lia. lia.
Qed.

Lemma append_at_Ok (adj : list (list Z)) (i x : Z) (adj' : list (list Z)) :
  append_at adj i x = Ok adj' ->
  length adj' = length adj
  /\ sum_list (length <$> adj') = S (sum_list (length <$> adj))
  /\ - Z.of_nat (length adj) <= i < Z.of_nat (length adj).
Proof.
  unfold append_at. destruct (position (length adj) i) as [k|] eqn:Hk; [|done].
  intros [= <-]. apply position_Some in Hk as [Hk Hi].
  split; [by rewrite length_alter|]. split; [|done].
  by apply sum_alter.
Qed.

Lemma append_at_Raise (adj : list (list Z)) (i x : Z) e :
  append_at adj i x = Raise e ->
  e = IndexError /\ ~ (- Z.of_nat (length adj) <= i < Z.of_nat (length adj)).
Proof.
  unfold append_at. destruct (position (length adj) i) as [k|] eqn:Hk; [done|].
  intros [= <-]. split; [done|]. by apply position_None.
Qed.

Lemma foldl_add_edge_Raise e es : foldl add_edge (Raise e) es = Raise e.
Proof. induction es as [|x es IH]; [done|]. exact IH. Qed.

Lemma add_edge_cases (adj : list (list Z)) (e : Z * Z) :
  (exists adj', add_edge (Ok adj) e = Ok adj'
     /\ length adj' = length adj
     /\ sum_list (length <$> adj') = S (S (sum_list (length <$> adj)))
     /\ indexable (Z.of_nat (length adj)) e)
  \/ (add_edge (Ok adj) e = Raise IndexError
      /\ ~ indexable (Z.of_nat (length adj)) e).
Proof.
  unfold add_edge, indexable. cbn [mbind result_bind].
  destruct (append_at adj e.1 e.2) as [adj1|x] eqn:H1.
  - destruct (append_at_Ok _ _ _ _ H1) as (Hl1 & Hs1 & Hi1).
    cbn [mbind result_bind].
    destruct (append_at adj1 e.2 e.1) as [adj2|y] eqn:H2.
    + destruct (append_at_Ok _ _ _ _ H2) as (Hl2 & Hs2 & Hi2).
      left. exists adj2. repeat split; (done || lia).
    + destruct (append_at_Raise _ _ _ _ H2) as [-> H3]. right.
      split; [done|]. intros [_ ?]. apply H3. lia.
  - destruct (append_at_Raise _ _ _ _ H1) as [-> H3]. right.
    split; [done|]. by intros [? _].
Qed.

Lemma foldl_add_edge (adj : list (list Z)) (es : list (Z * Z)) :
  (exists adj', foldl add_edge (Ok adj) es = Ok adj'
     /\ length adj' = length adj
     /\ sum_list (length <$> adj')
        = (sum_list (length <$> adj) + 2 * length es)%nat
     /\ Forall (indexable (Z.of_nat (length adj))) es)
  \/ (foldl add_edge (Ok adj) es = Raise IndexError
      /\ ~ Forall (indexable (Z.of_nat (length adj))) es).
Proof.
  revert adj. induction es as [|e es IH]; intros adj.
  - left. exists adj. repeat split; [simpl; lia|constructor].
  - cbn [foldl].
    destruct (add_edge_cases adj e) as [(adj1 & -> & Hl & Hs & Hi) | [-> Hi]].
    + destruct (IH adj1) as [(adj2 & -> & Hl2 & Hs2 & Hi2) | [-> Hi2]].
      * left. exists adj2. rewrite Hl in *.
        repeat split; [lia|simpl; lia|by constructor].
      * right. split; [done|]. rewrite Hl in Hi2.
        intros H. apply Hi2. by inversion H.
    + right. rewrite foldl_add_edge_Raise. split; [done|].
      intros H. apply Hi. by inversion H. 
Qed.

Lemma sum_replicate_nil (k : nat) :
  sum_list (length <$> replicate k (@nil Z)) = O.
Proof. induction k as [|k IH]; [done|]. simpl. exact IH. Qed.

(** X6: [build_adjacency_list] returns exactly when every endpoint is an
    index that a list of [n] entries accepts, from [-n] to [n - 1]; the
    list then has [n] entries and the lengths of the entries add up to
    twice the number of edges.  Otherwise it raises [IndexError], and
    nothing else. *)
Theorem adjacency_list_handshake (n : Z) (es : list (Z * Z)) :
  match build_adjacency_list n es with
  | Ok adj =>
      Forall (indexable (Z.max 0 n)) es
      /\ length adj = Z.to_nat n
      /\ sum_list (length <$> adj) = (2 * length es)%nat
  | Raise e => e = IndexError /\ ~ Forall (indexable (Z.max 0 n)) es
  end.
Proof.
  unfold build_adjacency_list.
  assert (Z.of_nat (length (replicate (Z.to_nat n) (@nil Z))) = Z.max 0 n) as Hn.
  { rewrite length_replicate. lia. }
  destruct (foldl_add_edge (replicate (Z.to_nat n) []) es)
    as [(adj & -> & Hl & Hs & Hi) | [-> Hi]]; rewrite Hn in Hi.
  - rewrite Hl, Hs, length_replicate, sum_replicate_nil. done.
  - done.
Qed.

End AdjacencyFacts.

Module NeighbourFacts.
Import GraphUtils GraphSpec AdjacencyFacts.

Lemma lookup_alter_app (adj : list (list Z)) (j k : nat) (x : Z) l :
  adj !! k = Some l ->
  alter (fun l => l ++ [x]) j adj !! k
  = Some (l ++ if decide (j = k) then [x] else []).
Proof.
  intros Hl. destruct (decide (j = k)) as [->|Hne].
  - by rewrite list_lookup_alter_eq, Hl.
  - by rewrite list_lookup_alter_ne, Hl, app_nil_r by done.
Qed.

Lemma add_edge_in_range (adj : list (list Z)) (e : Z * Z) :
  in_range (Z.of_nat (length adj)) e ->
  exists adj', add_edge (Ok adj) e = Ok adj'
    /\ length adj' = length adj
    /\ forall (k : nat) l, adj !! k = Some l ->
         adj' !! k = Some (l ++ ends_at (Z.of_nat k) e).
Proof.
  intros [H1 H2]. unfold add_edge, append_at. cbn [mbind result_bind].
  rewrite (position_nonneg _ _ H1). cbn [mbind result_bind].
  rewrite length_alter, (position_nonneg _ _ H2).
  eexists. split; [done|]. split; [by rewrite !length_alter|].
  intros k l Hl. unfold ends_at.
  rewrite (lookup_alter_app _ _ _ _ _ (lookup_alter_app _ _ _ _ _ Hl)).
  rewrite <- app_assoc. do 2 f_equal.
  destruct (decide (Z.to_nat e.1 = k)), (decide (e.1 = Z.of_nat k)),
    (decide (Z.to_nat e.2 = k)), (decide (e.2 = Z.of_nat k)); done || lia.
Qed.

Lemma foldl_add_edge_in_range (adj : list (list Z)) (es : list (Z * Z)) :
  Forall (in_range (Z.of_nat (length adj))) es ->
  exists adj', foldl add_edge (Ok adj) es = Ok adj'
    /\ length adj' = length adj
    /\ forall (k : nat) l, adj !! k = Some l ->
         adj' !! k = Some (l ++ neighbours (Z.of_nat k) es).
Proof.
  revert adj. induction es as [|e es IH]; intros adj Hes.
  - exists adj. repeat split. intros k l ->. by rewrite app_nil_r.
  - apply Forall_cons in Hes as [He Hes]. cbn [foldl].
    destruct (add_edge_in_range adj e He) as (adj1 & -> & Hl1 & Hk1).
    rewrite <- Hl1 in Hes.
    destruct (IH adj1 Hes) as (adj2 & -> & Hl2 & Hk2).
    exists adj2. split; [done|]. split; [lia|].
    intros k l Hl. rewrite (Hk2 k _ (Hk1 k l Hl)).
    by rewrite <- app_assoc.
Qed.

Lemma elem_of_neighbours (u v : Z) (es : list (Z * Z)) :
  v ∈ neighbours u es <-> adjacent es u v.
Proof.
  unfold neighbours, adjacent. rewrite list_elem_of_In, in_flat_map.
  setoid_rewrite <- list_elem_of_In. split.
  - intros ([a b] & Hin & Hv). simpl in Hv.
    apply elem_of_app in Hv as [Hv|Hv]; case_decide; subst;
      try (by apply elem_of_nil in Hv);
      apply list_elem_of_singleton in Hv; subst; auto.
  - intros [H|H]; eexists; (split; [exact H|]); simpl; apply elem_of_app.
    + left. rewrite decide_True by done. apply list_elem_of_singleton. done.
    + right. rewrite decide_True by done. apply list_elem_of_singleton. done.
Qed.

Lemma build_adjacency_list_in_range (n : Z) (es : list (Z * Z)) :
  Forall (in_range n) es ->
  exists adj, build_adjacency_list n es = Ok adj
    /\ length adj = Z.to_nat n
    /\ forall u, 0 <= u < n -> adj !! Z.to_nat u = Some (neighbours u es).
Proof.
  intros Hes. unfold build_adjacency_list.
  destruct (foldl_add_edge_in_range (replicate (Z.to_nat n) []) es)
    as (adj & -> & Hl & Hk).
  { rewrite length_replicate. eapply Forall_impl; [exact Hes|].
    intros e [H1 H2]. split; lia. }
  exists adj. split; [done|]. rewrite length_replicate in Hl. split; [done|].
  intros u Hu. rewrite (Hk (Z.to_nat u) []).
  - by rewrite Z2Nat.id by lia.
  - apply lookup_replicate. split; [done|lia].
Qed.

(** X7: when the endpoints of all edges are vertices [0 .. n-1], entry [u]
    of the adjacency list holds the other ends of the edges at [u], in the
    order of the edge list, so that [v] is in it exactly when [(u, v)] or
    [(v, u)] is an edge. *)
Theorem adjacency_list_neighbours (n : Z) (es : list (Z * Z)) :
  Forall (in_range n) es ->
  exists adj, build_adjacency_list n es = Ok adj
    /\ length adj = Z.to_nat n
    /\ forall u, 0 <= u < n ->
         adj !! Z.to_nat u = Some (neighbours u es)
         /\ forall v, v ∈ neighbours u es <-> ((u, v) ∈ es \/ (v, u) ∈ es).
Proof.
  intros Hes.
  destruct (build_adjacency_list_in_range n es Hes) as (adj & Hb & Hl & Hk).
  exists adj. split; [done|]. split; [done|].
  intros u Hu. split; [by apply Hk|]. intros v. apply elem_of_neighbours.
Qed.

Lemma adjacency_list_neighbours_witness :
  exists adj, build_adjacency_list 4 [(0, 1); (2, 3)] = Ok adj
    /\ length adj = 4%nat
    /\ forall u, 0 <= u < 4 ->
         adj !! Z.to_nat u = Some (neighbours u [(0, 1); (2, 3)])
         /\ forall v, v ∈ neighbours u [(0, 1); (2, 3)]
                      <-> ((u, v) ∈ [(0, 1); (2, 3)] \/ (v, u) ∈ [(0, 1); (2, 3)]).
Proof.
  apply (adjacency_list_neighbours 4 [(0, 1); (2, 3)]).
  repeat constructor; simpl; lia.
Defined.

End NeighbourFacts.

Module EdgeSetFacts.
Import GraphUtils.

Lemma elem_of_edge_fold (es : list (Z * Z)) (s : gset (Z * Z)) (x : Z * Z) :
  x ∈ foldl (fun edge_set e => edge_set ∪ {[ (Z.min e.1 e.2, Z.max e.1 e.2) ]}) s es
  <-> x ∈ s \/ exists e, e ∈ es /\ x = (Z.min e.1 e.2, Z.max e.1 e.2).
Proof.
  revert s. induction es as [|e es IH]; intros s; cbn [foldl].
  - split; [by left|]. intros [H|(e & He & _)]; [done|by apply elem_of_nil in He].
  - rewrite IH, elem_of_union, elem_of_singleton. split.
    + intros [[H| ->]|(e' & He' & ->)]; [by left|right..].
      * exists e. split; [by left|done].
      * exists e'. split; [by right|done].
    + intros [H|(e' & [-> |He']%elem_of_cons & ->)]; [by left; left|by left; right|].
      right. by exists e'.
Qed.

(** X8: the set of [build_edge_list] holds the pair [(a, b)] exactly when
    [a <= b] and the edge list holds the edge in one of its two
    directions: an edge and its reverse are one element. *)
Theorem edge_set_is_normalised (n : Z) (es : list (Z * Z)) (a b : Z) :
  (a, b) ∈ build_edge_list n es <-> (a <= b /\ ((a, b) ∈ es \/ (b, a) ∈ es)).
Proof.
  unfold build_edge_list. rewrite elem_of_edge_fold. split.
  - intros [H|([u v] & He & [= -> ->])]; [by apply not_elem_of_empty in H|].
    simpl. split; [lia|].
    destruct (Z.le_ge_cases u v).
    + left. by rewrite Z.min_l, Z.max_r.
    + right. by rewrite Z.min_r, Z.max_l.
  - intros [Hab [H|H]]; right.
    + exists (a, b). split; [done|]. simpl. by rewrite Z.min_l, Z.max_r.
    + exists (b, a). split; [done|]. simpl. rewrite Z.min_r, Z.max_l by lia. done.
Qed.

End EdgeSetFacts.

Module DfsFacts.
Import GraphUtils GraphSpec AdjacencyFacts NeighbourFacts DfsSpec.

Lemma mono_refl vis : mono vis vis.
Proof. induction vis; constructor; [by intros ?|done]. Qed.

Lemma mono_trans a b c : mono a b -> mono b c -> mono a c.
Proof.
  unfold mono. intros H1 H2. eapply Forall2_trans; [|exact H1|exact H2].
  unfold le_bool. auto.
Qed.

Lemma mono_length a b : mono a b -> length a = length b.
Proof. apply Forall2_length. Qed.

Lemma mono_lookup a b k : mono a b -> a !! k = Some true -> b !! k = Some true.
Proof.
  intros H Ha. destruct (Forall2_lookup_l _ _ _ _ _ H Ha) as (y & Hy & Hle).
  by rewrite Hy, (Hle eq_refl).
Qed.

Lemma mono_insert vis k : mono vis (<[k := true]> vis).
Proof.
  apply Forall2_same_length_lookup_2; [by rewrite length_insert|].
  intros i x y Hx Hy. destruct (decide (k = i)) as [->|Hne].
  - rewrite list_lookup_insert_eq in Hy by (by eapply lookup_lt_Some).
    by intros _; simplify_eq.
  - rewrite list_lookup_insert_ne in Hy by done. by intros ?; simplify_eq.
Qed.

Lemma unvisited_cons b vis :
  unvisited (b :: vis) = ((if b then 0 else 1) + unvisited vis)%nat.
Proof.
  unfold unvisited. rewrite filter_cons. destruct b.
  - by rewrite decide_False by done.
  - by rewrite decide_True by done.
Qed.

Lemma unvisited_mono a b : mono a b -> (unvisited b <= unvisited a)%nat.
Proof.
  induction 1 as [|x y a b Hxy _ IH]; [done|].
  rewrite !unvisited_cons. destruct x, y; try lia.
  by specialize (Hxy eq_refl).
Qed.

Lemma unvisited_insert vis k :
  vis !! k = Some false ->
  unvisited vis = S (unvisited (<[k := true]> vis)).
Proof.
  revert k. induction vis as [|b vis IH]; intros k Hk; [done|].
  destruct k as [|k]; simpl in Hk.
  - simplify_eq. change (<[O := true]> (false :: vis)) with (true :: vis).
    by rewrite !unvisited_cons.
  - change (<[S k := true]> (b :: vis)) with (b :: <[k := true]> vis).
    rewrite !unvisited_cons, (IH k Hk). lia.
Qed.

Lemma lookup_bool (vis : list bool) (k : nat) :
  (k < length vis)%nat -> vis !! k = Some (vis !!! k).
Proof.
  intros Hk. destruct (lookup_lt_is_Some_2 vis k Hk) as [b Hb].
  by rewrite (list_lookup_total_correct _ _ _ Hb).
Qed.

Section dfs.
Variable adj : list (list Z).
Hypothesis Hadj : adj_ok adj.
Let N := length adj.

(** the loop over the neighbours of [v], for a [call] that does what a
    call of [dfs] on an unmarked vertex has to do *)
Lemma visit_loop (call : Z -> list bool -> result (list bool))
    (bound : nat) (v : nat) (vis : list bool) (ns : list Z) (cur : list bool) :
  (forall (u : nat) (c : list bool),
     length c = N -> (u < N)%nat -> c !! u = Some false ->
     (unvisited c <= bound)%nat ->
     exists c', call (Z.of_nat u) c = Ok c' /\ post adj u c c') ->
  (forall u, u ∈ ns -> step adj v (Z.to_nat u) /\ 0 <= u < Z.of_nat N) ->
  length vis = N ->
  mono vis cur ->
  (unvisited cur <= bound)%nat ->
  (forall k, cur !! k = Some true -> vis !! k = Some true \/ rtc (step adj) v k) ->
  (forall k, cur !! k = Some true -> vis !! k = Some false -> k <> v ->
     closed_at adj cur k) ->
  exists cur',
    foldl (visit call) (Ok cur) ns = Ok cur'
    /\ mono cur cur'
    /\ (forall k, cur' !! k = Some true ->
          vis !! k = Some true \/ rtc (step adj) v k)
    /\ (forall k, cur' !! k = Some true -> vis !! k = Some false -> k <> v ->
          closed_at adj cur' k)
    /\ (forall u, u ∈ ns -> cur' !! Z.to_nat u = Some true).
Proof.
  intros Hcall. revert cur.
  induction ns as [|u ns IH]; intros cur Hns Hlen Hmono Hbound Hsound Hclosed.
  - exists cur. split; [done|]. split; [apply mono_refl|].
    split; [done|]. split; [done|]. intros u Hu. by apply elem_of_nil in Hu.
  - destruct (Hns u) as [Hstep Hu]; [by left|].
    assert (length cur = N) as Hlc by (by rewrite <- (mono_length _ _ Hmono)).
    cbn [foldl]. unfold visit at 2. rewrite Hlc.
    rewrite (position_nonneg _ _ Hu).
    assert (exists c1, (if (cur !!! Z.to_nat u : bool) then Ok cur
                        else call u cur) = Ok c1
                       /\ mono cur c1
                       /\ c1 !! Z.to_nat u = Some true
                       /\ (forall k, c1 !! k = Some true ->
                             vis !! k = Some true \/ rtc (step adj) v k)
                       /\ (forall k, c1 !! k = Some true -> vis !! k = Some false ->
                             k <> v -> closed_at adj c1 k))
      as (c1 & -> & Hm1 & Hu1 & Hs1 & Hc1).
    { pose proof (lookup_bool cur (Z.to_nat u)) as Hb.
      rewrite Hlc in Hb. specialize (Hb ltac:(lia)).
      destruct (cur !!! Z.to_nat u) eqn:E.
      - exists cur. split; [done|]. split; [apply mono_refl|]. done.
      - destruct (Hcall (Z.to_nat u) cur Hlc ltac:(lia) Hb Hbound)
          as (c1 & Hc & Hm & Hmark & Hs & Hcl).
        rewrite Z2Nat.id in Hc by lia. exists c1. split; [done|].
        split; [done|]. split; [done|]. split.
        + intros k Hk. destruct (Hs k Hk) as [Hk'|Hk']; [by apply Hsound|].
          right. eapply rtc_l; [exact Hstep|exact Hk'].
        + intros k Hk Hv Hne j Hj.
          pose proof (lookup_bool cur k) as Hck.
          assert (k < length cur)%nat as Hlt.
          { rewrite (mono_length _ _ Hm). by eapply lookup_lt_Some. }
          specialize (Hck Hlt). destruct (cur !!! k) eqn:Ek.
          * eapply mono_lookup; [exact Hm|]. by eapply Hclosed.
          * by eapply Hcl. }
    destruct (IH c1) as (c2 & -> & Hm2 & Hs2 & Hc2 & Hu2).
    + intros w Hw. apply Hns. by right.
    + done.
    + by eapply mono_trans.
    + pose proof (unvisited_mono _ _ Hm1). lia.
    + done.
    + done.
    + exists c2. split; [done|]. split; [by eapply mono_trans|].
      split; [done|]. split; [done|].
      intros w [->|Hw]%elem_of_cons; [|by apply Hu2].
      by eapply mono_lookup.
Qed.

Lemma dfs_post (limit : nat) (v : nat) (vis : list bool) :
  length vis = N -> (v < N)%nat -> vis !! v = Some false ->
  (unvisited vis <= limit)%nat ->
  exists vis', dfs limit adj (Z.of_nat v) vis = Ok vis' /\ post adj v vis vis'.
Proof.
  revert v vis. induction limit as [|limit IH]; intros v vis Hlen Hv Hfalse Hlim.
  { rewrite (unvisited_insert _ _ Hfalse) in Hlim. lia. }
  cbn [dfs]. rewrite Hlen.
  rewrite (position_nonneg N (Z.of_nat v)) by lia. fold N.
  rewrite (position_nonneg N (Z.of_nat v)) by lia. rewrite Nat2Z.id.
  destruct (lookup_lt_is_Some_2 adj v Hv) as [l Hl].
  rewrite (list_lookup_total_correct _ _ _ Hl).
  set (vis1 := <[v := true]> vis).
  destruct (visit_loop (dfs limit adj) limit v vis l vis1)
    as (vis' & -> & Hm & Hs & Hc & Hu).
  - intros u c Hc Hu Hcu Hb. by apply IH.
  - intros u Hu. pose proof (Hadj v l u Hl Hu). split; [|done].
    exists l. split; [done|]. by rewrite Z2Nat.id by lia.
  - done.
  - apply mono_insert.
  - unfold vis1. rewrite (unvisited_insert _ _ Hfalse) in Hlim. lia.
  - intros k Hk. destruct (decide (k = v)) as [->|Hne]; [by right|].
    left. unfold vis1 in Hk. by rewrite list_lookup_insert_ne in Hk.
  - intros k Hk Hkf Hne. unfold vis1 in Hk.
    rewrite list_lookup_insert_ne in Hk by done. congruence.
  - exists vis'. split; [done|]. split; [|split; [|split]].
    + eapply mono_trans; [apply mono_insert|exact Hm].
    + eapply mono_lookup; [exact Hm|]. unfold vis1.
      apply list_lookup_insert_eq. lia.
    + done.
    + intros k Hk Hkf. destruct (decide (k = v)) as [->|Hne]; [|by apply Hc].
      intros j (l' & Hl' & Hj). simplify_eq.
      specialize (Hu _ Hj). by rewrite Nat2Z.id in Hu.
Qed.

(** after [dfs(0)] on a fresh [visited], the marked vertices are the
    ones that a path joins to vertex [0] *)
Lemma dfs_marks_reachable (limit : nat) :
  (0 < N)%nat -> (N <= limit)%nat ->
  exists vis, dfs limit adj 0 (replicate N false) = Ok vis
    /\ length vis = N
    /\ forall k, vis !! k = Some true <-> ((k < N)%nat /\ rtc (step adj) O k).
Proof.
  intros HN Hlim.
  assert (unvisited (replicate N false) = N) as Hun.
  { clear. induction N as [|n IH]; [done|].
    cbn [replicate]. rewrite unvisited_cons, IH. done. }
  destruct (dfs_post limit O (replicate N false))
    as (vis & Hd & Hm & H0 & Hs & Hc).
  - apply length_replicate.
  - done.
  - by apply lookup_replicate.
  - lia.
  - exists vis. split; [exact Hd|].
    assert (length vis = N) as Hlen.
    { by rewrite <- (mono_length _ _ Hm), length_replicate. }
    split; [done|]. intros k. split.
    + intros Hk. split; [rewrite <- Hlen; by eapply lookup_lt_Some|].
      destruct (Hs k Hk) as [Hk'|Hk']; [|done].
      by apply lookup_replicate in Hk' as [? _].
    + intros [_ Hr]. revert k Hr.
      apply (rtc_ind_r (fun k => vis !! k = Some true)); [exact H0|].
      intros b c _ Hbc IH. eapply (Hc b IH); [|exact Hbc].
      apply lookup_replicate. split; [done|].
      rewrite <- Hlen. by eapply lookup_lt_Some.
Qed.

End dfs.

End DfsFacts.

Module ConnectivityFacts.
Import GraphUtils GraphSpec AdjacencyFacts NeighbourFacts DfsSpec DfsFacts.

Lemma length_falses off vis : length (falses off vis) = unvisited vis.
Proof.
  revert off. induction vis as [|b vis IH]; intros off; [done|].
  cbn [falses]. rewrite length_app, IH, unvisited_cons. by destruct b.
Qed.

Lemma elem_of_falses off vis k :
  k ∈ falses off vis <-> exists i, k = (off + i)%nat /\ vis !! i = Some false.
Proof.
  revert off. induction vis as [|b vis IH]; intros off; cbn [falses].
  - split; [by intros ?%elem_of_nil|by intros (i & _ & ?)].
  - rewrite elem_of_app, IH. split.
    + intros [H|(i & -> & Hi)].
      * destruct b; [by apply elem_of_nil in H|].
        apply list_elem_of_singleton in H as ->. exists O. split; [lia|done].
      * exists (S i). split; [lia|done].
    + intros ([|i] & -> & Hi); simpl in Hi.
      * simplify_eq. left. rewrite Nat.add_0_r. by apply list_elem_of_singleton.
      * right. exists i. split; [lia|done].
Qed.

Lemma NoDup_falses off vis : NoDup (falses off vis).
Proof.
  revert off. induction vis as [|b vis IH]; intros off; cbn [falses].
  - constructor.
  - destruct b; [apply IH|]. cbn [app]. constructor; [|apply IH].
    rewrite elem_of_falses. intros (i & ? & _). lia.
Qed.

Lemma all_true vis :
  all vis = true <-> forall k, (k < length vis)%nat -> vis !! k = Some true.
Proof.
  unfold all. rewrite forallb_forall. setoid_rewrite <- list_elem_of_In. split.
  - intros H k Hk. destruct (lookup_lt_is_Some_2 vis k Hk) as [b Hb].
    rewrite Hb. f_equal. apply H. by eapply list_elem_of_lookup_2.
  - intros H b [k Hk]%list_elem_of_lookup_1.
    rewrite (H k) in Hk by (by eapply lookup_lt_Some). by simplify_eq.
Qed.

Section graph.
Variable n : Z.
Variable es : list (Z * Z).
Variable adj : list (list Z).
Hypothesis Hes : Forall (in_range n) es.
Hypothesis Hlen : length adj = Z.to_nat n.
Hypothesis Hadj : forall u, 0 <= u < n -> adj !! Z.to_nat u = Some (neighbours u es).

Lemma adjacent_in_range u v : adjacent es u v -> 0 <= u < n /\ 0 <= v < n.
Proof.
  rewrite Forall_forall in Hes.
  intros [H|H]; destruct (Hes _ H) as [? ?]; simpl in *; lia.
Qed.

Lemma neighbours_adj_ok : adj_ok adj.
Proof.
  intros k l u Hl Hu.
  assert (k < length adj)%nat as Hk by (by eapply lookup_lt_Some).
  rewrite <- (Nat2Z.id k), Hadj in Hl by lia. simplify_eq.
  apply elem_of_neighbours, adjacent_in_range in Hu. lia.
Qed.

Lemma step_adjacent (a b : nat) :
  step adj a b <-> adjacent es (Z.of_nat a) (Z.of_nat b).
Proof.
  split.
  - intros (l & Hl & Hb).
    assert (a < length adj)%nat as Ha by (by eapply lookup_lt_Some).
    rewrite <- (Nat2Z.id a), Hadj in Hl by lia. simplify_eq.
    by apply elem_of_neighbours.
  - intros H. pose proof (adjacent_in_range _ _ H) as [Ha Hb].
    exists (neighbours (Z.of_nat a) es). split.
    + pose proof (Hadj (Z.of_nat a) Ha) as H'. by rewrite Nat2Z.id in H'.
    + by apply elem_of_neighbours.
Qed.

Lemma rtc_step_reachable (k : nat) :
  (0 < n) ->
  ((k < length adj)%nat /\ rtc (step adj) O k)
  <-> (0 <= Z.of_nat k < n /\ reachable es 0 (Z.of_nat k)).
Proof.
  intros Hn. split.
  - intros [Hk Hr]. split; [lia|]. clear Hk. revert k Hr.
    apply (rtc_ind_r (fun k => reachable es 0 (Z.of_nat k)) O).
    + apply rtc_refl.
    + intros b c _ Hbc IH. eapply rtc_r; [exact IH|]. by apply step_adjacent.
  - intros [Hk Hr]. split; [lia|]. clear Hk.
    assert (forall u v, reachable es u v -> 0 <= u < n ->
              0 <= v < n /\ rtc (step adj) (Z.to_nat u) (Z.to_nat v)) as H.
    { clear k Hr. intros u v Hr. induction Hr as [a|a b c Hab _ IH]; intros Ha.
      - split; [done|apply rtc_refl].
      - pose proof (adjacent_in_range _ _ Hab) as [_ Hb].
        destruct (IH Hb) as [Hc Hr]. split; [done|].
        eapply rtc_l; [|exact Hr]. apply step_adjacent.
        by rewrite !Z2Nat.id by lia. }
    destruct (H 0 (Z.of_nat k) Hr ltac:(lia)) as [_ Hr'].
    by rewrite Nat2Z.id in Hr'.
Qed.

End graph.

(** X9: for a graph with at least one vertex whose edges join vertices
    [0 .. n-1], and an interpreter that still allows [n] nested calls,
    [get_graph_properties] returns; [is_connected] is true exactly when a
    path joins every vertex to vertex [0]; [num_components] is 1 then,
    and otherwise one more than the number of vertices that no path joins
    to vertex [0]. *)
Theorem depth_first_search_finds_reachable (limit : nat) (n : Z)
    (es : list (Z * Z)) :
  0 < n -> Forall (in_range n) es -> (Z.to_nat n <= limit)%nat ->
  exists p, get_graph_properties limit n es = Ok p
    /\ (is_connected p = true <-> forall v, 0 <= v < n -> reachable es 0 v)
    /\ exists unreached : list Z,
         NoDup unreached
         /\ (forall v, v ∈ unreached <-> (0 <= v < n /\ ~ reachable es 0 v))
         /\ num_components p
            = if is_connected p then 1 else Z.of_nat (length unreached) + 1.
Proof.
  intros Hn Hes Hlim. unfold get_graph_properties.
  destruct (build_adjacency_list_in_range n es Hes)
    as (adj & -> & Hlen & Hadj).
  cbn [mbind result_bind].
  assert ((0 <? n) = true) as -> by lia.
  pose proof (neighbours_adj_ok n es adj Hes Hlen Hadj) as Hok.
  destruct (dfs_marks_reachable adj Hok limit) as (vis & Hd & Hlv & Hvis);
    [lia|lia|].
  rewrite Hlen in Hd. rewrite Hd. cbn [mbind result_bind].
  eexists. split; [reflexivity|]. cbn [is_connected num_components].
  assert (forall k, vis !! k = Some true
            <-> (0 <= Z.of_nat k < n /\ reachable es 0 (Z.of_nat k))) as Hmark.
  { intros k. rewrite Hvis.
    apply (rtc_step_reachable n es adj Hes Hlen Hadj k Hn). }
  split.
  - rewrite all_true. split.
    + intros H v Hv. destruct (proj1 (Hmark (Z.to_nat v))) as [_ Hr].
      * apply H. lia.
      * by rewrite Z2Nat.id in Hr by lia.
    + intros H k Hk. apply Hmark. split; [lia|]. apply H. lia.
  - exists (Z.of_nat <$> falses O vis). split; [|split].
    + apply NoDup_fmap; [apply _|apply NoDup_falses].
    + intros v. rewrite list_elem_of_fmap. setoid_rewrite elem_of_falses. split.
      * intros (k & -> & i & -> & Hi). simpl.
        assert (i < length vis)%nat by (by eapply lookup_lt_Some).
        split; [lia|]. intros Hr.
        assert (vis !! i = Some true) by (apply Hmark; split; [lia|done]).
        congruence.
      * intros [Hv Hr]. exists (Z.to_nat v). split; [lia|].
        exists (Z.to_nat v). split; [done|].
        rewrite (lookup_bool vis (Z.to_nat v)) by lia.
        destruct (vis !!! Z.to_nat v) eqn:E; [|done].
        exfalso. apply Hr.
        destruct (proj1 (Hmark (Z.to_nat v))) as [_ Hr'].
        -- rewrite (lookup_bool vis (Z.to_nat v)) by lia. by rewrite E.
        -- by rewrite Z2Nat.id in Hr' by lia.
    + rewrite length_fmap, length_falses. by destruct (all vis).
Qed.

Lemma depth_first_search_finds_reachable_witness :
  exists p, get_graph_properties 4 4 [(0, 1); (2, 3)] = Ok p
    /\ (is_connected p = true
        <-> forall v, 0 <= v < 4 -> reachable [(0, 1); (2, 3)] 0 v)
    /\ exists unreached : list Z,
         NoDup unreached
         /\ (forall v, v ∈ unreached
                       <-> (0 <= v < 4 /\ ~ reachable [(0, 1); (2, 3)] 0 v))
         /\ num_components p
            = (if is_connected p then 1 else Z.of_nat (length unreached) + 1).
Proof.
  apply (depth_first_search_finds_reachable 4 4 [(0, 1); (2, 3)]).
  - lia.
  - repeat constructor; simpl; lia.
  - simpl. lia.
Defined.

End ConnectivityFacts.

(** ** The random sparse graphs *)

Module GeneratorFacts.
Import Generator GeneratorSpec.

Lemma joined_mono (e1 e2 : gset (Z * Z)) (u v : Z) :
  e1 ⊆ e2 -> rtc (joined e1) u v -> rtc (joined e2) u v.
Proof.
  intros Hsub. apply rtc_subrel. intros x y [H|H]; [left|right]; by apply Hsub.
Qed.

Lemma add_edge_subseteq (edges : gset (Z * Z)) (u v : Z) :
  edges ⊆ add_edge edges u v.
Proof. unfold add_edge. apply union_subseteq_l. Qed.

Lemma size_add_fresh (edges : gset (Z * Z)) (u v : Z) :
  (Z.min u v, Z.max u v) ∉ edges ->
  size (add_edge edges u v) = S (size edges).
Proof.
  intros H. unfold add_edge. rewrite size_union.
  - rewrite size_singleton. lia.
  - apply disjoint_singleton_r. exact H.
Qed.

Lemma size_add_le (edges : gset (Z * Z)) (u v : Z) :
  (size edges <= size (add_edge edges u v) <= S (size edges))%nat.
Proof.
  destruct (decide ((Z.min u v, Z.max u v) ∈ edges)) as [H|H].
  - assert (add_edge edges u v = edges) as ->.
    { unfold add_edge. rewrite (comm_L (∪)). apply subseteq_union_1_L.
      by apply singleton_subseteq_l. }
    lia.
  - rewrite size_add_fresh by done. lia.
Qed.

Lemma simple_add (n : Z) (edges : gset (Z * Z)) (u v : Z) :
  simple n edges -> 0 <= u < n -> 0 <= v < n -> u <> v ->
  simple n (add_edge edges u v).
Proof.
  intros Hs Hu Hv Hne a b. unfold add_edge.
  rewrite elem_of_union, elem_of_singleton. intros [H|[= -> ->]].
  - by apply Hs.
  - lia.
Qed.

(** the first loop, from the vertex [a] on *)
Lemma spanning_tree_from (k : nat) (a : Z) (edges : gset (Z * Z))
    (us rest : list Z) :
  1 <= a ->
  Forall2 (fun v u => 0 <= u <= v - 1) (seqZ a (Z.of_nat k)) us ->
  simple a edges -> connected_from_0 a edges ->
  Z.of_nat (size edges) = a - 1 ->
  exists edges',
    spanning_tree (seqZ a (Z.of_nat k)) edges (us ++ rest) = inl (edges', rest)
    /\ simple (a + Z.of_nat k) edges'
    /\ connected_from_0 (a + Z.of_nat k) edges'
    /\ Z.of_nat (size edges') = a + Z.of_nat k - 1.
Proof.
  revert a edges us. induction k as [|k IH]; intros a edges us Ha Hus Hs Hc Hsz.
  - change (Z.of_nat 0) with 0 in *. rewrite seqZ_nil in * by lia.
    apply Forall2_nil_inv_l in Hus as ->. exists edges.
    rewrite Z.add_0_r. done.
  - rewrite seqZ_cons in * by lia.
    replace (Z.pred (Z.of_nat (S k))) with (Z.of_nat k) in * by lia.
    apply Forall2_cons_inv_l in Hus as (u & us' & Hu & Hus' & ->).
    cbn [app spanning_tree].
    assert ((Z.min u a, Z.max u a) = (u, a)) as Hmm.
    { by rewrite Z.min_l, Z.max_r by lia. }
    assert ((u, a) ∉ edges) as Hfresh.
    { intros H. apply Hs in H. lia. }
    destruct (IH (Z.succ a) (add_edge edges u a) us') as (edges' & -> & H1 & H2 & H3).
    + lia.
    + done.
    + intros x y. unfold add_edge. rewrite Hmm, elem_of_union, elem_of_singleton.
      intros [H|[= -> ->]]; [apply Hs in H|]; lia.
    + intros v Hv. destruct (decide (v = a)) as [->|Hne].
      * apply rtc_r with u.
        -- eapply joined_mono; [apply add_edge_subseteq|]. apply Hc. lia.
        -- left. unfold add_edge. rewrite Hmm. apply elem_of_union_r.
           by apply elem_of_singleton.
      * eapply joined_mono; [apply add_edge_subseteq|]. apply Hc. lia.
    + rewrite size_add_fresh by (by rewrite Hmm). lia.
    + exists edges'. split; [done|].
      replace (a + Z.of_nat (S k)) with (Z.succ a + Z.of_nat k) by lia. done.
Qed.

(** the second loop keeps what the first has built *)
Lemma more_edges_spec (n target : Z) (draws : list Z) (edges : gset (Z * Z)) :
  vertex_draws_ok n draws -> simple n edges ->
  let p := more_edges target edges draws in
  simple n (edges_of p)
  /\ edges ⊆ edges_of p
  /\ (forall e, p = Done e ->
        Z.of_nat (size e) = Z.max (Z.of_nat (size edges)) target)
  /\ (target <= Z.of_nat (size edges) -> p = Done edges).
Proof.
  revert edges. induction draws as [draws IH] using (induction_ltof1 _ (@length _)).
  unfold ltof in *. intros edges Hd Hs. cbv zeta.
  destruct draws as [|u [|v draws]]; cbn [more_edges];
    destruct (Z.ltb_spec (Z.of_nat (size edges)) target) as [E|E];
    cbn [edges_of];
    try (split; [done|]; split; [done|]; split;
         [by (intros e [= <-]; lia) || done|by (intros; lia) || done]).
  apply Forall_cons in Hd as [Hu Hd]. apply Forall_cons in Hd as [Hv Hd].
  set (edges1 := if decide (u <> v) then add_edge edges u v else edges).
  assert (simple n edges1 /\ edges ⊆ edges1
          /\ (size edges <= size edges1 <= S (size edges))%nat)
    as (Hs1 & Hsub & Hsz).
  { unfold edges1. destruct (decide (u <> v)).
    - split; [apply simple_add; (done || lia)|].
      split; [apply add_edge_subseteq|apply size_add_le].
    - split; [done|]. split; [done|lia]. }
  destruct (IH draws ltac:(simpl; lia) edges1 Hd Hs1) as (H1 & H2 & H3 & H4).
  split; [done|]. split; [by etrans|]. split; [|lia].
  intros e He. rewrite (H3 e He). lia.
Qed.

(** X10: whatever numbers the random generator returns within the bounds
    it is asked for, once the first loop of a sparse test case is done the
    edge set is a graph on the vertices [0 .. n-1] without loops, each
    edge with its smaller end first, and a path joins every vertex to
    vertex [0]; this stays so while the second loop runs.  When the second
    loop ends the set has [max(n - 1, target_edges)] edges, and it ends at
    once when [target_edges <= n - 1]. *)
Theorem sparse_graphs_are_connected (n target : Z) (tree rest : list Z) :
  1 <= n -> tree_draws_ok n tree -> vertex_draws_ok n rest ->
  let p := sparse_edges n target (tree ++ rest) in
  simple n (edges_of p)
  /\ connected_from_0 n (edges_of p)
  /\ (forall e, p = Done e -> Z.of_nat (size e) = Z.max (n - 1) target)
  /\ (target <= n - 1 -> exists e, p = Done e).
Proof.
  intros Hn Htree Hrest. cbv zeta. unfold sparse_edges.
  destruct (spanning_tree_from (Z.to_nat (n - 1)) 1 ∅ tree rest)
    as (edges & Hst & Hs & Hc & Hsz).
  - lia.
  - rewrite Z2Nat.id by lia. exact Htree.
  - intros a b H. by apply not_elem_of_empty in H.
  - intros v Hv. replace v with 0 by lia. apply rtc_refl.
  - by rewrite size_empty.
  - rewrite Z2Nat.id in * by lia. rewrite Hst.
    replace (1 + (n - 1)) with n in * by lia.
    destruct (more_edges_spec n target rest edges Hrest Hs) as (H1 & H2 & H3 & H4).
    split; [done|]. split; [|split].
    + intros v Hv. eapply joined_mono; [exact H2|]. by apply Hc.
    + intros e He. rewrite (H3 e He). lia.
    + intros Ht. exists edges. apply H4. lia.
Qed.

Lemma sparse_graphs_are_connected_witness :
  let p := sparse_edges 4 4 ([0; 1; 0] ++ [2; 3; 1; 1; 0; 3]) in
  simple 4 (edges_of p)
  /\ connected_from_0 4 (edges_of p)
  /\ (forall e, p = Done e -> Z.of_nat (size e) = Z.max (4 - 1) 4)
  /\ (4 <= 4 - 1 -> exists e, p = Done e).
Proof.
  apply (sparse_graphs_are_connected 4 4 [0; 1; 0] [2; 3; 1; 1; 0; 3]).
  - lia.
  - unfold tree_draws_ok. repeat constructor; lia.
  - unfold vertex_draws_ok. repeat constructor; lia.
Defined.

End GeneratorFacts.

(** ** What discovery finds *)

Module DiscoveryFacts.
Import Py PySpec PyFacts Corpus CorpusSpec CorpusFacts.

(** X11: [discover_dataset_files] returns the pair of a category and a path
    exactly when the category is a directory of the data set and the path
    is an entry of that directory whose name ends in [.txt]: entries of
    the data set that are no directories and files with another ending
    are left out, and no graph file is lost. *)
Theorem discovery_finds_exactly_the_txt_files (listing : list dirent)
    (category : string) (fpath : Path) :
  (category, fpath) ∈ discover_dataset_files listing
  <-> exists d, d ∈ listing /\ d_is_dir d = true /\ d_name d = category
        /\ parent fpath = category /\ name fpath ∈ d_children d
        /\ endswith (name fpath) ".txt" = true.
Proof.
  rewrite elem_of_discover. unfold file_in. simpl. split.
  - intros ((d & H1 & H2 & H3 & H4) & H5 & H6). exists d. done.
  - intros (d & H1 & H2 & H3 & H4 & H5 & H6). split; [by exists d|done].
Qed.

End DiscoveryFacts.

(** ** Records and artifacts of the batch driver *)

Module RunFacts.
Import Py PySpec PyFacts Corpus CorpusSpec CorpusFacts Driver DriverSpec DriverFacts.

Lemma record_of_run (w : world) (r : ExecutionRecord) :
  r ∈ results (run w) ->
  exists exe cf, exe ∈ compiled_exes w
    /\ cf ∈ discover_dataset_files (listing w)
    /\ r = outcome_record w exe cf.
Proof.
  rewrite run_results, list_elem_of_In, in_flat_map.
  intros (exe & Hexe%list_elem_of_In & Hr%list_elem_of_In).
  apply list_elem_of_fmap in Hr as (cf & -> & Hcf). eauto.
Qed.

(** X12: at the end of a run of [run_all.py] over a data set with distinct
    names without slashes, the file that a record names as its output
    exists and fits the status of the record: a record with an exit code
    has an elapsed time; a record with the status timeout has none and its
    file holds the text TIMEOUT; a record with the status error has none
    and its file holds the text ERROR and the message.  The algorithm of
    a record is one of the four of [EXEC_NAMES]. *)
Theorem every_record_names_its_artifact (w : world) (r : ExecutionRecord) :
  well_formed (listing w) -> slash_free (listing w) ->
  r ∈ results (run w) ->
  algorithm r ∈ EXEC_NAMES
  /\ exists text,
       fs (run w) !! output r = Some (Text text)
       /\ ((exists rc t, exitcode r = Code rc /\ time r = Some t)
           \/ (exitcode r = Word "timeout" /\ time r = None
               /\ text = "TIMEOUT" +:+ nl)
           \/ (exists msg, exitcode r = Word "error" /\ time r = None
               /\ text = "ERROR: " +:+ msg +:+ nl)).
Proof.
  intros Hwf Hsf Hr.
  destruct (record_of_run w r Hr) as (exe & cf & Hexe & Hcf & ->).
  pose proof (artifacts_at_end w exe cf Hwf Hsf Hexe Hcf) as Hfile.
  split.
  - unfold outcome_record. destruct (graph_counts (read w cf.2)).
    cbn [algorithm]. unfold compiled_exes in Hexe.
    by apply list_elem_of_filter in Hexe as [_ ?].
  - exists (artifact (spawn w exe cf.2)). split.
    + unfold outcome_record. destruct (graph_counts (read w cf.2)).
      cbn [output]. exact Hfile.
    + unfold outcome_record. destruct (graph_counts (read w cf.2)).
      cbn [exitcode time]. destruct (spawn w exe cf.2) as [out rc t|p|msg].
      * left. eauto.
      * right. left. done.
      * right. right. eauto.
Qed.

Lemma every_record_names_its_artifact_witness :
  let w := sample_world (Raised "no such file") in
  let r := outcome_record w "p1"
             ("dense"%string, {| parent := "dense"; name := "dense_01.txt" |}) in
  algorithm r ∈ EXEC_NAMES
  /\ exists text,
       fs (run w) !! output r = Some (Text text)
       /\ ((exists rc t, exitcode r = Code rc /\ time r = Some t)
           \/ (exitcode r = Word "timeout" /\ time r = None
               /\ text = "TIMEOUT" +:+ nl)
           \/ (exists msg, exitcode r = Word "error" /\ time r = None
               /\ text = "ERROR: " +:+ msg +:+ nl)).
Proof.
  intros w r.
  apply (every_record_names_its_artifact w r).
  - split; [by apply (bool_decide_unpack _)|].
    repeat constructor; by apply (bool_decide_unpack _).
  - repeat constructor.
  - apply list_elem_of_In. vm_compute. left. reflexivity.
Defined.


End RunFacts.

(** ** The single-algorithm driver on well-formed data *)

Module P1RunFacts.
Import Py PySpec PyFacts Corpus CorpusSpec CorpusFacts Driver DriverSpec DriverFacts P1Only.

Lemma run_body_bound (w : world) (st : state) (cf : string * Path) x :
  read_counts (read w cf.2) (nm st) = Bound x ->
  exists st' r,
    run_body w st cf = Next st'
    /\ results st' = results st ++ [r]
    /\ nm st' = Bound x
    /\ algorithm r = "p1"%string /\ file r = rel_of cf.2
    /\ (Driver.n r, Driver.m r) = x
    /\ output r = outfile_of w "p1" cf.1 cf.2.
Proof.
  intros Hx. destruct cf as [category fpath]. unfold run_body. simpl in *.
  rewrite Hx. destruct x as [n m].
  destruct (spawn w "p1" fpath) as [out rc t|p|msg];
    unfold append, write_file; cbn [nm results fs];
    do 2 eexists; (split; [reflexivity|]); cbn [results nm]; by repeat split.
Qed.

Lemma read_counts_bound content x :
  exists y, read_counts content (Bound x) = Bound y.
Proof.
  unfold read_counts. destruct content as [text|]; [|eauto].
  destruct (scan_header (readlines text)); eauto.
Qed.

Lemma run_loop_bound (w : world) (files : list (string * Path)) (st : state) x :
  nm st = Bound x ->
  exists st',
    run_loop w st files = Next st'
    /\ file <$> results st'
       = (file <$> results st) ++ ((fun cf => rel_of cf.2) <$> files)
    /\ (Forall (fun r => algorithm r = "p1"%string) (results st) ->
        Forall (fun r => algorithm r = "p1"%string) (results st')).
Proof.
  revert st x. induction files as [|cf files IH]; intros st x Hx.
  - exists st. split; [done|]. split; [by rewrite app_nil_r|done].
  - cbn [run_loop].
    destruct (read_counts_bound (read w cf.2) x) as [y Hy].
    rewrite <- Hx in Hy.
    destruct (run_body_bound w st cf y Hy)
      as (st1 & r & -> & Hres & Hnm & Halg & Hfile & _).
    destruct (IH st1 y Hnm) as (st2 & -> & Hfiles & Hall).
    exists st2. split; [done|]. split.
    + rewrite Hfiles, Hres, fmap_app, fmap_cons, <- app_assoc. simpl.
      by rewrite Hfile.
    + intros H. apply Hall. rewrite Hres. apply Forall_app. split; [done|].
      by repeat constructor.
Qed.

(** X14: when [p1] is there or can be built and the first graph file, if
    there is one, cannot be read or has a line with two tokens, [run] of
    [run_p1_only.py] raises nothing: it appends one record per graph file,
    in the order of discovery and all for [p1], and writes the table. *)
Theorem p1_only_completes_once_counts_are_read (w : world) :
  compile_p1 w = true ->
  (forall cf rest, discover_dataset_files (listing w) = cf :: rest ->
     read_counts (read w cf.2) Unbound <> @Unbound (option Z * option Z)) ->
  exists st,
    run w = Next st
    /\ file <$> results st
       = (fun cf => rel_of cf.2) <$> discover_dataset_files (listing w)
    /\ Forall (fun r => algorithm r = "p1"%string) (results st)
    /\ fs st !! csv_path w = Some (Text (csv_text (results st))).
Proof.
  intros Hc Hfirst. unfold run. rewrite Hc. cbn [negb].
  destruct (discover_dataset_files (listing w)) as [|cf rest] eqn:E.
  - cbn [run_loop]. eexists. split; [reflexivity|].
    unfold write_file. cbn [results fs]. split; [done|]. split; [done|].
    apply lookup_insert_eq.
  - cbn [run_loop]. specialize (Hfirst cf rest eq_refl).
    destruct (read_counts (read w cf.2) Unbound) as [|y] eqn:Hy; [done|].
    set (st0 := {| results := []; fs := disk w; nm := Unbound |}).
    destruct (run_body_bound w st0 cf y Hy)
      as (st1 & r & -> & Hres & Hnm & Halg & Hfile & _).
    destruct (run_loop_bound w rest st1 y Hnm) as (st2 & -> & Hfiles & Hall).
    eexists. split; [reflexivity|].
    unfold write_file. cbn [results fs]. split; [|split].
    + rewrite Hfiles, Hres. simpl. by rewrite Hfile.
    + apply Hall. rewrite Hres. by repeat constructor.
    + apply lookup_insert_eq.
Qed.

Lemma p1_only_completes_once_counts_are_read_witness :
  let w := sample_world (Exited "1 component" 0 (PyFloat "0.004")) in
  exists st,
    run w = Next st
    /\ file <$> results st
       = (fun cf => rel_of cf.2) <$> discover_dataset_files (listing w)
    /\ Forall (fun r => algorithm r = "p1"%string) (results st)
    /\ fs st !! csv_path w
       = Some (Text (csv_text (results st))).
Proof.
  intros w.
  apply (p1_only_completes_once_counts_are_read w).
  - reflexivity.
  - intros cf rest E. vm_compute in E. injection E as <- _. by vm_compute.
Defined.

(** X15: [run_p1_only.py] assigns [n] and [m] only at a header line, so
    the record of a file that can be read and has no such line carries the
    counts that the file before it left. *)
Theorem p1_only_keeps_counts_of_previous_file (w : world) (st : state)
    (cf : string * Path) (text : string) (x : option Z * option Z) :
  nm st = Bound x ->
  read w cf.2 = Some text ->
  scan_header (readlines text) = Missing ->
  exists st' r,
    run_body w st cf = Next st'
    /\ results st' = results st ++ [r]
    /\ file r = rel_of cf.2
    /\ (Driver.n r, Driver.m r) = x.
Proof.
  intros Hx Hread Hmiss.
  destruct (run_body_bound w st cf x) as (st' & r & H1 & H2 & _ & _ & H3 & H4 & _).
  { unfold read_counts. by rewrite Hread, Hmiss. }
  eauto 10.
Qed.

Lemma p1_only_keeps_counts_of_previous_file_witness :
  let w := P1OnlySpec.headerless_world in
  let st := {| results := []; fs := ∅;
               nm := Bound (Some 3, Some 2) |} in
  let cf := ("small"%string, {| parent := "small"; name := "small_01.txt" |}) in
  exists st' r,
    run_body w st cf = Next st'
    /\ results st' = results st ++ [r]
    /\ file r = rel_of cf.2
    /\ (Driver.n r, Driver.m r) = (Some 3, Some 2).
Proof.
  intros w st cf.
  apply (p1_only_keeps_counts_of_previous_file w st cf EmptyString (Some 3, Some 2));
    reflexivity.
Defined.

End P1RunFacts.

Module P1SummaryFacts.
Import Driver P1Summary.

Lemma errors_app (a b : list ExecutionRecord) :
  errors (a ++ b) = (errors a + errors b)%nat.
Proof. unfold errors. by rewrite filter_app, length_app. Qed.

(** X16: the three counts of the summary line of [run_p1_only.py] add up
    to the number of records, and a record with an exit code other than 0
    counts as an error. *)
Theorem summary_counts_every_record_once (results : list ExecutionRecord) :
  (successful results + timeouts results + errors results)%nat = length results
  /\ forall r rc, exitcode r = Code rc -> rc <> 0 ->
       errors (results ++ [r]) = S (errors results).
Proof.
  split.
  - unfold successful, timeouts, errors.
    induction results as [|r rs IH]; [done|].
    rewrite !filter_cons. cbn [length]. rewrite <- IH.
    destruct (decide (exitcode r = Code 0)) as [E|E];
      destruct (decide (exitcode r = Word "timeout")) as [E'|E'];
      destruct (decide (exitcode r <> Code 0 /\ exitcode r <> Word "timeout"))
        as [E''|E'']; cbn [length]; try lia;
      exfalso; try (rewrite E in E'; discriminate); tauto.
  - intros r rc Hr Hrc. rewrite errors_app. unfold errors at 2.
    rewrite filter_cons, decide_True; [simpl; lia|].
    rewrite Hr. split; [|done]. intros [= ?]. done.
Qed.

End P1SummaryFacts.

(** ** The pieces of [re.split] and the dense-only parser *)

Module SplitFacts.
Import Py Memory.

Lemma re_split_go_odd here skip cur (s : string) :
  Nat.odd (length (re_split_go here skip cur s)) = true.
Proof.
  revert skip cur. induction s as [|c s IH]; intros skip cur; [done|].
  cbn [re_split_go]. destruct skip as [|k]; [|apply IH].
  destruct (here (String c s)) as [[len g]|]; [|apply IH].
  cbn [length]. rewrite Nat.odd_succ_succ. apply IH.
Qed.

Lemma pairs_lookup (l : list string) (k : nat) (g t : string) :
  pairs l !! k = Some (g, t)
  <-> l !! (2 * k)%nat = Some g /\ l !! (2 * k + 1)%nat = Some t.
Proof.
  revert l. induction k as [|k IH]; intros [|a [|b l]].
  - split; [done|by intros [? _]].
  - split; [done|by intros [_ ?]].
  - change (Some (a, b) = Some (g, t) <-> Some a = Some g /\ Some b = Some t).
    split; [by intros [= -> ->]|]. intros [H1 H2]. congruence.
  - split; [done|]. intros [H _]. by rewrite lookup_nil in H.
  - split; [done|]. intros [H _].
    rewrite lookup_ge_None_2 in H; [done|simpl; lia].
  - change (pairs (a :: b :: l) !! S k) with (pairs l !! k). rewrite IH.
    replace (2 * S k)%nat with (S (S (2 * k))) by lia.
    replace (S (S (2 * k)) + 1)%nat with (S (S (2 * k + 1))) by lia.
    done.
Qed.

(** X17: [re.split] with one group returns an odd number of pieces, so
    the piece [l[i + 1]] that the loops of the parsers read after the
    group [l[i]] exists for every odd [i]; the pairs that the loops see
    are the pieces [2k + 1] and [2k + 2]. *)
Theorem split_pieces_pair_up (here : string -> option (nat * string))
    (s : string) :
  (forall i, Nat.odd i = true -> (i < length (re_split here s))%nat ->
     is_Some (re_split here s !! (i + 1)%nat))
  /\ (forall k g t,
        odd_pairs (re_split here s) !! k = Some (g, t)
        <-> re_split here s !! (2 * k + 1)%nat = Some g
            /\ re_split here s !! (2 * k + 2)%nat = Some t).
Proof.
  split.
  - intros i Hi Hlt. apply lookup_lt_is_Some_2.
    pose proof (re_split_go_odd here O EmptyString s) as Hodd.
    fold (re_split here s) in Hodd.
    destruct (decide (i + 1 = length (re_split here s))%nat) as [E|E]; [|lia].
    rewrite <- E, Nat.add_1_r, Nat.odd_succ in Hodd.
    rewrite <- Nat.negb_odd, Hi in Hodd. done.
  - intros k g t. unfold odd_pairs.
    destruct (re_split here s) as [|a l]; [by simpl; split; [|intros [? ?]]|].
    cbn [tail]. rewrite pairs_lookup.
    change (l !! (2 * k)%nat) with ((a :: l) !! S (2 * k)).
    change (l !! (2 * k + 1)%nat) with ((a :: l) !! S (2 * k + 1)).
    replace (S (2 * k + 1)) with (2 * k + 2)%nat by lia.
    replace (S (2 * k)) with (2 * k + 1)%nat by lia. done.
Qed.

End SplitFacts.

Module PerfGraphsFacts.
Import Py PySpec Memory MemorySpec PerfGraphs PerfGraphsSpec.








(** the converse fails: a test that is not dense and whose figure is too
    large for a float stops the full parser and not the dense-only one *)
Example full_parser_raises_alone :
  let report := "Algorithm: p1" +:+ nl
                +:+ "Test: sparse_01" +:+ block huge
                +:+ "Test: dense_01" +:+ block "2048" in
  Memory.collect report = Raises OverflowError
  /\ PerfGraphs.collect report
     = Returns [ {| d_algorithm := "p1"; d_test := "dense_01";
                    d_memory_mb := {| num := 2048; shift := 10 |} |} ].
Proof. by vm_compute. Qed.

End PerfGraphsFacts.

(** ** The rows of the graph scripts and the numbers of the report *)

Module RowFacts.
Import Py Cachegrind.

(** X19: when the line scan of the graph scripts yields a row, the report
    parser [parse_cachegrind_output] yields metrics on the same text and
    the two agree: the instructions are [Ir], the L1 instruction misses
    [I1mr], the branches [Bc] and the mispredicts [Bcm]; [l1_d_misses] is
    [D1mr], the read misses alone, and [l1_total_misses] is
    [I1mr + D1mr]. *)
Theorem graph_row_agrees_with_report_metrics (algo : string)
    (lines : list string) (row : CacheRow) :
  scan_lines_for_test algo lines = Some (Some row) ->
  exists m, scan_lines lines = Some m
    /\ cr_algorithm row = algo
    /\ instructions row = Ir m
    /\ l1_i_misses row = I1mr m
    /\ l1_d_misses row = D1mr m
    /\ l1_total_misses row = I1mr m + D1mr m
    /\ branches row = Bc m
    /\ branch_mispredicts row = Bcm m.
Proof.
  induction lines as [|line rest IH]; [done|].
  cbn [scan_lines_for_test scan_lines].
  destruct (contains "PROGRAM TOTALS" line); [|exact IH].
  destruct (numbers_of line) as [numbers|]; [|done].
  cbn [mbind option_bind]. 
  destruct (11 <=? length numbers)%nat; [|done].
  intros [= <-]. eexists. split; [reflexivity|]. done.
Qed.

Lemma graph_row_agrees_with_report_metrics_witness :
  let line := ("1,000 (100.0%) 20 (100.0%) 3 (100.0%) 400 (100.0%) 5 (100.0%) "
               +:+ "6 (100.0%) 70 (100.0%) 8 (100.0%) 9 (100.0%) 100 (100.0%) "
               +:+ "11 (100.0%)  PROGRAM TOTALS")%string in
  let row := {| cr_algorithm := "p1"; instructions := 1000;
                l1_i_misses := 20; l1_d_misses := 5;
                l1_total_misses := 25; branches := 100;
                branch_mispredicts := 11 |} in
  exists m, scan_lines ["Ir I1mr"%string; line] = Some m
    /\ cr_algorithm row = "p1"%string
    /\ instructions row = Ir m
    /\ l1_i_misses row = I1mr m
    /\ l1_d_misses row = D1mr m
    /\ l1_total_misses row = I1mr m + D1mr m
    /\ branches row = Bc m
    /\ branch_mispredicts row = Bcm m.
Proof.
  intros line row.
  apply (graph_row_agrees_with_report_metrics "p1" ["Ir I1mr"%string; line] row).
  by vm_compute.
Defined.

End RowFacts.

Module ReportFacts.
Import Py PySpec PyFacts TextSpec TextFacts DatasetSpec DatasetFacts Report.

Lemma remove_char_app a (s t : string) :
  remove_char a (s +:+ t) = remove_char a s +:+ remove_char a t.
Proof.
  induction s as [|c s IH]; [done|]. rewrite app_cons. simpl.
  destruct (Ascii.eqb c a); [done|]. by rewrite app_cons, IH.
Qed.

Lemma remove_char_rev a (s : string) :
  remove_char a (String.rev s) = String.rev (remove_char a s).
Proof.
  induction s as [|c s IH]; [done|].
  rewrite LineFacts.rev_cons, remove_char_app, IH. simpl.
  destruct (Ascii.eqb c a).
  - by rewrite append_nil_r.
  - by rewrite LineFacts.rev_cons.
Qed.

Lemma remove_group_rev (k : nat) (s : string) :
  remove_char "," (group_rev k s) = remove_char "," s.
Proof.
  revert k. induction s as [|c s IH]; intros k; [done|].
  cbn [group_rev].
  destruct k as [|[|[|[|k]]]]; cbn [remove_char];
    try change (Ascii.eqb "," ",") with true; cbv iota; by rewrite IH.
Qed.

Lemma remove_no_comma (s : string) :
  no_comma s = true -> remove_char "," s = s.
Proof.
  induction s as [|c s IH]; [done|]. simpl.
  intros [Hc Hs]%andb_true_iff. rewrite (IH Hs).
  by destruct (Ascii.eqb c ",").
Qed.

Lemma remove_grouped (s : string) :
  no_comma s = true ->
  remove_char "," (String.rev (group_rev 0 (String.rev s))) = s.
Proof.
  intros Hs. rewrite remove_char_rev, remove_group_rev, remove_char_rev.
  by rewrite rev_involutive, remove_no_comma.
Qed.

(** X20: [format_number] adds commas and nothing else: with the commas
    removed its result is [str(num)], which [int] reads back as [num], and
    for a number that is not negative it passes the [isdigit] test of the
    token scan. *)
Theorem format_number_keeps_the_digits (num : Z) :
  remove_char "," (format_number num) = str num
  /\ int (remove_char "," (format_number num)) = Some num
  /\ (0 <= num -> isdigit (remove_char "," (format_number num)) = true).
Proof.
  assert (remove_char "," (format_number num) = str num) as H.
  { unfold format_number. rewrite remove_char_app, remove_grouped
      by apply str_no_comma.
    destruct num as [|p|p]; try done. }
  rewrite H. split; [done|]. split; [apply int_str|].
  intros Hn. destruct (str_nonneg num Hn) as [Hd _].
  by apply isdecimal_isdigit.
Qed.

End ReportFacts.

Module PathFacts.
Import GraphUtils GraphSpec AdjacencyFacts NeighbourFacts DfsSpec DfsFacts PathSpec.

Lemma neighbours_path_from (u a : Z) (k : nat) :
  neighbours u ((fun i => (i, i + 1)) <$> seqZ a (Z.of_nat k))
  = (if decide (a < u <= a + Z.of_nat k) then [u - 1] else [])
    ++ (if decide (a <= u < a + Z.of_nat k) then [u + 1] else []).
Proof.
  revert a. induction k as [|k IH]; intros a.
  - change (Z.of_nat 0) with 0. rewrite seqZ_nil by lia.
    rewrite !decide_False by lia. done.
  - rewrite seqZ_cons by lia.
    replace (Z.pred (Z.of_nat (S k))) with (Z.of_nat k) by lia.
    rewrite fmap_cons. unfold neighbours in *. cbn [flat_map].
    rewrite (IH (Z.succ a)). unfold ends_at. cbn [fst snd].
    destruct (decide (a = u)), (decide (a + 1 = u)),
      (decide (Z.succ a < u <= Z.succ a + Z.of_nat k)),
      (decide (Z.succ a <= u < Z.succ a + Z.of_nat k)),
      (decide (a < u <= a + Z.of_nat (S k))),
      (decide (a <= u < a + Z.of_nat (S k))); try lia; subst; simpl;
      try done; f_equal; lia.
Qed.

Lemma neighbours_path (n u : Z) :
  0 <= u < n ->
  neighbours u (path n)
  = (if decide (0 < u) then [u - 1] else [])
    ++ (if decide (u < n - 1) then [u + 1] else []).
Proof.
  intros Hu. unfold path. rewrite <- (Z2Nat.id (n - 1)) by lia.
  rewrite neighbours_path_from. rewrite Z2Nat.id by lia.
  destruct (decide (0 < u)), (decide (u < n - 1)),
    (decide (0 < u <= 0 + (n - 1))), (decide (0 <= u < 0 + (n - 1)));
    try lia; done.
Qed.

Lemma path_in_range (n : Z) : Forall (in_range n) (path n).
Proof.
  unfold path. apply Forall_fmap, Forall_forall. intros i Hi.
  apply elem_of_seqZ in Hi. unfold in_range. simpl. lia.
Qed.

Lemma visited_below_length (n v : nat) :
  (v <= n)%nat -> length (visited_below n v) = n.
Proof. intros H. unfold visited_below. rewrite length_app, !length_replicate. lia. Qed.

Lemma visited_below_insert (n v : nat) :
  (v < n)%nat -> <[v := true]> (visited_below n v) = visited_below n (S v).
Proof.
  intros H. unfold visited_below.
  rewrite insert_app_r_alt by (rewrite length_replicate; lia).
  rewrite length_replicate, Nat.sub_diag.
  destruct (n - v)%nat as [|k] eqn:E; [lia|].
  replace (n - S v)%nat with k by lia.
  rewrite (replicate_S_end v), <- app_assoc. done.
Qed.

Lemma visited_below_true (n v i : nat) :
  (i < v)%nat -> (v <= n)%nat -> visited_below n v !!! i = true.
Proof.
  intros H1 H2. apply list_lookup_total_correct. unfold visited_below.
  rewrite lookup_app_l by (rewrite length_replicate; lia).
  apply lookup_replicate. split; [done|lia].
Qed.

Lemma visited_below_false (n v i : nat) :
  (v <= i)%nat -> (i < n)%nat -> visited_below n v !!! i = false.
Proof.
  intros H1 H2. apply list_lookup_total_correct. unfold visited_below.
  rewrite lookup_app_r by (rewrite length_replicate; lia).
  rewrite length_replicate. apply lookup_replicate. split; [done|lia].
Qed.

Section path.
Variable n : nat.
Variable adj : list (list Z).
Hypothesis Hlen : length adj = n.
Hypothesis Hadj : forall u : nat, (u < n)%nat ->
  adj !! u = Some (neighbours (Z.of_nat u) (path (Z.of_nat n))).

(** on a path every call of [dfs] is nested in the one before *)
Lemma dfs_path_too_deep (limit v : nat) :
  (v < n)%nat -> (limit < n - v)%nat ->
  dfs limit adj (Z.of_nat v) (visited_below n v) = Raise RecursionError.
Proof.
  revert v. induction limit as [|limit IH]; intros v Hv Hlim; [done|].
  cbn [dfs]. rewrite visited_below_length, Hlen by lia.
  rewrite (position_nonneg n (Z.of_nat v)) by lia. rewrite Nat2Z.id.
  rewrite visited_below_insert by done.
  rewrite (list_lookup_total_correct _ _ _ (Hadj v Hv)).
  rewrite neighbours_path by lia.
  assert (forall vis, length vis = n -> vis !!! S v = false ->
            visit (dfs limit adj) (Ok vis) (Z.of_nat v + 1)
            = dfs limit adj (Z.of_nat (S v)) vis) as Hnext.
  { intros vis Hl Hf. unfold visit. rewrite Hl.
    rewrite (position_nonneg n (Z.of_nat v + 1)) by lia.
    replace (Z.to_nat (Z.of_nat v + 1)) with (S v) by lia. rewrite Hf.
    f_equal. lia. }
  rewrite (decide_True (P := Z.of_nat v < Z.of_nat n - 1)) by lia.
  destruct (decide (0 < Z.of_nat v)) as [H0|H0]; cbn [app foldl].
  - unfold visit at 2. rewrite visited_below_length by lia.
    rewrite (position_nonneg n (Z.of_nat v - 1)) by lia.
    rewrite visited_below_true by lia.
    rewrite Hnext.
    + apply IH; lia.
    + apply visited_below_length. lia.
    + apply visited_below_false; lia.
  - rewrite Hnext.
    + apply IH; lia.
    + apply visited_below_length. lia.
    + apply visited_below_false; lia.
Qed.

End path.

(** X21: on the path [0 - 1 - ... - (n-1)] with at least one vertex,
    [get_graph_properties] returns a result exactly when the interpreter
    allows [n] nested calls of [dfs]; with fewer it raises
    [RecursionError], since every call on a path is made inside the one
    for the vertex before. *)
Theorem path_needs_one_call_per_vertex (limit : nat) (n : Z) :
  0 < n ->
  (exists p, get_graph_properties limit n (path n) = Ok p)
  <-> (Z.to_nat n <= limit)%nat.
Proof.
  intros Hn. split.
  - intros [p Hp]. destruct (decide (Z.to_nat n <= limit)%nat) as [|Hlt]; [done|].
    exfalso. unfold get_graph_properties in Hp.
    destruct (build_adjacency_list_in_range n (path n) (path_in_range n))
      as (adj & Hb & Hlen & Hadj).
    rewrite Hb in Hp. cbn [mbind result_bind] in Hp.
    assert ((0 <? n) = true) as E by lia. rewrite E in Hp.
    assert (replicate (Z.to_nat n) false = visited_below (Z.to_nat n) 0) as Hv.
    { unfold visited_below. cbn [replicate app]. f_equal. lia. }
    rewrite Hv in Hp.
    rewrite (dfs_path_too_deep (Z.to_nat n) adj Hlen) with (v := O) in Hp;
      [done| |lia|lia].
    intros u Hu. pose proof (Hadj (Z.of_nat u) ltac:(lia)) as Hu'.
    rewrite Nat2Z.id in Hu'. by rewrite Z2Nat.id by lia.
  - intros Hlim. unfold get_graph_properties.
    destruct (build_adjacency_list_in_range n (path n) (path_in_range n))
      as (adj & -> & Hlen & Hadj).
    cbn [mbind result_bind]. assert ((0 <? n) = true) as -> by lia.
    destruct (dfs_marks_reachable adj) with (limit := limit) as (vis & Hd & _).
    + apply (ConnectivityFacts.neighbours_adj_ok n (path n) adj
               (path_in_range n) Hlen Hadj).
    + lia.
    + lia.
    + rewrite Hlen in Hd. rewrite Hd. cbn [mbind result_bind]. eauto.
Qed.

Lemma path_needs_one_call_per_vertex_witness :
  0 < 3
  /\ ((exists p, get_graph_properties 2 3 (path 3) = Ok p)
      <-> (Z.to_nat 3 <= 2)%nat).
Proof.
  split; [lia|]. apply (path_needs_one_call_per_vertex 2 3). lia.
Defined.

End PathFacts.


Module ReadGraphFacts.
Import Py Corpus GraphUtils ReadGraphSpec.

Lemma skip_comments_rest (d : string) (lines : list string) :
  (skip_comments d lines).2 = [] <-> Forall comment lines.
Proof.
  revert d. induction lines as [|line lines IH]; intros d; cbn [skip_comments].
  - done.
  - destruct (startswith (strip line) "#") eqn:E.
    + rewrite IH. split; [by constructor|]. by intros [_ ?]%Forall_cons.
    + cbn [snd]. split; [done|]. intros [H _]%Forall_cons.
      unfold comment in H. congruence.
Qed.

Lemma read_edges_error (acc : list (Z * Z)) (lines : list string) e :
  read_edges acc lines = Raise e -> e = ValueError.
Proof.
  revert acc. induction lines as [|line lines IH]; intros acc; cbn [read_edges].
  - done.
  - destruct (split (strip line)) as [|p0 [|p1 ps]]; try apply IH.
    destruct (int p0), (int p1); try apply IH; by intros [= <-].
Qed.

(** X22: [read_graph] raises [IndexError] exactly when every line of the
    file is a comment line (an empty file included): [lines[idx]] is then
    read past the end.  Every other exception it raises is a
    [ValueError], from a header or an edge line that [int] refuses or a
    header that has not two fields. *)
Theorem read_graph_needs_a_header_line (content : string) :
  (read_graph content = Raise IndexError
   <-> Forall comment (readlines content))
  /\ (forall e, read_graph content = Raise e ->
        e = IndexError \/ e = ValueError).
Proof.
  unfold read_graph.
  pose proof (skip_comments_rest EmptyString (readlines content)) as Hrest.
  destruct (skip_comments EmptyString (readlines content)) as [d rest].
  cbn [snd] in Hrest. destruct rest as [|header body].
  - split; [|intros e [= <-]; by left].
    split; [intros _; by apply Hrest|done].
  - assert (forall e,
      match split header with
      | [p0; p1] =>
          match int p0, int p1 with
          | Some n, Some m =>
              edges ← read_edges [] (take (Z.to_nat m) body);
              Ok (n, edges, strip d)
          | _, _ => Raise ValueError
          end
      | _ => Raise ValueError
      end = Raise e -> e = ValueError) as Hv.
    { intros e. destruct (split header) as [|p0 [|p1 [|p2 ps]]];
        try (by intros [= <-]).
      destruct (int p0), (int p1); try (by intros [= <-]).
      destruct (read_edges [] (take (Z.to_nat z0) body)) as [es|e'] eqn:E;
        cbn [mbind result_bind]; [done|].
      intros [= <-]. by apply read_edges_error in E. }
    split.
    + split.
      * intros H. by apply Hv in H.
      * intros H. by apply Hrest in H.
    + intros e H. right. by apply Hv.
Qed.

End ReadGraphFacts.

Module ScanFacts.
Import Py Cachegrind CachegrindSpec CachegrindFacts.

(** X23: when the first line with [PROGRAM TOTALS] has fewer than eleven
    numbers, the scan of the graph scripts stops there and reports no
    entry ([break]), whatever follows, while the scan of
    [parse_cachegrind_file] goes on and answers as it does on the lines
    after it. *)
Theorem graph_scan_stops_at_first_marker (algo : string)
    (pre : list string) (line : string) (post : list string) (q : list Z) :
  Forall (fun l => contains "PROGRAM TOTALS" l = false) pre ->
  contains "PROGRAM TOTALS" line = true ->
  numbers_of line = Some q -> (length q < 11)%nat ->
  scan_lines_for_test algo (pre ++ line :: post) = Some None
  /\ scan_lines (pre ++ line :: post) = scan_lines post.
Proof.
  intros Hpre Hline Hq Hlen.
  assert ((11 <=? length q)%nat = false) as E by (apply Nat.leb_gt; lia).
  induction Hpre as [|l pre Hl Hpre IH].
  - cbn [app scan_lines_for_test scan_lines]. rewrite Hline, Hq.
    cbn [mbind option_bind]. by rewrite E.
  - rewrite <- app_comm_cons. cbn [scan_lines_for_test scan_lines].
    rewrite Hl. exact IH.
Qed.

Lemma graph_scan_stops_at_first_marker_witness :
  let short := "1,000 (100.0%) 20 (100.0%)  PROGRAM TOTALS"%string in
  let full := ("1,000 (100.0%) 20 (100.0%) 3 (100.0%) 400 (100.0%) 5 (100.0%) "
               +:+ "6 (100.0%) 70 (100.0%) 8 (100.0%) 9 (100.0%) 100 (100.0%) "
               +:+ "11 (100.0%)  PROGRAM TOTALS")%string in
  scan_lines_for_test "p1" (["Ir I1mr"%string] ++ short :: [full]) = Some None
  /\ scan_lines (["Ir I1mr"%string] ++ short :: [full]) = scan_lines [full].
Proof.
  intros short full.
  apply (graph_scan_stops_at_first_marker "p1" ["Ir I1mr"%string] short [full]
           [1000; 20]).
  - by repeat constructor.
  - reflexivity.
  - by vm_compute.
  - simpl. lia.
Defined.

End ScanFacts.

Module OrderFacts.
Import Py Corpus CorpusSpec Driver DriverSpec DriverFacts.

Lemma outcome_record_fields (w : world) (exe : string) (cf : string * Path) :
  algorithm (outcome_record w exe cf) = exe
  /\ category (outcome_record w exe cf) = cf.1
  /\ file (outcome_record w exe cf) = rel_of cf.2.
Proof. unfold outcome_record. by destruct (graph_counts (read w cf.2)). Qed.

Lemma algorithms_of_inner_loop (w : world) (exe : string)
    (files : list (string * Path)) :
  algorithm <$> (outcome_record w exe <$> files) = replicate (length files) exe.
Proof.
  induction files as [|cf files IH]; [done|].
  rewrite !fmap_cons. cbn [length replicate].
  f_equal; [apply outcome_record_fields|exact IH].
Qed.

Lemma files_of_inner_loop (w : world) (exe : string)
    (files : list (string * Path)) :
  file <$> (outcome_record w exe <$> files) = (fun cf => rel_of cf.2) <$> files.
Proof.
  induction files as [|cf files IH]; [done|].
  rewrite !fmap_cons. f_equal; [apply outcome_record_fields|exact IH].
Qed.

(** X24: the records of a run come algorithm by algorithm, in the order
    of [EXEC_NAMES] restricted to the executables that exist, and for each
    algorithm file by file in the order of the discovery: every
    executable that exists has one record per discovered file. *)
Theorem records_follow_the_loops (w : world) :
  let files := discover_dataset_files (listing w) in
  algorithm <$> results (run w)
  = flat_map (fun exe => replicate (length files) exe) (compiled_exes w)
  /\ file <$> results (run w)
     = flat_map (fun _ => (fun cf => rel_of cf.2) <$> files) (compiled_exes w)
  /\ compiled_exes w `sublist_of` EXEC_NAMES.
Proof.
  cbv zeta. rewrite run_results. split; [|split].
  - induction (compiled_exes w) as [|exe exes IH]; [done|].
    cbn [flat_map]. by rewrite fmap_app, IH, algorithms_of_inner_loop.
  - induction (compiled_exes w) as [|exe exes IH]; [done|].
    cbn [flat_map]. by rewrite fmap_app, IH, files_of_inner_loop.
  - unfold compiled_exes. apply sublist_filter.
Qed.

End OrderFacts.


Module DenseGeneratorFacts.
Import Generator GeneratorSpec GeneratorFacts DenseGenerator.

Lemma dense_loop_spec (n target : Z) (draws : list Z) (attempts : Z)
    (edges : gset (Z * Z)) :
  vertex_draws_ok n draws -> simple n edges ->
  Z.of_nat (size edges) <= Z.max 0 target ->
  let p := dense_loop target attempts edges draws in
  simple n (edges_of p)
  /\ Z.of_nat (size (edges_of p)) <= Z.max 0 target
  /\ (2 * (target * 10 - attempts) <= Z.of_nat (length draws) ->
      exists e, p = Done e).
Proof.
  revert attempts edges.
  induction draws as [draws IH] using (induction_ltof1 _ (@length _)).
  unfold ltof in *. intros attempts edges Hd Hs Hsz. cbv zeta.
  destruct draws as [|u [|v draws]]; cbn [dense_loop];
    destruct (Z.ltb_spec (Z.of_nat (size edges)) target) as [E1|E1];
    destruct (Z.ltb_spec attempts (target * 10)) as [E2|E2];
    cbn [andb edges_of length];
    try (split; [done|]; split; [done|]; intros; (by eauto) || lia).
  apply Forall_cons in Hd as [Hu Hd]. apply Forall_cons in Hd as [Hv Hd].
  set (edges1 := if decide (u <> v) then add_edge edges u v else edges).
  assert (simple n edges1
          /\ (size edges1 <= S (size edges))%nat) as (Hs1 & Hsz1).
  { unfold edges1. destruct (decide (u <> v)).
    - split; [apply simple_add; (done || lia)|apply size_add_le].
    - split; [done|lia]. }
  destruct (IH draws ltac:(simpl; lia) (attempts + 1) edges1 Hd Hs1 ltac:(lia))
    as (H1 & H2 & H3).
  split; [done|]. split; [done|]. intros Hlen. apply H3. lia.
Qed.

(** X25: the loop of [generate_dense_graphs] makes at most ten turns per
    wanted edge, so twenty numbers of the generator per wanted edge are
    enough for it to end; the edges it gathers are normalised pairs of
    distinct vertices below [n], and never more than [target_edges]. *)
Theorem dense_graphs_stop_after_ten_tries_per_edge (n target : Z)
    (draws : list Z) :
  vertex_draws_ok n draws ->
  let p := dense_edges target draws in
  simple n (edges_of p)
  /\ Z.of_nat (size (edges_of p)) <= Z.max 0 target
  /\ (20 * target <= Z.of_nat (length draws) -> exists e, p = Done e).
Proof.
  intros Hd. cbv zeta. unfold dense_edges.
  destruct (dense_loop_spec n target draws 0 ∅ Hd) as (H1 & H2 & H3).
  - intros a b H. by apply not_elem_of_empty in H.
  - rewrite size_empty. lia.
  - split; [done|]. split; [done|]. intros H. apply H3. lia.
Qed.

Lemma dense_graphs_stop_after_ten_tries_per_edge_witness :
  let p := dense_edges 1 [2; 2; 0; 0; 1; 1; 2; 2; 0; 0; 1; 1; 2; 2; 0; 0;
                          1; 1; 2; 2] in
  simple 3 (edges_of p)
  /\ Z.of_nat (size (edges_of p)) <= Z.max 0 1
  /\ (20 * 1 <= Z.of_nat (length [2; 2; 0; 0; 1; 1; 2; 2; 0; 0; 1; 1; 2; 2;
                                  0; 0; 1; 1; 2; 2]) -> exists e, p = Done e).
Proof.
  apply (dense_graphs_stop_after_ten_tries_per_edge 3 1).
  unfold vertex_draws_ok. repeat constructor; lia.
Defined.

End DenseGeneratorFacts.
